(** * Quantum / classical algorithm benchmark suite: a shallow embedding

    The Python sources are embedded function by function.  Python integers
    are [Z] ([//] is [Z.div], [%] is [Z.modulo]: both floor, as in Python),
    Python floats are IEEE binary64 values ([spec_float] with [prec = 53],
    [emax = 1024]), lists are [list], dictionaries with a fixed key set are
    records, and a raised exception is the [Raised] outcome of [py_result].

    The qiskit library is outside the repository: a circuit is the list of
    gate applications the source appends to it, and the Aer backend is a
    variable of the development that maps a circuit and a shot count to a
    measurement histogram.  The two checks of qiskit that the sources can
    trigger while they build a circuit are part of the embedding: indexing
    a register outside its range raises [IndexError], and applying a gate
    to an empty list of qubits raises [CircuitError].  The histories of
    backend jobs and of period-finding calls are kept explicitly, so that
    "without running a simulation" is a statement about the returned
    history. *)

From Stdlib Require Import ZArith List Bool String Ascii Lia Permutation.
From Stdlib Require Import Znumtheory QArith SpecFloat.
From Stdlib Require Import Sorted ListDec OrdersTac DecimalString.
Import ListNotations.

Local Open Scope string_scope.
Local Open Scope list_scope.
Local Open Scope Z_scope.

(** ** Python outcomes *)

Inductive py_exn : Type :=
| ZeroDivisionError
| OverflowError
| ValueError
| IndexError
| CircuitError.

Inductive py_result (A : Type) : Type :=
| Returned (a : A)
| Raised (e : py_exn).

Arguments Returned {A} a.
Arguments Raised {A} e.

Definition bind {A B : Type} (m : py_result A) (k : A -> py_result B)
  : py_result B :=
  match m with
  | Returned a => k a
  | Raised e => Raised e
  end.

Notation "x <- m ;; k" := (bind m (fun x => k))
  (at level 61, m at next level, right associativity).

(** [range(lo, hi)] *)
Definition py_range (lo hi : Z) : list Z :=
  map (fun k => lo + Z.of_nat k) (seq 0 (Z.to_nat (hi - lo))).

(** [len(l)] *)
Definition len {A : Type} (l : list A) : Z := Z.of_nat (List.length l).

(** ** classical/min_max.py *)

Module ClassicalMinMax.

Record result : Type := mk_result {
  data : list Z;
  find_min : bool;
  value : Z;
  index : nat;
  comparisons : Z
}.

Inductive outcome : Type :=
| Error (msg : string)
| Result (r : result).

(** The body of [for i in range(1, len(data))]: [rest] is [data[i:]];
    [better x target] is [data[i] < target] in the minimum branch and
    [data[i] > target] in the maximum branch. *)
Fixpoint scan (better : Z -> Z -> bool) (rest : list Z) (i : nat)
         (target : Z) (target_idx : nat) (comparisons : Z)
  : Z * nat * Z :=
  match rest with
  | [] => (target, target_idx, comparisons)
  | x :: rest' =>
      let comparisons := comparisons + 1 in
      if better x target
      then scan better rest' (S i) x i comparisons
      else scan better rest' (S i) target target_idx comparisons
  end.

Definition classical_min_max (data : list Z) (find_min : bool) : outcome :=
  match data with
  | [] => Error "Empty data list"
  | d0 :: rest =>
      let comparisons := 0 in
      let '(target, target_idx, comparisons) :=
        if find_min
        then scan Z.ltb rest 1%nat d0 0%nat comparisons
        else scan Z.gtb rest 1%nat d0 0%nat comparisons in
      Result {| data := data; find_min := find_min; value := target;
                index := target_idx; comparisons := comparisons |}
  end.

End ClassicalMinMax.

(** ** classical/deutsch_jozsa.py *)

Module ClassicalDeutschJozsa.

Record result : Type := mk_result {
  n_qubits : nat;
  actual_type : string;
  detected_type : string;
  queries : Z;
  correct : bool
}.

Section WithRandom.
(** The process-wide [random] module: [random.choice] picks an element
    of its argument, [random.shuffle] permutes its argument. *)
Variable random_choice : list Z -> Z.
Variable random_shuffle : list Z -> list Z.

(** [len(set(outputs))] *)
Definition len_set (outputs : list Z) : Z :=
  len (nodup Z.eq_dec outputs).

(** The list [outputs] of simulated query results. *)
Definition simulated_outputs (queries_needed : Z) (function_type : string)
  : list Z :=
  if String.eqb function_type "constant" then
    let output := random_choice [0; 1] in
    repeat output (Z.to_nat queries_needed)
  else
    random_shuffle
      (repeat 0 (Z.to_nat (queries_needed / 2)) ++
       repeat 1 (Z.to_nat (queries_needed - queries_needed / 2))).

Definition classical_deutsch_jozsa (n_qubits : nat)
           (function_type : string) : result :=
  let input_size := 2 ^ Z.of_nat n_qubits in
  let queries_needed := input_size / 2 + 1 in
  let outputs := simulated_outputs queries_needed function_type in
  let detected_type :=
    if len_set outputs =? 1 then "constant" else "balanced" in
  {| n_qubits := n_qubits;
     actual_type := function_type;
     detected_type := detected_type;
     queries := queries_needed;
     correct := String.eqb detected_type function_type |}.
End WithRandom.

End ClassicalDeutschJozsa.

(** ** backend/quantum/shor.py *)

Module Shor.

(** The result dictionary.  [factors = None] is Python's [None]; for the
    other keys [None] means that the key is absent, and [period] is
    [Some None] when the key holds Python's [None]. *)
Record result : Type := mk_result {
  factors : option (list Z);
  period : option (option Z);
  base : option Z;
  method : option string;
  error : option string
}.

(** One entry per call of [_quantum_period_finding]. *)
Inductive event : Type :=
| PeriodFinding (a N : Z).

(** [for a in range(2, N): if math.gcd(a, N) == 1: return a] *)
Definition _find_coprime (N : Z) : Z :=
  match find (fun a => Z.gcd a N =? 1) (py_range 2 N) with
  | Some a => a
  | None => 2
  end.

(** The [while current != 1] loop.  The second component counts the
    executions of the loop body; [None] means that [fuel] ran out. *)
Fixpoint period_loop (fuel : nat) (a N current r : Z)
  : option (option Z * nat) :=
  if negb (current =? 1) then
    match fuel with
    | O => None
    | S fuel' =>
        let current := (current * a) mod N in
        let r := r + 1 in
        if r >? N then Some (None, 1%nat)
        else
          match period_loop fuel' a N current r with
          | Some (res, k) => Some (res, S k)
          | None => None
          end
    end
  else Some (Some r, 0%nat).

(** Fuel that always suffices: the body runs at most [max N 1] times. *)
Definition period_fuel (N : Z) : nat := S (Z.to_nat N).

(** The result paired with the number of loop iterations. *)
Definition _classical_period_finding_iters (a N : Z) : option Z * nat :=
  if negb (Z.gcd a N =? 1) then (None, 0%nat)
  else
    let r := 1 in
    let current := a mod N in
    match period_loop (period_fuel N) a N current r with
    | Some out => out
    | None => (None, 0%nat)
    end.

Definition _classical_period_finding (a N : Z) : option Z :=
  fst (_classical_period_finding_iters a N).

Definition _quantum_period_finding (a N : Z) : option Z :=
  _classical_period_finding a N.

(** [run] returns the dictionary and the history of period-finding
    calls it made. *)
Definition run (N : Z) (a : option Z) : result * list event :=
  if N mod 2 =? 0 then
    ({| factors := Some [2; N / 2]; period := None; base := None;
        method := Some "trivial"; error := None |}, [])
  else if N >? 21 then
    ({| factors := None; period := None; base := None; method := None;
        error := Some "N too large for simulation" |}, [])
  else
    let a := match a with
             | None => _find_coprime N
             | Some a => a
             end in
    let gcd := Z.gcd a N in
    if negb (gcd =? 1) then
      ({| factors := Some [gcd; N / gcd]; period := None; base := None;
          method := Some "gcd"; error := None |}, [])
    else
      let r := _quantum_period_finding a N in
      let history := [PeriodFinding a N] in
      match r with
      | None =>
          ({| factors := None; period := Some None; base := None;
              method := None; error := Some "Period not suitable" |},
           history)
      | Some r =>
          if negb (r mod 2 =? 0) then
            ({| factors := None; period := Some (Some r); base := None;
                method := None; error := Some "Period not suitable" |},
             history)
          else
            let factor1 := Z.gcd (a ^ (r / 2) - 1) N in
            let factor2 := Z.gcd (a ^ (r / 2) + 1) N in
            if negb (factor1 =? 1) && negb (factor1 =? N) then
              ({| factors := Some [factor1; N / factor1];
                  period := Some (Some r); base := Some a;
                  method := Some "quantum"; error := None |}, history)
            else if negb (factor2 =? 1) && negb (factor2 =? N) then
              ({| factors := Some [factor2; N / factor2];
                  period := Some (Some r); base := Some a;
                  method := Some "quantum"; error := None |}, history)
            else
              ({| factors := None; period := Some (Some r); base := None;
                  method := None; error := Some "Factorization failed" |},
               history)
      end.

(** Number of bases for which [run] attempted period finding. *)
Definition bases_tried (out : result * list event) : nat :=
  List.length (snd out).

End Shor.

(** ** SL/classical/factorization.py *)

Module ShorFactor.

(** [return g] or [return p, q] *)
Inductive result : Type :=
| Factor (g : Z)
| Factors (p q : Z).

(** The outcome of a loop run with bounded fuel and a finite supply of
    random draws. *)
Inductive outcome : Type :=
| Returns (r : result)
| StillLooping
| OutOfFuel.

(** [while b: a, b = b, a % b] *)
Fixpoint gcd_loop (fuel : nat) (a b : Z) : option Z :=
  if negb (b =? 0) then
    match fuel with
    | O => None
    | S fuel' => gcd_loop fuel' b (a mod b)
    end
  else Some a.

Definition gcd (a b : Z) : option Z :=
  gcd_loop (S (Z.to_nat (Z.abs b))) a b.

(** [while pow(a, r, N) != 1: r += 1] *)
Fixpoint find_period_loop (fuel : nat) (a N r : Z) : option Z :=
  if negb (a ^ r mod N =? 1) then
    match fuel with
    | O => None
    | S fuel' => find_period_loop fuel' a N (r + 1)
    end
  else Some r.

Definition find_period (a N : Z) : option Z :=
  let r := 1 in
  find_period_loop (Z.to_nat N) a N r.

(** One pass through the body of [while True], for the draw [a] of
    [random.randint(2, N - 1)]: [StillLooping] stands for reaching the
    next iteration. *)
Definition attempt (N a : Z) : outcome :=
  match gcd a N with
  | None => OutOfFuel
  | Some g =>
      if g >? 1 then Returns (Factor g)
      else
        match find_period a N with
        | None => OutOfFuel
        | Some r =>
            if negb (r mod 2 =? 0) then StillLooping
            else
              let x := a ^ (r / 2) mod N in
              if x =? N - 1 then StillLooping
              else
                match gcd (x - 1) N, gcd (x + 1) N with
                | Some p, Some q =>
                    if (p >? 1) && (q >? 1) then Returns (Factors p q)
                    else StillLooping
                | _, _ => OutOfFuel
                end
        end
  end.

(** [while True], consuming one random draw per iteration. *)
Fixpoint retry_loop (N : Z) (draws : list Z) : outcome :=
  match draws with
  | [] => StillLooping
  | a :: draws' =>
      match attempt N a with
      | StillLooping => retry_loop N draws'
      | out => out
      end
  end.

Definition shor_factor (N : Z) (draws : list Z) : outcome :=
  if N mod 2 =? 0 then Returns (Factor 2)
  else retry_loop N draws.

End ShorFactor.

(** ** Python floats: IEEE binary64 *)

Module PyFloat.

Definition prec : Z := 53.
Definition emax : Z := 1024.

Definition float : Type := spec_float.

(** The integer [z] as an exact, unrounded operand. *)
Definition exact_of_int (z : Z) : float :=
  match z with
  | Z0 => S754_zero false
  | Zpos p => S754_finite false p 0
  | Zneg p => S754_finite true p 0
  end.

(** [float(z)]: the nearest binary64 number. *)
Definition float_of_int (z : Z) : py_result float :=
  match binary_normalize prec emax z 0 false with
  | S754_infinity _ => Raised OverflowError
  | f => Returned f
  end.

(** [a / b] on two [int]s: the correctly rounded quotient. *)
Definition int_truediv (a b : Z) : py_result float :=
  if b =? 0 then Raised ZeroDivisionError
  else
    match SFdiv prec emax (exact_of_int a) (exact_of_int b) with
    | S754_infinity _ => Raised OverflowError
    | q => Returned q
    end.

(** [x / y] on two [float]s. *)
Definition float_truediv (x y : float) : py_result float :=
  match y with
  | S754_zero _ => Raised ZeroDivisionError
  | _ => Returned (SFdiv prec emax x y)
  end.

Definition float_mul (x y : float) : float := SFmul prec emax x y.
Definition float_sub (x y : float) : float := SFsub prec emax x y.
Definition float_abs (x : float) : float := SFabs x.
Definition float_lt (x y : float) : bool := SFltb x y.
Definition float_ge (x y : float) : bool := SFleb y x.

(** The operands [0] and [1] of a comparison with a [float] *)
Definition float_0 : float := S754_zero false.
Definition float_1 : float := S754_finite false 4503599627370496 (-52).

(** [math.pi] = 0x1.921fb54442d18p+1 *)
Definition math_pi : float := S754_finite false 7074237752028440 (-51).

(** [float('inf')] and [float('-inf')] *)
Definition inf : float := S754_infinity false.
Definition neg_inf : float := S754_infinity true.

(** [math.sqrt] *)
Definition math_sqrt (x : float) : py_result float :=
  match x with
  | S754_finite true _ _ | S754_infinity true => Raised ValueError
  | _ => Returned (SFsqrt prec emax x)
  end.

(** [math.floor], which returns an [int] *)
Definition math_floor (x : float) : py_result Z :=
  match x with
  | S754_zero _ => Returned 0
  | S754_finite s m e => Returned (Z.shiftl (cond_Zopp s (Zpos m)) e)
  | S754_infinity _ => Raised OverflowError
  | S754_nan => Raised ValueError
  end.

(** [int(math.log2(n))] for [n] a power of two, where [math.log2] is
    exact. *)
Definition int_log2 (n : Z) : Z := Z.log2 n.

(** [math.ceil(math.log2(n))] for a list length [n >= 1]; the library
    logarithm is exact on powers of two and strictly between the
    neighbouring integers elsewhere for every [n] up to [2^48]. *)
Definition ceil_log2 (n : Z) : Z := Z.log2_up n.

End PyFloat.

(** ** Strings of binary digits *)

Fixpoint bin_of_pos (p : positive) : string :=
  match p with
  | xH => "1"
  | xO p' => (bin_of_pos p' ++ "0")%string
  | xI p' => (bin_of_pos p' ++ "1")%string
  end.

Fixpoint zeros (k : nat) : string :=
  match k with
  | O => ""
  | S k' => String "0" (zeros k')
  end.

(** [format(z, f'0{width}b')] *)
Definition format_0b (width : Z) (z : Z) : string :=
  let sign := if z <? 0 then "-" else "" in
  let digits := match z with
                | Z0 => "0"
                | Zpos p | Zneg p => bin_of_pos p
                end in
  let fill := width - Z.of_nat (String.length sign)
              - Z.of_nat (String.length digits) in
  (sign ++ zeros (Z.to_nat fill) ++ digits)%string.

Fixpoint int_digits2 (acc : Z) (s : string) : py_result Z :=
  match s with
  | EmptyString => Returned acc
  | String c s' =>
      if Ascii.eqb c "0" then int_digits2 (2 * acc) s'
      else if Ascii.eqb c "1" then int_digits2 (2 * acc + 1) s'
      else Raised ValueError
  end.

(** [int(s, 2)] on a string of binary digits *)
Definition int_base2 (s : string) : py_result Z :=
  match s with
  | EmptyString => Raised ValueError
  | _ => int_digits2 0 s
  end.

(** [enumerate(l)] *)
Definition enumerate {A : Type} (l : list A) : list (Z * A) :=
  combine (py_range 0 (len l)) l.

(** ** Measurement histograms *)

(** A [dict] from bitstring to count, in insertion order; its keys are
    distinct. *)
Definition counts : Type := list (string * Z).

(** [counts.get(key, default)] *)
Fixpoint dict_get (c : counts) (key : string) (default : Z) : Z :=
  match c with
  | [] => default
  | (k, v) :: c' => if String.eqb k key then v else dict_get c' key default
  end.

(** [key in counts] *)
Fixpoint dict_mem (c : counts) (key : string) : bool :=
  match c with
  | [] => false
  | (k, _) :: c' => String.eqb k key || dict_mem c' key
  end.

Fixpoint max_count_from (best : string * Z) (rest : counts) : string * Z :=
  match rest with
  | [] => best
  | (k, v) :: rest' =>
      if v >? snd best then max_count_from (k, v) rest'
      else max_count_from best rest'
  end.

(** [max(counts, key=counts.get)]: the first key with the largest count *)
Definition max_count_state (c : counts) : py_result (string * Z) :=
  match c with
  | [] => Raised ValueError
  | kv :: rest => Returned (max_count_from kv rest)
  end.

(** ** Circuits *)

Inductive gate : Type :=
| G_h (q : Z)
| G_x (q : Z)
| G_z (q : Z)
| G_cz (c t : Z)
| G_cx (c t : Z)
| G_mcx (controls : list Z) (target : Z)
| G_cp (angle : PyFloat.float) (c t : Z)
| G_iqft (qubits : list Z)
| G_measure (q c : Z).

Record QuantumCircuit : Type := mk_circuit {
  num_qubits : Z;
  num_clbits : Z;
  gates : list gate
}.

(** A job submitted to the backend: the circuit and the shot count. *)
Definition job : Type := (QuantumCircuit * Z)%type.

(** [for x in l: body], where the body appends gates or raises *)
Fixpoint for_each {A : Type} (body : A -> py_result (list gate))
         (l : list A) : py_result (list gate) :=
  match l with
  | [] => Returned []
  | x :: l' =>
      gs <- body x ;;
      rest <- for_each body l' ;;
      Returned (gs ++ rest)
  end.

(** [qr[i]] for a register of [n] qubits: the position [i] of a Python
    list of length [n], counted from the end when [i] is negative;
    [IndexError] outside [-n, n). *)
Definition qubit (n i : Z) : py_result Z :=
  if (0 <=? i) && (i <? n) then Returned i
  else if (- n <=? i) && (i <? 0) then Returned (n + i)
  else Raised IndexError.

(** [qc.h(qr)] and [qc.x(qr)] on the qubits [0..n-1]: qiskit refuses a
    gate whose list of qubits is empty with [CircuitError]. *)
Definition h_all (n : Z) : py_result (list gate) :=
  match py_range 0 n with
  | [] => Raised CircuitError
  | qubits => Returned (map G_h qubits)
  end.

Definition x_all (n : Z) : py_result (list gate) :=
  match py_range 0 n with
  | [] => Raised CircuitError
  | qubits => Returned (map G_x qubits)
  end.

(** [qc.measure(qr, cr)]: one measurement per qubit, none for empty
    registers. *)
Definition measure_all (n : Z) : list gate :=
  map (fun q => G_measure q q) (py_range 0 n).

(** The [if n_qubits == 1 / elif n_qubits == 2 / else] block that applies a
    multi-controlled Z. *)
Definition multi_controlled_z (n_qubits : Z) : py_result (list gate) :=
  if n_qubits =? 1 then
    q0 <- qubit n_qubits 0 ;;
    Returned [G_z q0]
  else if n_qubits =? 2 then
    q0 <- qubit n_qubits 0 ;;
    q1 <- qubit n_qubits 1 ;;
    Returned [G_cz q0 q1]
  else
    target <- qubit n_qubits (n_qubits - 1) ;;
    let mcx := G_mcx (py_range 0 (n_qubits - 1)) (n_qubits - 1) in
    target' <- qubit n_qubits (n_qubits - 1) ;;
    Returned [G_h target; mcx; G_h target'].

(** [for i, bit in enumerate(reversed(binary)): if bit == '0': qc.x(qr[i])] *)
Definition x_on_zero_bits (n_qubits : Z) (binary : string)
  : py_result (list gate) :=
  for_each (fun ib : Z * ascii =>
              if Ascii.eqb (snd ib) "0" then
                q <- qubit n_qubits (fst ib) ;;
                Returned [G_x q]
              else Returned [])
           (enumerate (rev (list_ascii_of_string binary))).

(** The marking oracle shared by [GroverAlgorithm._oracle] and
    [QuantumMinMaxAlgorithm._min_max_oracle]. *)
Definition marking_oracle (marked_items : list Z) (n_qubits : Z)
  : py_result (list gate) :=
  for_each (fun marked =>
              let binary := format_0b n_qubits marked in
              flip <- x_on_zero_bits n_qubits binary ;;
              mcz <- multi_controlled_z n_qubits ;;
              undo <- x_on_zero_bits n_qubits binary ;;
              Returned (flip ++ mcz ++ undo))
           marked_items.

(** [_diffusion], identical in both classes *)
Definition _diffusion (n_qubits : Z) : py_result (list gate) :=
  h <- h_all n_qubits ;;
  x <- x_all n_qubits ;;
  mcz <- multi_controlled_z n_qubits ;;
  x' <- x_all n_qubits ;;
  h' <- h_all n_qubits ;;
  Returned (h ++ x ++ mcz ++ x' ++ h').

(** [int(math.floor(math.pi / 4 * math.sqrt(size / marked)))] *)
Definition grover_iterations (size marked : Z) : py_result Z :=
  four <- PyFloat.float_of_int 4 ;;
  quarter_pi <- PyFloat.float_truediv PyFloat.math_pi four ;;
  ratio <- PyFloat.int_truediv size marked ;;
  root <- PyFloat.math_sqrt ratio ;;
  PyFloat.math_floor (PyFloat.float_mul quarter_pi root).

(** [for _ in range(n): body], for a body that appends the same gates in
    every iteration, or raises in the first one *)
Definition repeat_gates (n : Z) (body : py_result (list gate))
  : py_result (list gate) :=
  match Z.to_nat n with
  | O => Returned []
  | S _ =>
      gs <- body ;;
      Returned (List.concat (repeat gs (Z.to_nat n)))
  end.

(** The construction of the search circuit, the same statements in
    [GroverAlgorithm.run] and [QuantumMinMaxAlgorithm.run]: [qc.h(qr)],
    the loop of oracle and diffusion, [qc.measure(qr, cr)]. *)
Definition search_circuit (oracle : list Z -> Z -> py_result (list gate))
           (marked_items : list Z) (n_qubits n_iterations : Z)
  : py_result QuantumCircuit :=
  h <- h_all n_qubits ;;
  iterations <-
    repeat_gates n_iterations
      (o <- oracle marked_items n_qubits ;;
       d <- _diffusion n_qubits ;;
       Returned (o ++ d)) ;;
  Returned {| num_qubits := n_qubits; num_clbits := n_qubits;
              gates := h ++ iterations ++ measure_all n_qubits |}.

(** ** quantum/grover.py *)

Module Grover.

(** [found_items] is [list(set(found_items))]: the distinct values.  The
    order in which CPython's [set] yields them is not modelled; the
    values are kept in the order of their first occurrence. *)
Record result : Type := mk_result {
  marked_items : list Z;
  found_items : list Z;
  success_rate : PyFloat.float;
  iterations : Z;
  measurements : counts;
  circuit : QuantumCircuit
}.

Inductive outcome : Type :=
| Error (msg : string)
| Result (r : result).

(** [for bitstring, count in counts.items()] *)
Fixpoint analyze (items : counts) (marked_items found_items : list Z)
         (success_count : Z) : py_result (list Z * Z) :=
  match items with
  | [] => Returned (found_items, success_count)
  | (bitstring, count) :: rest =>
      value <- int_base2 bitstring ;;
      if existsb (Z.eqb value) marked_items
      then analyze rest marked_items (found_items ++ [value])
                   (success_count + count)
      else analyze rest marked_items found_items success_count
  end.

Definition _oracle := marking_oracle.

Section WithBackend.
Variable backend_run : QuantumCircuit -> Z -> counts.

(** [run] returns its outcome and the jobs it submitted. *)
Definition run (marked_items : list Z) (search_space_size : Z)
  : py_result outcome * list job :=
  if (search_space_size =? 0)
     || negb (Z.land search_space_size (search_space_size - 1) =? 0)
  then (Returned (Error "Search space must be a power of 2"), [])
  else
    let n_qubits := PyFloat.int_log2 search_space_size in
    if n_qubits >? 10
    then (Returned (Error "Search space too large for simulation"), [])
    else
      match
        n_iterations <-
          grover_iterations search_space_size (len marked_items) ;;
        qc <- search_circuit _oracle marked_items n_qubits n_iterations ;;
        Returned (n_iterations, qc)
      with
      | Raised e => (Raised e, [])
      | Returned (n_iterations, qc) =>
          let counts := backend_run qc 1000 in
          (found <- analyze counts marked_items [] 0 ;;
           let '(found_items, success_count) := found in
           success_rate <- PyFloat.int_truediv success_count 1000 ;;
           Returned (Result
             {| marked_items := marked_items;
                found_items := nodup Z.eq_dec found_items;
                success_rate := success_rate;
                iterations := n_iterations;
                measurements := counts;
                circuit := qc |}),
           [(qc, 1000)])
      end.
End WithBackend.

End Grover.

(** ** quantum/deutsch_jozsa.py *)

Module DeutschJozsa.

Record result : Type := mk_result {
  n_qubits : nat;
  actual_type : string;
  detected_type : string;
  correct : bool;
  measurements : counts;
  circuit : QuantumCircuit;
  queries : Z
}.

Inductive outcome : Type :=
| Error (msg : string)
| Result (r : result).

Definition shots : Z := 1024.

Section WithBackend.
Variable backend_run : QuantumCircuit -> Z -> counts.
(** The outcome of [random.random() < 0.5] in [_oracle]. *)
Variable random_lt_half : bool.

(** [qr] has [n_qubits + 1] qubits. *)
Definition _oracle (n_qubits : Z) (function_type : string)
  : py_result (list gate) :=
  if String.eqb function_type "constant" then
    if random_lt_half then
      ancilla <- qubit (n_qubits + 1) n_qubits ;;
      Returned [G_x ancilla]
    else Returned []
  else if String.eqb function_type "balanced" then
    for_each (fun i =>
                control <- qubit (n_qubits + 1) i ;;
                ancilla <- qubit (n_qubits + 1) n_qubits ;;
                Returned [G_cx control ancilla])
             (py_range 0 n_qubits)
  else Raised ValueError.

Definition run (n_qubits : nat) (function_type : string)
  : py_result outcome * list job :=
  let n := Z.of_nat n_qubits in
  if n >? 10
  then (Returned (Error "Too many qubits for simulation"), [])
  else
    match
      ancilla <- qubit (n + 1) n ;;
      h <- h_all (n + 1) ;;
      oracle <- _oracle n function_type ;;
      h' <- h_all n ;;
      Returned {| num_qubits := n + 1; num_clbits := n;
                  gates := [G_x ancilla] ++ h ++ oracle ++ h' ++
                           measure_all n |}
    with
    | Raised e => (Raised e, [])
    | Returned qc =>
        let counts := backend_run qc shots in
        let all_zeros := zeros n_qubits in
        let detected_type :=
          if dict_mem counts all_zeros
             && (dict_get counts all_zeros 0 >? 900)
          then "constant" else "balanced" in
        let is_correct := String.eqb detected_type function_type in
        (Returned (Result
           {| n_qubits := n_qubits;
              actual_type := function_type;
              detected_type := detected_type;
              correct := is_correct;
              measurements := counts;
              circuit := qc;
              queries := 1 |}),
         [(qc, shots)])
    end.
End WithBackend.

End DeutschJozsa.

(** ** quantum/min_max.py *)

(** A list element that is an [int] or a [float]. *)
Inductive py_num : Type :=
| PyInt (z : Z)
| PyFloatNum (f : PyFloat.float).

Module QuantumMinMax.

Record result : Type := mk_result {
  data : list Z;
  find_min : bool;
  target_value : Z;
  target_indices : list Z;
  found_index : Z;
  found_value : option Z;
  success : bool;
  success_rate : PyFloat.float;
  iterations : Z;
  measurements : counts
}.

Inductive outcome : Type :=
| Error (msg : string)
| Result (r : result).

(** The built-in [min] and [max]: a linear scan keeping the first
    extremum. *)
Fixpoint scan_from (better : Z -> Z -> bool) (best : Z) (rest : list Z)
  : Z :=
  match rest with
  | [] => best
  | x :: rest' =>
      if better x best then scan_from better x rest'
      else scan_from better best rest'
  end.

Definition py_min (l : list Z) : py_result Z :=
  match l with
  | [] => Raised ValueError
  | x :: rest => Returned (scan_from Z.ltb x rest)
  end.

Definition py_max (l : list Z) : py_result Z :=
  match l with
  | [] => Raised ValueError
  | x :: rest => Returned (scan_from Z.gtb x rest)
  end.

(** [2 ** math.ceil(math.log2(n))] *)
Definition power_of_2 (n : Z) : Z := 2 ^ PyFloat.ceil_log2 n.

(** [data + [float('inf')] * (power_of_2 - n)], respectively with
    [float('-inf')] *)
Definition padded_data (data : list Z) (find_min : bool) : list py_num :=
  let n := len data in
  let sentinel := if find_min then PyFloat.inf else PyFloat.neg_inf in
  map PyInt data ++
  repeat (PyFloatNum sentinel) (Z.to_nat (power_of_2 n - n)).

(** [[i for i, val in enumerate(data) if val == target_value]] *)
Definition indices_of (data : list Z) (target_value : Z) : list Z :=
  map fst (filter (fun iv : Z * Z => snd iv =? target_value)
                  (enumerate data)).

Definition _min_max_oracle := marking_oracle.

Section WithBackend.
Variable backend_run : QuantumCircuit -> Z -> counts.

Definition run (data : list Z) (find_min : bool)
  : py_result outcome * list job :=
  if len data =? 0 then (Returned (Error "Empty data list"), [])
  else
    let n := len data in
    let power_of_2 := power_of_2 n in
    let padded_data := padded_data data find_min in
    match (if find_min then py_min data else py_max data) with
    | Raised e => (Raised e, [])
    | Returned target_value =>
        let target_indices := indices_of data target_value in
        let n_qubits := PyFloat.int_log2 power_of_2 in
        if n_qubits >? 10
        then (Returned (Error "Data size too large for simulation"), [])
        else
          match
            n_iterations <-
              grover_iterations power_of_2 (len target_indices) ;;
            qc <- search_circuit _min_max_oracle target_indices n_qubits
                                 n_iterations ;;
            Returned (n_iterations, qc)
          with
          | Raised e => (Raised e, [])
          | Returned (n_iterations, qc) =>
              let counts := backend_run qc 1000 in
              (state <- max_count_state counts ;;
               found_index <- int_base2 (fst state) ;;
               let '(found_value, success) :=
                 if found_index <? len data then
                   let found_value :=
                     nth (Z.to_nat found_index) data 0 in
                   (Some found_value, found_value =? target_value)
                 else (None, false) in
               let success_count :=
                 fold_left Z.add
                   (map (fun idx =>
                           dict_get counts (format_0b n_qubits idx) 0)
                        target_indices) 0 in
               success_rate <- PyFloat.int_truediv success_count 1000 ;;
               Returned (Result
                 {| data := data;
                    find_min := find_min;
                    target_value := target_value;
                    target_indices := target_indices;
                    found_index := found_index;
                    found_value := found_value;
                    success := success;
                    success_rate := success_rate;
                    iterations := n_iterations;
                    measurements := counts |}),
               [(qc, 1000)])
          end
    end.
End WithBackend.

End QuantumMinMax.

(** ** backend/quantum/phase_estimation.py *)

Module PhaseEstimation.

Record result : Type := mk_result {
  actual_phase : PyFloat.float;
  estimated_phase : PyFloat.float;
  error : PyFloat.float;
  precision : PyFloat.float;
  n_counting_qubits : nat;
  success_probability : PyFloat.float;
  measured_state : string;
  measured_int : Z;
  measurements : counts;
  circuit : QuantumCircuit
}.

Inductive outcome : Type :=
| Error (msg : string)
| Result (r : result).

Definition shots : Z := 2048.

(** [angle = 2 * np.pi * phase * power] *)
Definition angle (phase : PyFloat.float) (power : Z)
  : py_result PyFloat.float :=
  two <- PyFloat.float_of_int 2 ;;
  power <- PyFloat.float_of_int power ;;
  Returned
    (PyFloat.float_mul
       (PyFloat.float_mul (PyFloat.float_mul two PyFloat.math_pi) phase)
       power).

(** [for i in range(n_counting_qubits)]: the controlled-U operations;
    the counting qubits are the qubits [0..n-1] of the circuit and the
    eigenstate qubit is its qubit [n]. *)
Fixpoint controlled_u (phase : PyFloat.float) (n : Z) (qubits : list Z)
  : py_result (list gate) :=
  match qubits with
  | [] => Returned []
  | i :: rest =>
      let power := 2 ^ i in
      a <- angle phase power ;;
      control <- qubit n i ;;
      gs <- controlled_u phase n rest ;;
      Returned (G_cp a control n :: gs)
  end.

Section WithBackend.
Variable backend_run : QuantumCircuit -> Z -> counts.

Definition run (phase : PyFloat.float) (n_counting_qubits : nat)
  : py_result outcome * list job :=
  let n := Z.of_nat n_counting_qubits in
  if n >? 10
  then (Returned (Error "Too many qubits for simulation"), [])
  else
    if PyFloat.float_lt phase PyFloat.float_0
       || PyFloat.float_ge phase PyFloat.float_1
    then (Returned (Error "Phase must be in range [0, 1)"), [])
    else
      match
        h <- h_all n ;;
        cu <- controlled_u phase n (py_range 0 n) ;;
        Returned {| num_qubits := n + 1; num_clbits := n;
                    gates := [G_x n] ++ h ++ cu ++
                             [G_iqft (py_range 0 n)] ++ measure_all n |}
      with
      | Raised e => (Raised e, [])
      | Returned qc =>
          let counts := backend_run qc shots in
          (state <- max_count_state counts ;;
           let max_count_state := fst state in
           measured_int <- int_base2 max_count_state ;;
           estimated_phase <- PyFloat.int_truediv measured_int (2 ^ n) ;;
           let error :=
             PyFloat.float_abs
               (PyFloat.float_sub estimated_phase phase) in
           precision <- PyFloat.int_truediv 1 (2 ^ n) ;;
           success_prob <- PyFloat.int_truediv (snd state) shots ;;
           Returned (Result
             {| actual_phase := phase;
                estimated_phase := estimated_phase;
                error := error;
                precision := precision;
                n_counting_qubits := n_counting_qubits;
                success_probability := success_prob;
                measured_state := max_count_state;
                measured_int := measured_int;
                measurements := counts;
                circuit := qc |}),
           [(qc, shots)])
      end.
End WithBackend.

End PhaseEstimation.

(** ** classical/factorization.py *)

Module ClassicalFactorization.

(** [while N % i == 0: factors.append(i); N //= i]; [None] means that
    [fuel] ran out. *)
Fixpoint divide_out (fuel : nat) (i N : Z) (factors : list Z)
  : option (Z * list Z) :=
  if N mod i =? 0 then
    match fuel with
    | O => None
    | S fuel' => divide_out fuel' i (N / i) (factors ++ [i])
    end
  else Some (N, factors).

(** [while i * i <= N: ...; i += 2] *)
Fixpoint odd_loop (fuel : nat) (i N : Z) (factors : list Z)
  : option (Z * list Z) :=
  if i * i <=? N then
    match fuel with
    | O => None
    | S fuel' =>
        match divide_out (Z.to_nat N) i N factors with
        | None => None
        | Some (N, factors) => odd_loop fuel' (i + 2) N factors
        end
    end
  else Some (N, factors).

Definition classical_factorization (N : Z) : option (list Z) :=
  if N <? 2 then Some []
  else
    let factors := [] in
    match divide_out (Z.to_nat N) 2 N factors with
    | None => None
    | Some (N, factors) =>
        let i := 3 in
        match odd_loop (Z.to_nat N) i N factors with
        | None => None
        | Some (N, factors) =>
            Some (if N >? 1 then factors ++ [N] else factors)
        end
    end.

End ClassicalFactorization.

(** ** classical/search.py *)

Module ClassicalSearch.

Record result : Type := mk_result {
  found_items : list Z;
  comparisons : Z;
  average_comparisons : py_num
}.

(** [for i in range(search_space_size)], with its [break] *)
Fixpoint search_loop (indices marked_items found_items : list Z)
         (comparisons : Z) : list Z * Z :=
  match indices with
  | [] => (found_items, comparisons)
  | i :: rest =>
      let comparisons := comparisons + 1 in
      if existsb (Z.eqb i) marked_items then
        let found_items := found_items ++ [i] in
        if len found_items =? len marked_items
        then (found_items, comparisons)
        else search_loop rest marked_items found_items comparisons
      else search_loop rest marked_items found_items comparisons
  end.

Definition classical_search (marked_items : list Z) (search_space_size : Z)
  : py_result result :=
  let comparisons := 0 in
  let found_items := [] in
  let '(found_items, comparisons) :=
    search_loop (py_range 0 search_space_size) marked_items found_items
                comparisons in
  average <-
    match marked_items with
    | [] => Returned (PyInt comparisons)
    | _ :: _ =>
        q <- PyFloat.int_truediv comparisons (len marked_items) ;;
        Returned (PyFloatNum q)
    end ;;
  Returned {| found_items := found_items;
              comparisons := comparisons;
              average_comparisons := average |}.

End ClassicalSearch.

(** ** classical/phase_estimation.py *)

Module ClassicalPhaseEstimation.

(** [estimated_phase] is the [int] 0 or a [float]. *)
Record result : Type := mk_result {
  actual_phase : PyFloat.float;
  estimated_phase : py_num;
  error : PyFloat.float;
  precision : PyFloat.float;
  samples_needed : Z;
  method : string
}.

(** The literal [0.999] = 0x1.ff7ced916872bp-1 *)
Definition float_0999 : PyFloat.float :=
  S754_finite false 8998192055486251 (-53).

Section WithRandom.
(** [np.random.normal(0, scale)] for a positive [scale] *)
Variable random_normal : PyFloat.float -> PyFloat.float.

(** [n_samples] is a non-negative [int]. *)
Definition classical_phase_estimation (phase : PyFloat.float)
           (n_samples : nat) : py_result result :=
  let n := Z.of_nat n_samples in
  let samples_needed := 2 ^ n in
  precision <- PyFloat.int_truediv 1 n ;;
  two <- PyFloat.float_of_int 2 ;;
  scale <- PyFloat.float_truediv precision two ;;
  let noise := random_normal scale in
  let estimated_phase := SFadd PyFloat.prec PyFloat.emax phase noise in
  (* min(estimated_phase, 0.999) *)
  let clipped :=
    if PyFloat.float_lt float_0999 estimated_phase then float_0999
    else estimated_phase in
  (* max(0, ...) *)
  let estimated_phase :=
    if PyFloat.float_lt PyFloat.float_0 clipped then PyFloatNum clipped
    else PyInt 0 in
  let difference :=
    match estimated_phase with
    | PyInt z => PyFloat.float_sub (PyFloat.exact_of_int z) phase
    | PyFloatNum f => PyFloat.float_sub f phase
    end in
  let error := PyFloat.float_abs difference in
  Returned {| actual_phase := phase;
              estimated_phase := estimated_phase;
              error := error;
              precision := precision;
              samples_needed := samples_needed;
              method := "classical_sampling" |}.
End WithRandom.

End ClassicalPhaseEstimation.

(** ** SL/classical/minmax.py *)

Module Minimax.

(** The numbers that [minimax] compares: the evaluations, which are
    taken to be [int]s, and [float('-inf')] and [float('inf')]. *)
Inductive value : Type :=
| NegInf
| Fin (z : Z)
| PosInf.

(** [x < y] and [x <= y] *)
Definition lt (x y : value) : bool :=
  match x, y with
  | NegInf, NegInf => false
  | NegInf, _ => true
  | Fin _, NegInf => false
  | Fin a, Fin b => a <? b
  | Fin _, PosInf => true
  | PosInf, _ => false
  end.

Definition le (x y : value) : bool := negb (lt y x).

(** The built-in [max(a, b)] and [min(a, b)]: [a], unless [b] is
    greater, respectively smaller. *)
Definition py_max (a b : value) : value := if lt a b then b else a.
Definition py_min (a b : value) : value := if lt b a then b else a.

(** An object with the methods [is_terminal()], [evaluate()] and
    [children()]. *)
Unset Elimination Schemes.
Inductive node : Type :=
| Node (is_terminal : bool) (evaluate : Z) (children : list node).
Set Elimination Schemes.

(** The [for child in node.children()] loop of the maximizing branch;
    [eval_child child alpha] is the recursive call on [child]. *)
Definition max_loop (eval_child : node -> value -> value) (beta : value)
  : list node -> value -> value -> value :=
  fix loop (children : list node) (max_eval alpha : value) : value :=
    match children with
    | [] => max_eval
    | child :: rest =>
        let eval := eval_child child alpha in
        let max_eval := py_max max_eval eval in
        let alpha := py_max alpha eval in
        if le beta alpha then max_eval else loop rest max_eval alpha
    end.

(** The loop of the minimizing branch; [eval_child child beta] is the
    recursive call on [child]. *)
Definition min_loop (eval_child : node -> value -> value) (alpha : value)
  : list node -> value -> value -> value :=
  fix loop (children : list node) (min_eval beta : value) : value :=
    match children with
    | [] => min_eval
    | child :: rest =>
        let eval := eval_child child beta in
        let min_eval := py_min min_eval eval in
        let beta := py_min beta eval in
        if le beta alpha then min_eval else loop rest min_eval beta
    end.

Fixpoint minimax (n : node) (depth : Z) (alpha beta : value)
         (maximizing : bool) : value :=
  match n with
  | Node is_terminal evaluate children =>
      if (depth =? 0) || is_terminal then Fin evaluate
      else if maximizing then
        max_loop (fun child alpha =>
                    minimax child (depth - 1) alpha beta false)
                 beta children NegInf alpha
      else
        min_loop (fun child beta =>
                    minimax child (depth - 1) alpha beta true)
                 alpha children PosInf beta
  end.

End Minimax.

(** ** backend/dynamic/data_generator.py *)

Module DatasetGenerator.

(** [sorted(l)] on a list of integers: the sorted arrangement of [l],
    built by insertion. *)
Fixpoint insert (x : Z) (l : list Z) : list Z :=
  match l with
  | [] => [x]
  | y :: l' => if x <=? y then x :: l else y :: insert x l'
  end.

Definition sorted (l : list Z) : list Z := fold_right insert [] l.

(** [l[:count]] *)
Definition slice_to (count : Z) (l : list Z) : list Z :=
  if 0 <=? count then firstn (Z.to_nat count) l
  else firstn (Z.to_nat (len l + count)) l.

Definition primes : list Z := [3; 5; 7; 11; 13; 17; 19; 23; 29; 31].

Section WithRandom.
(** The outcome of the [i]-th call of [random.sample(primes[:7], 2)]. *)
Variable sample : nat -> Z * Z.

(** [for _ in range(count)], from iteration [i] on *)
Fixpoint shor_loop (iterations i : nat) (composites : list Z) : list Z :=
  match iterations with
  | O => composites
  | S iterations' =>
      let '(p1, p2) := sample i in
      let N := p1 * p2 in
      if negb (existsb (Z.eqb N) composites) && (N <? 100) && (N >? 10)
      then shor_loop iterations' (S i) (composites ++ [N])
      else shor_loop iterations' (S i) composites
  end.

(** [generate_shor_data]; the printed report is left out.  [set] keeps
    the distinct values, and [sorted] fixes their order. *)
Definition generate_shor_data (count : Z) : list Z :=
  let composites := shor_loop (Z.to_nat count) 0 [] in
  slice_to count (sorted (nodup Z.eq_dec composites)).
End WithRandom.

(** [str(z)] for an [int], as an f-string inserts it *)
Definition str (z : Z) : string := NilZero.string_of_int (Z.to_int z).

Definition space_sizes : list Z := [16; 32; 64; 128].

Section WithRandomCases.
(** The outcomes, in iteration [i], of [random.choice(space_sizes)], of
    [random.randint(1, 3)] and of
    [random.sample(range(space_size), num_marked)]. *)
Variable choice : nat -> Z.
Variable randint : nat -> Z.
Variable sample_range : nat -> list Z.

(** The body of [for i in range(num_cases)]: the appended tuple *)
Definition grover_case (i : nat) : list Z * Z * string :=
  let space_size := choice i in
  let num_marked := randint i in
  let marked_items := sorted (sample_range i) in
  let description :=
    (str num_marked ++ " item" ++ (if num_marked >? 1 then "s" else "") ++
     " in " ++ str space_size ++ " elements")%string in
  (marked_items, space_size, description).

(** [generate_grover_data]; the printed report is left out. *)
Definition generate_grover_data (num_cases : Z)
  : list (list Z * Z * string) :=
  map grover_case (seq 0 (Z.to_nat num_cases)).
End WithRandomCases.

End DatasetGenerator.

(** * Specification predicates *)

(** [target] at [target_idx] is the first element of [seen] that is best
    for the order [R]. *)
Definition first_best (R : Z -> Z -> Prop) (seen : list Z) (target : Z)
           (target_idx : nat) : Prop :=
  nth_error seen target_idx = Some target /\
  (forall j x, nth_error seen j = Some x -> R target x) /\
  (forall j x, (j < target_idx)%nat -> nth_error seen j = Some x ->
               x <> target).

(** The order for which the scan looks for a best element. *)
Definition scan_order (find_min : bool) : Z -> Z -> Prop :=
  if find_min then Z.le else Z.ge.

(** [r] is the multiplicative order of [a] modulo [N]: the smallest
    [r >= 1] with [a^r = 1 (mod N)]. *)
Definition is_order (a N r : Z) : Prop :=
  1 <= r /\ a ^ r mod N = 1 /\
  forall r', 1 <= r' < r -> a ^ r' mod N <> 1.

(** No exponent in [1..N] gives [a^r = 1 (mod N)]. *)
Definition no_period_upto (a N : Z) : Prop :=
  forall r, 1 <= r <= N -> a ^ r mod N <> 1.

(** A base whose period cannot be used: [r] is odd, or
    [a^(r/2) = -1 (mod N)]. *)
Definition unsuitable_period (a N r : Z) : Prop :=
  r mod 2 <> 0 \/ (a ^ (r / 2) + 1) mod N = 0.

(** [run] went on to a further base after the first one. *)
Definition retries_with_new_base (N a : Z) : Prop :=
  (2 <= Shor.bases_tried (Shor.run N (Some a)))%nat.

(** A binary64 value that is [+0.0] or positive and below [2^B]. *)
Definition nonneg_below (B : Z) (x : PyFloat.float) : Prop :=
  x = S754_zero false \/
  exists m e, x = S754_finite false m e /\ Zdigits2 (Zpos m) + e <= B.

(** [N] is a power of two. *)
Definition is_power_of_two (N : Z) : Prop :=
  exists k, 0 <= k /\ N = 2 ^ k.

(** A non-empty string of the characters '0' and '1'. *)
Definition is_bitstring (s : string) : bool :=
  match s with
  | EmptyString => false
  | _ => forallb (fun c => Ascii.eqb c "0" || Ascii.eqb c "1")
                 (list_ascii_of_string s)
  end.

Fixpoint total_count (c : counts) : Z :=
  match c with
  | [] => 0
  | (_, v) :: c' => v + total_count c'
  end.

(** The invariant of a measurement histogram: bitstring keys, counts that
    are not negative and sum to the shot count. *)
Definition histogram_ok (shots : Z) (c : counts) : bool :=
  forallb (fun kv : string * Z => is_bitstring (fst kv) && (0 <=? snd kv)) c
  && (total_count c =? shots).

(** A backend that answers every job with a histogram of its shots. *)
Definition backend_ok (backend_run : QuantumCircuit -> Z -> counts) : Prop :=
  forall qc shots, 0 < shots -> histogram_ok shots (backend_run qc shots) = true.

(** [k = floor(pi/4 * sqrt(size / marked))] over the reals, decided with
    the enclosure [3.141592653589793 < pi < 3.141592653589794]:
    [(4 k)^2 * marked <= pi^2 * size < (4 (k + 1))^2 * marked]. *)
Definition is_exact_floor (size marked k : Z) : bool :=
  let lo := 3141592653589793 in
  let hi := 3141592653589794 in
  let d := 10 ^ 15 in
  (0 <=? k)
  && (16 * k * k * marked * (d * d) <=? lo * lo * size)
  && (hi * hi * size <? 16 * (k + 1) * (k + 1) * marked * (d * d)).

(** The check of [is_exact_floor] on the outcome of [grover_iterations]. *)
Definition iterations_exact (size marked : Z) : bool :=
  match grover_iterations size marked with
  | Returned k => is_exact_floor size marked k
  | Raised _ => false
  end.

(** The count of the all-zero outcome and its share of the shots. *)
Definition all_zero_count (n_qubits : nat) (c : counts) : Z :=
  dict_get c (zeros n_qubits) 0.

Definition all_zero_share (n_qubits : nat) (c : counts) : Q :=
  (inject_Z (all_zero_count n_qubits c) / inject_Z DeutschJozsa.shots)%Q.

(** [t] occurs in [data] and is its minimum ([find_min]) or maximum. *)
Definition is_extremum (find_min : bool) (data : list Z) (t : Z) : Prop :=
  In t data /\ forall x, In x data -> scan_order find_min t x.

(** [p] is the least power of two that is at least [n]. *)
Definition is_next_power_of_two (n p : Z) : Prop :=
  is_power_of_two p /\ n <= p /\
  forall q, is_power_of_two q -> n <= q -> p <= q.

(** [padded] is [data] followed by copies of the sentinel of the mode, up
    to the next power-of-two length. *)
Definition is_padding (find_min : bool) (data : list Z)
           (padded : list py_num) : Prop :=
  let sentinel := if find_min then PyFloat.inf else PyFloat.neg_inf in
  (exists k, padded = map PyInt data ++ repeat (PyFloatNum sentinel) k) /\
  is_next_power_of_two (len data) (len padded).

(** Every outcome of the histogram is written with at most [width]
    binary digits. *)
Definition keys_fit (width : nat) (c : counts) : bool :=
  forallb (fun kv : string * Z => (String.length (fst kv) <=? width)%nat) c.

(** [kv] is the first entry of the histogram [c] with the largest
    count: what [max(counts, key=counts.get)] selects. *)
Definition first_most_frequent (c : counts) (kv : string * Z) : Prop :=
  exists before after,
    c = before ++ kv :: after /\
    (forall e, In e before -> snd e < snd kv) /\
    (forall e, In e after -> snd e <= snd kv).

(** The outcome [key] was measured more often than every other outcome
    of the histogram [c]. *)
Definition dominant (c : counts) (key : string) : Prop :=
  forall e, In e c -> fst e <> key -> snd e < dict_get c key 0.

(** The binary64 number 0.25 *)
Definition float_quarter : PyFloat.float :=
  S754_finite false 4503599627370496 (-54).

(** The character of bit [i] of [m]. *)
Definition bit_char (m i : Z) : ascii :=
  if Z.testbit m i then "1"%char else "0"%char.

(** The [k] low binary digits of [m], least significant first. *)
Fixpoint lsb_chars (k : nat) (m : Z) : list ascii :=
  match k with
  | O => []
  | S k' => (if Z.odd m then "1"%char else "0"%char)
            :: lsb_chars k' (Z.div2 m)
  end.

(** The positions below [n] at which [m] has a zero bit, in increasing
    order. *)
Definition zero_bits (n m : Z) : list Z :=
  filter (fun i => negb (Z.testbit m i)) (py_range 0 n).

(** The product of a list of integers. *)
Definition list_product (l : list Z) : Z := fold_right Z.mul 1 l.

(** [N] has no divisor [d] with [2 <= d < i]. *)
Definition no_divisor_below (i N : Z) : Prop :=
  forall d, 2 <= d < i -> ~ (d | N).

(** [i in marked_items] *)
Definition is_marked (marked_items : list Z) (i : Z) : bool :=
  existsb (Z.eqb i) marked_items.

(** The marked indices below [c], in increasing order. *)
Definition marked_below (marked_items : list Z) (c : Z) : list Z :=
  filter (is_marked marked_items) (py_range 0 c).

(** What a returned value of [shor_factor] must satisfy: a single factor
    is a proper divisor of [N], a pair consists of two proper factors
    whose product is [N]. *)
Definition proper_factors (N : Z) (out : ShorFactor.outcome) : Prop :=
  match out with
  | ShorFactor.Returns (ShorFactor.Factor g) => 1 < g < N /\ (g | N)
  | ShorFactor.Returns (ShorFactor.Factors p q) =>
      1 < p < N /\ 1 < q < N /\ p * q = N
  | ShorFactor.StillLooping => True
  | ShorFactor.OutOfFuel => False
  end.

(** The qubits and classical bits a gate is applied to. *)
Definition gate_qubits (g : gate) : list Z :=
  match g with
  | G_h q | G_x q | G_z q => [q]
  | G_cz c t | G_cx c t => [c; t]
  | G_mcx controls target => controls ++ [target]
  | G_cp _ c t => [c; t]
  | G_iqft qubits => qubits
  | G_measure q _ => [q]
  end.

Definition gate_clbits (g : gate) : list Z :=
  match g with
  | G_measure _ c => [c]
  | _ => []
  end.

Definition in_register (n q : Z) : bool := (0 <=? q) && (q <? n).

Fixpoint distinct (l : list Z) : bool :=
  match l with
  | [] => true
  | x :: l' => negb (existsb (Z.eqb x) l') && distinct l'
  end.

(** A gate fits registers of [nq] qubits and [nc] classical bits when
    its operands are distinct positions of these registers. *)
Definition gate_fits (nq nc : Z) (g : gate) : bool :=
  forallb (in_register nq) (gate_qubits g)
  && distinct (gate_qubits g)
  && forallb (in_register nc) (gate_clbits g).

Definition circuit_fits (qc : QuantumCircuit) : bool :=
  forallb (gate_fits (num_qubits qc) (num_clbits qc)) (gates qc).

(** The measured outcomes whose value is a marked item, and their
    values. *)
Definition is_hit (marked_items : list Z) (kv : string * Z) : bool :=
  match int_base2 (fst kv) with
  | Returned v => existsb (Z.eqb v) marked_items
  | Raised _ => false
  end.

Definition hits (marked_items : list Z) (c : counts) : counts :=
  filter (is_hit marked_items) c.

Definition outcome_values (c : counts) : list Z :=
  flat_map (fun kv : string * Z =>
              match int_base2 (fst kv) with
              | Returned v => [v]
              | Raised _ => []
              end) c.

(** The clamped estimate: the [int] 0, or a [float] [y] for which
    [0 < y] and [y <= 0.999] hold. *)
Definition clamped (x : py_num) : Prop :=
  match x with
  | PyInt z => z = 0
  | PyFloatNum y =>
      PyFloat.float_lt PyFloat.float_0 y = true /\
      PyFloat.float_ge ClassicalPhaseEstimation.float_0999 y = true
  end.

(** The value of a game tree searched to [depth] without pruning: the
    evaluation at depth 0 and at terminal nodes, otherwise the largest,
    respectively smallest, value of the children, the players
    alternating. *)
Fixpoint game_value (n : Minimax.node) (depth : Z) (maximizing : bool)
  : Minimax.value :=
  match n with
  | Minimax.Node is_terminal evaluate children =>
      if (depth =? 0) || is_terminal then Minimax.Fin evaluate
      else if maximizing then
        fold_left Minimax.py_max
                  (map (fun child => game_value child (depth - 1) false)
                       children)
                  Minimax.NegInf
      else
        fold_left Minimax.py_min
                  (map (fun child => game_value child (depth - 1) true)
                       children)
                  Minimax.PosInf
  end.

Definition value_lt (x y : Minimax.value) : Prop := Minimax.lt x y = true.
Definition value_le (x y : Minimax.value) : Prop := Minimax.le x y = true.

(** What a search with the window [(alpha, beta)] tells about the value
    [v]: the value itself when it lies inside the window, otherwise a
    bound on the same side of the window as [v]. *)
Definition window_result (alpha beta v r : Minimax.value) : Prop :=
  (value_lt alpha v -> value_lt v beta -> r = v) /\
  (value_le v alpha -> value_le v r /\ value_le r alpha) /\
  (value_le beta v -> value_le beta r /\ value_le r v).

(** The marked item [m >= 0] has a zero bit at or above position [n] and
    below its leading one. *)
Definition zero_bit_outside (n m : Z) : Prop :=
  exists i, n <= i < Z.log2 m /\ Z.testbit m i = false.

(** What [random.sample(primes[:7], 2)] returns: two elements at
    different positions of the first seven primes. *)
Definition sample_ok (sample : nat -> Z * Z) : Prop :=
  forall i,
    In (fst (sample i)) (firstn 7 DatasetGenerator.primes) /\
    In (snd (sample i)) (firstn 7 DatasetGenerator.primes) /\
    fst (sample i) <> snd (sample i).

(** The product drawn in iteration [i]. *)
Definition drawn (sample : nat -> Z * Z) (i : nat) : Z :=
  fst (sample i) * snd (sample i).

(** What the random functions of [generate_grover_data] return: an
    element of [space_sizes], a number from 1 to 3, and that many
    different elements of [range(space_size)]. *)
Definition cases_ok (choice randint : nat -> Z)
           (sample_range : nat -> list Z) : Prop :=
  forall i,
    In (choice i) DatasetGenerator.space_sizes /\
    1 <= randint i <= 3 /\
    NoDup (sample_range i) /\
    len (sample_range i) = randint i /\
    (forall m, In m (sample_range i) -> 0 <= m < choice i).

(** * Properties *)

(** ** Linear extremum scan *)

Section ScanInvariant.
Variable better : Z -> Z -> bool.
Variable R : Z -> Z -> Prop.
Hypothesis better_spec : forall x t, better x t = false <-> R t x.
Hypothesis R_total : forall x y, R x y \/ R y x.
Hypothesis R_trans : forall x y z, R x y -> R y z -> R x z.

Lemma first_best_keep seen target target_idx x :
  first_best R seen target target_idx ->
  better x target = false ->
  first_best R (seen ++ [x]) target target_idx.
Proof.
  intros (Hn & Hb & Hf) Hx.
  assert (Hlt : (target_idx < List.length seen)%nat)
    by (apply nth_error_Some; congruence).
  assert (HR : R target x) by (apply better_spec; exact Hx).
  split; [| split].
  - rewrite nth_error_app1 by exact Hlt. exact Hn.
  - intros j y Hj.
    destruct (Nat.lt_ge_cases j (List.length seen)) as [L | L].
    + rewrite nth_error_app1 in Hj by exact L. eauto.
    + rewrite nth_error_app2 in Hj by exact L.
      destruct (j - List.length seen)%nat as [| k]; simpl in Hj.
      * inversion Hj; subst. exact HR.
      * destruct k; discriminate.
  - intros j y Hj Hy.
    rewrite nth_error_app1 in Hy by lia. eauto.
Qed.

Lemma first_best_replace seen target target_idx x :
  first_best R seen target target_idx ->
  better x target = true ->
  first_best R (seen ++ [x]) x (List.length seen).
Proof.
  intros (Hn & Hb & Hf) Hx.
  assert (Hnot : ~ R target x)
    by (intro K; apply better_spec in K; congruence).
  assert (HR : R x target)
    by (destruct (R_total x target); [assumption | contradiction]).
  split; [| split].
  - rewrite nth_error_app2 by lia. rewrite Nat.sub_diag. reflexivity.
  - intros j y Hj.
    destruct (Nat.lt_ge_cases j (List.length seen)) as [L | L].
    + rewrite nth_error_app1 in Hj by exact L. eauto.
    + rewrite nth_error_app2 in Hj by exact L.
      destruct (j - List.length seen)%nat as [| k]; simpl in Hj.
      * inversion Hj; subst.
        destruct (R_total y y); assumption.
      * destruct k; discriminate.
  - intros j y Hj Hy.
    rewrite nth_error_app1 in Hy by exact Hj.
    intros ->. apply Hnot. eauto.
Qed.

Lemma scan_invariant rest :
  forall seen target target_idx c,
    first_best R seen target target_idx ->
    forall t' i' c',
      ClassicalMinMax.scan better rest (List.length seen)
                           target target_idx c = (t', i', c') ->
      first_best R (seen ++ rest) t' i' /\ c' = c + len rest.
Proof.
  induction rest as [| x rest IH]; intros seen target target_idx c Hfb
    t' i' c' Hscan; simpl in Hscan.
  - inversion Hscan; subst. rewrite app_nil_r.
    split; [exact Hfb | unfold len; simpl; lia].
  - replace (seen ++ x :: rest) with ((seen ++ [x]) ++ rest)
      by (rewrite <- app_assoc; reflexivity).
    replace (S (List.length seen)) with (List.length (seen ++ [x]))
      in Hscan by (rewrite length_app; simpl; lia).
    destruct (better x target) eqn:E.
    + apply IH in Hscan; [| eapply first_best_replace; eauto].
      destruct Hscan as [H1 H2]. split; [exact H1 |].
      unfold len in *. simpl. lia.
    + apply IH in Hscan; [| eapply first_best_keep; eauto].
      destruct Hscan as [H1 H2]. split; [exact H1 |].
      unfold len in *. simpl. lia.
Qed.
End ScanInvariant.

(** C8: on a non-empty list [classical_min_max] reports [len(data) - 1]
    comparisons and returns the value and the first index of the minimum
    ([find_min] true) or of the maximum ([find_min] false). *)
Theorem classical_min_max_first_extremum (data : list Z) (find_min : bool) :
  data <> [] ->
  exists r,
    ClassicalMinMax.classical_min_max data find_min
    = ClassicalMinMax.Result r /\
    ClassicalMinMax.comparisons r = len data - 1 /\
    first_best (scan_order find_min) data
               (ClassicalMinMax.value r) (ClassicalMinMax.index r).
Proof.
  destruct data as [| d0 rest]; [congruence | intros _].
  unfold ClassicalMinMax.classical_min_max.
  assert (Hinit : forall R : Z -> Z -> Prop,
             (forall x, R x x) -> first_best R [d0] d0 0%nat).
  { intros R Hrefl. split; [reflexivity | split].
    - intros [| [| j]] x Hj; simpl in Hj; try discriminate.
      inversion Hj; subst. apply Hrefl.
    - intros j x Hj. lia. }
  destruct find_min.
  - destruct (ClassicalMinMax.scan Z.ltb rest 1 d0 0 0)
      as [[t i] c] eqn:E.
    apply (scan_invariant Z.ltb Z.le) with (seen := [d0]) in E.
    + destruct E as [Hfb Hc]. eexists. split; [reflexivity |].
      cbn [ClassicalMinMax.comparisons ClassicalMinMax.value
           ClassicalMinMax.index].
      split; [unfold len in *; simpl List.length; lia | exact Hfb].
    + intros x t0. rewrite Z.ltb_ge. reflexivity.
    + intros x y. lia.
    + intros x y z. lia.
    + apply Hinit. intros x. lia.
  - destruct (ClassicalMinMax.scan Z.gtb rest 1 d0 0 0)
      as [[t i] c] eqn:E.
    apply (scan_invariant Z.gtb Z.ge) with (seen := [d0]) in E.
    + destruct E as [Hfb Hc]. eexists. split; [reflexivity |].
      cbn [ClassicalMinMax.comparisons ClassicalMinMax.value
           ClassicalMinMax.index].
      split; [unfold len in *; simpl List.length; lia | exact Hfb].
    + intros x t0. rewrite Z.gtb_ltb, Z.ltb_ge. lia.
    + intros x y. lia.
    + intros x y z. lia.
    + apply Hinit. intros x. lia.
Qed.

Lemma classical_min_max_first_extremum_witness :
  exists r,
    ClassicalMinMax.classical_min_max [7; 3; 9; 1; 5; 8; 2; 6] true
    = ClassicalMinMax.Result r /\
    ClassicalMinMax.comparisons r = len [7; 3; 9; 1; 5; 8; 2; 6] - 1 /\
    first_best (scan_order true) [7; 3; 9; 1; 5; 8; 2; 6]
               (ClassicalMinMax.value r) (ClassicalMinMax.index r).
Proof.
  apply (classical_min_max_first_extremum [7; 3; 9; 1; 5; 8; 2; 6] true).
  discriminate.
Defined.

(** ** Worst-case query simulator *)

Lemma nodup_repeat_succ (x : Z) (k : nat) :
  nodup Z.eq_dec (repeat x (S k)) = [x].
Proof.
  induction k as [| k IH]; [reflexivity |].
  change (repeat x (S (S k))) with (x :: repeat x (S k)).
  change (nodup Z.eq_dec (x :: repeat x (S k)))
    with (if in_dec Z.eq_dec x (repeat x (S k))
          then nodup Z.eq_dec (repeat x (S k))
          else x :: nodup Z.eq_dec (repeat x (S k))).
  destruct (in_dec Z.eq_dec x (repeat x (S k))) as [_ | Hn].
  - exact IH.
  - exfalso. apply Hn. left. reflexivity.
Qed.

Lemma len_set_two_values (l : list Z) :
  In 0 l -> In 1 l ->
  (ClassicalDeutschJozsa.len_set l =? 1) = false.
Proof.
  intros H0 H1. apply Z.eqb_neq. unfold ClassicalDeutschJozsa.len_set, len.
  apply (nodup_In Z.eq_dec) in H0, H1.
  destruct (nodup Z.eq_dec l) as [| x [| y t]]; simpl in *.
  - contradiction.
  - destruct H0 as [-> | []], H1 as [H1 | []]. discriminate.
  - lia.
Qed.

Lemma queries_needed_halves (n : nat) :
  (1 <= n)%nat ->
  let q := 2 ^ Z.of_nat n / 2 + 1 in
  q = 2 ^ (Z.of_nat n - 1) + 1 /\ 2 <= q /\ 1 <= q / 2 /\ 1 <= q - q / 2.
Proof.
  intros Hn q.
  assert (Hpow : 2 ^ Z.of_nat n = 2 * 2 ^ (Z.of_nat n - 1)).
  { rewrite <- Z.pow_succ_r by lia. f_equal. lia. }
  assert (Hpos : 0 < 2 ^ (Z.of_nat n - 1)) by (apply Z.pow_pos_nonneg; lia).
  assert (Hq : q = 2 ^ (Z.of_nat n - 1) + 1).
  { unfold q. rewrite Hpow. rewrite Z.mul_comm, Z.div_mul by lia.
    reflexivity. }
  assert (Hhalf : 1 <= q / 2) by (apply Z.div_le_lower_bound; lia).
  assert (Hup : q / 2 < q) by (apply Z.div_lt; lia).
  repeat split; lia.
Qed.

(** C9: for [n_qubits >= 1] and a function type among 'constant' and
    'balanced', [classical_deutsch_jozsa] reports [correct = true]
    whatever [random.choice] returns and however [random.shuffle]
    permutes: the [2^(n-1) + 1 >= 2] simulated outputs are all identical
    in the constant case and contain both a 0 and a 1 in the balanced
    case. *)
Theorem classical_deutsch_jozsa_always_correct
        (random_choice : list Z -> Z) (random_shuffle : list Z -> list Z)
        (n_qubits : nat) (function_type : string) :
  (forall l, Permutation l (random_shuffle l)) ->
  (1 <= n_qubits)%nat ->
  function_type = "constant" \/ function_type = "balanced" ->
  let r := ClassicalDeutschJozsa.classical_deutsch_jozsa
             random_choice random_shuffle n_qubits function_type in
  let outputs := ClassicalDeutschJozsa.simulated_outputs
                   random_choice random_shuffle
                   (ClassicalDeutschJozsa.queries r) function_type in
  ClassicalDeutschJozsa.correct r = true /\
  ClassicalDeutschJozsa.detected_type r = function_type /\
  ClassicalDeutschJozsa.queries r = 2 ^ (Z.of_nat n_qubits - 1) + 1 /\
  2 <= ClassicalDeutschJozsa.queries r /\
  len outputs = ClassicalDeutschJozsa.queries r /\
  (function_type = "constant" ->
   forall x y, In x outputs -> In y outputs -> x = y) /\
  (function_type = "balanced" -> In 0 outputs /\ In 1 outputs).
Proof.
  intros Hshuffle Hn Hft r outputs.
  destruct (queries_needed_halves n_qubits Hn) as (Hq & Hq2 & Hlo & Hhi).
  cbv zeta in Hq, Hq2, Hlo, Hhi.
  assert (Hqueries : ClassicalDeutschJozsa.queries r
                     = 2 ^ Z.of_nat n_qubits / 2 + 1) by reflexivity.
  assert (Hconst : function_type = "constant" ->
                   forall x, In x outputs ->
                             x = random_choice [0; 1]).
  { intros -> x Hx. unfold outputs, ClassicalDeutschJozsa.simulated_outputs in Hx.
    cbn [String.eqb Ascii.eqb Bool.eqb] in Hx.
    apply repeat_spec in Hx. exact Hx. }
  assert (Hbal : function_type = "balanced" -> In 0 outputs /\ In 1 outputs).
  { intros ->. unfold outputs, ClassicalDeutschJozsa.simulated_outputs.
    cbn [String.eqb Ascii.eqb Bool.eqb]. rewrite Hqueries.
    split; (eapply Permutation_in; [apply Hshuffle |]); apply in_or_app.
    - left.
      destruct (Z.to_nat ((2 ^ Z.of_nat n_qubits / 2 + 1) / 2))
        as [| k] eqn:E; [lia | left; reflexivity].
    - right.
      destruct (Z.to_nat (2 ^ Z.of_nat n_qubits / 2 + 1
                          - (2 ^ Z.of_nat n_qubits / 2 + 1) / 2))
        as [| k] eqn:E; [lia | left; reflexivity]. }
  assert (Hlen : len outputs = ClassicalDeutschJozsa.queries r).
  { unfold outputs, ClassicalDeutschJozsa.simulated_outputs, len.
    rewrite Hqueries.
    destruct (String.eqb function_type "constant").
    - rewrite repeat_length. lia.
    - rewrite <- (Permutation_length (Hshuffle _)).
      rewrite length_app, !repeat_length. lia. }
  assert (Hdet : ClassicalDeutschJozsa.detected_type r = function_type).
  { unfold r, ClassicalDeutschJozsa.classical_deutsch_jozsa.
    cbn [ClassicalDeutschJozsa.detected_type].
    fold (ClassicalDeutschJozsa.queries r) in *. rewrite <- Hqueries.
    fold outputs.
    destruct Hft as [E | E].
    - assert (Hone : ClassicalDeutschJozsa.len_set outputs = 1).
      { unfold outputs, ClassicalDeutschJozsa.simulated_outputs.
        rewrite E. cbn [String.eqb Ascii.eqb Bool.eqb]. rewrite Hqueries.
        destruct (Z.to_nat (2 ^ Z.of_nat n_qubits / 2 + 1)) as [| k] eqn:Ek;
          [lia |].
        unfold ClassicalDeutschJozsa.len_set.
        rewrite nodup_repeat_succ. reflexivity. }
      rewrite Hone. subst function_type. reflexivity.
    - destruct (Hbal E) as [H0 H1].
      rewrite (len_set_two_values outputs H0 H1).
      subst function_type. reflexivity. }
  split.
  { unfold r, ClassicalDeutschJozsa.classical_deutsch_jozsa in *.
    cbn [ClassicalDeutschJozsa.correct ClassicalDeutschJozsa.detected_type]
      in *.
    rewrite Hdet. apply String.eqb_refl. }
  split; [exact Hdet |].
  split; [rewrite Hqueries; exact Hq |].
  split; [rewrite Hqueries; exact Hq2 |].
  split; [exact Hlen |].
  split; [| exact Hbal].
  intros E x y Hx Hy.
  rewrite (Hconst E x Hx), (Hconst E y Hy). reflexivity.
Qed.

Lemma classical_deutsch_jozsa_always_correct_witness :
  ClassicalDeutschJozsa.correct
    (ClassicalDeutschJozsa.classical_deutsch_jozsa
       (fun l => nth 1 l 0) (@rev Z) 3 "balanced") = true.
Proof.
  apply (classical_deutsch_jozsa_always_correct
           (fun l => nth 1 l 0) (@rev Z) 3 "balanced").
  - intros l. apply Permutation_rev.
  - lia.
  - right. reflexivity.
Defined.

(** ** Period finding *)

Lemma period_loop_spec (a N : Z) :
  2 <= N ->
  forall fuel current r,
    1 <= r <= N ->
    current = a ^ r mod N ->
    (forall r', 1 <= r' < r -> a ^ r' mod N <> 1) ->
    (Z.to_nat (N - r) < fuel)%nat ->
    exists res k,
      Shor.period_loop fuel a N current r = Some (res, k) /\
      Z.of_nat k <= N + 1 - r /\
      (res = None -> no_period_upto a N) /\
      (forall r0, res = Some r0 -> r0 <= N /\ is_order a N r0).
Proof.
  intros HN fuel.
  induction fuel as [| fuel IH]; intros current r Hr Hcur Hmin Hfuel;
    [lia |].
  cbn [Shor.period_loop].
  destruct (Z.eqb_spec current 1) as [H1 | H1]; cbn [negb].
  - exists (Some r), 0%nat. split; [reflexivity |].
    split; [lia |]. split; [discriminate |].
    intros r0 E. inversion E; subst r0.
    split; [lia |]. split; [lia |]. split; [congruence | exact Hmin].
  - assert (Hstep : (current * a) mod N = a ^ (r + 1) mod N).
    { rewrite Hcur, Z.mul_mod_idemp_l by lia.
      rewrite Z.pow_add_r by lia. rewrite Z.pow_1_r. reflexivity. }
    assert (Hmin' : forall r', 1 <= r' < r + 1 -> a ^ r' mod N <> 1).
    { intros r' Hr'. destruct (Z.eq_dec r' r) as [-> | Hne].
      - congruence.
      - apply Hmin. lia. }
    destruct (Z.gtb_spec (r + 1) N) as [Hgt | Hle].
    + exists None, 1%nat. split; [reflexivity |].
      split; [lia |]. split; [| discriminate].
      intros _ r' Hr'. apply Hmin'. lia.
    + destruct (IH ((current * a) mod N) (r + 1)) as (res & k & E & Hk & Hn & Hs);
        [lia | exact Hstep | exact Hmin' | lia |].
      rewrite E. exists res, (S k). split; [reflexivity |].
      split; [lia |]. split; assumption.
Qed.

(** C10: for [N >= 2] the loop of [_classical_period_finding] ends within
    [N + 1] iterations; the result is [None] when [gcd(a, N) != 1] or when
    no [r <= N] has [a^r = 1 (mod N)], and otherwise it is the smallest
    [r >= 1] with [a^r = 1 (mod N)]. *)
Theorem classical_period_finding_spec (a N : Z) :
  2 <= N ->
  let res := Shor._classical_period_finding a N in
  let iters := snd (Shor._classical_period_finding_iters a N) in
  (Z.gcd a N = 1 ->
   Shor.period_loop (Shor.period_fuel N) a N (a mod N) 1
   = Some (res, iters)) /\
  Z.of_nat iters <= N + 1 /\
  (Z.gcd a N <> 1 \/ no_period_upto a N -> res = None) /\
  (Z.gcd a N = 1 -> ~ no_period_upto a N ->
   exists r, res = Some r /\ is_order a N r).
Proof.
  intros HN res iters.
  unfold res, iters, Shor._classical_period_finding,
    Shor._classical_period_finding_iters.
  destruct (Z.eqb_spec (Z.gcd a N) 1) as [Hg | Hg]; cbn [negb fst snd].
  - destruct (period_loop_spec a N HN (Shor.period_fuel N) (a mod N) 1)
      as (r0 & k & E & Hk & Hnone & Hsome).
    + lia.
    + rewrite Z.pow_1_r. reflexivity.
    + intros r' Hr'. lia.
    + unfold Shor.period_fuel. lia.
    + rewrite E. cbn [fst snd].
      split; [reflexivity |]. split; [lia |]. split.
      * intros [Hbad | Hno]; [congruence |].
        destruct r0 as [r0 |]; [| reflexivity].
        destruct (Hsome r0 eq_refl) as (Hle & H1 & Heq & _).
        exfalso. apply (Hno r0); [lia | exact Heq].
      * intros _ Hex. destruct r0 as [r0 |].
        -- exists r0. split; [reflexivity |]. apply Hsome. reflexivity.
        -- exfalso. apply Hex. apply Hnone. reflexivity.
  - split; [congruence |]. split; [simpl; lia |]. split.
    + reflexivity.
    + congruence.
Qed.

Lemma classical_period_finding_spec_witness :
  let res := Shor._classical_period_finding 2 15 in
  let iters := snd (Shor._classical_period_finding_iters 2 15) in
  (Z.gcd 2 15 = 1 ->
   Shor.period_loop (Shor.period_fuel 15) 2 15 (2 mod 15) 1
   = Some (res, iters)) /\
  Z.of_nat iters <= 15 + 1 /\
  (Z.gcd 2 15 <> 1 \/ no_period_upto 2 15 -> res = None) /\
  (Z.gcd 2 15 = 1 -> ~ no_period_upto 2 15 ->
   exists r, res = Some r /\ is_order 2 15 r).
Proof.
  apply (classical_period_finding_spec 2 15). lia.
Defined.

Example period_2_15 : Shor._classical_period_finding_iters 2 15
                      = (Some 4, 3%nat).
Proof. reflexivity. Qed.

Example period_2_21 : Shor._classical_period_finding 2 21 = Some 6.
Proof. reflexivity. Qed.

Example period_not_coprime : Shor._classical_period_finding 6 15 = None.
Proof. reflexivity. Qed.

(** ** Factorization entry point *)

(** C7: for even [N], [run] returns the pair [2, N // 2] with no
    period-finding call; for odd [N <= 21] and a supplied base [a] with
    [g = gcd(a, N) > 1] it returns [g, N // g], again with no
    period-finding call. *)
Theorem shor_trivial_and_gcd_factors :
  (forall N a, N mod 2 = 0 ->
     Shor.run N a
     = ({| Shor.factors := Some [2; N / 2]; Shor.period := None;
           Shor.base := None; Shor.method := Some "trivial";
           Shor.error := None |}, [])) /\
  (forall N a g, N mod 2 <> 0 -> N <= 21 -> g = Z.gcd a N -> 1 < g ->
     Shor.run N (Some a)
     = ({| Shor.factors := Some [g; N / g]; Shor.period := None;
           Shor.base := None; Shor.method := Some "gcd";
           Shor.error := None |}, [])).
Proof.
  split.
  - intros N a Heven. unfold Shor.run.
    rewrite Heven. reflexivity.
  - intros N a g Hodd Hsmall -> Hg. unfold Shor.run.
    destruct (Z.eqb_spec (N mod 2) 0) as [? | _]; [contradiction |].
    destruct (Z.gtb_spec N 21) as [? | _]; [lia |].
    destruct (Z.eqb_spec (Z.gcd a N) 1) as [? | _]; [lia |].
    reflexivity.
Qed.

Lemma shor_trivial_and_gcd_factors_witness :
  Shor.run 14 None
  = ({| Shor.factors := Some [2; 14 / 2]; Shor.period := None;
        Shor.base := None; Shor.method := Some "trivial";
        Shor.error := None |}, []) /\
  Shor.run 15 (Some 6)
  = ({| Shor.factors := Some [3; 15 / 3]; Shor.period := None;
        Shor.base := None; Shor.method := Some "gcd";
        Shor.error := None |}, []).
Proof.
  split.
  - apply (proj1 shor_trivial_and_gcd_factors 14 None). reflexivity.
  - apply (proj2 shor_trivial_and_gcd_factors 15 6 3).
    + discriminate.
    + lia.
    + reflexivity.
    + lia.
Defined.

Lemma gcd_pred_of_minus_one (x N : Z) :
  0 < N -> N mod 2 <> 0 -> (x + 1) mod N = 0 ->
  Z.gcd (x - 1) N = 1 /\ Z.gcd (x + 1) N = N.
Proof.
  intros Hpos Hodd Hx.
  assert (Hdiv : (N | x + 1)) by (apply Z.mod_divide; [lia | exact Hx]).
  split.
  - pose proof (Z.gcd_divide_l (x - 1) N) as Hl.
    pose proof (Z.gcd_divide_r (x - 1) N) as Hr.
    pose proof (Z.gcd_nonneg (x - 1) N) as Hnn.
    set (g := Z.gcd (x - 1) N) in *.
    assert (H2 : (g | 2)).
    { replace 2 with ((x + 1) - (x - 1)) by lia.
      apply Z.divide_sub_r; [| exact Hl].
      eapply Z.divide_trans; eassumption. }
    assert (Hle : g <= 2) by (apply Z.divide_pos_le; [lia | exact H2]).
    assert (Hg0 : g <> 0).
    { intros E. rewrite E in Hr. apply Z.divide_0_l in Hr. lia. }
    assert (Hg2 : g <> 2).
    { intros E. rewrite E in Hr. apply Hodd.
      apply Z.mod_divide; [lia | exact Hr]. }
    lia.
  - rewrite Z.gcd_comm. apply Z.divide_gcd_iff; [lia | exact Hdiv].
Qed.

(** [shor_factor] retries without any bound: for the prime 7 every base
    drawn from [2, 6] is coprime to 7 and has an odd period or a half
    power equal to [-1], so no number of draws makes the loop return. *)
Lemma shor_factor_retries_without_bound (draws : list Z) :
  Forall (fun a => 2 <= a <= 7 - 1) draws ->
  ShorFactor.shor_factor 7 draws = ShorFactor.StillLooping.
Proof.
  unfold ShorFactor.shor_factor.
  change (7 mod 2 =? 0) with false. cbv iota.
  induction 1 as [| a draws Ha _ IH]; [reflexivity |].
  cbn [ShorFactor.retry_loop].
  assert (Hcases : a = 2 \/ a = 3 \/ a = 4 \/ a = 5 \/ a = 6) by lia.
  assert (Hstep : ShorFactor.attempt 7 a = ShorFactor.StillLooping).
  { destruct Hcases as [-> | [-> | [-> | [-> | ->]]]];
      vm_compute; reflexivity. }
  rewrite Hstep. exact IH.
Qed.

Example shor_factor_15 :
  ShorFactor.shor_factor 15 [14; 4]
  = ShorFactor.Returns (ShorFactor.Factors 3 5).
Proof. vm_compute. reflexivity. Qed.

(** C3, as the code has it: for an odd [0 < N <= 21] and a base coprime
    to [N], [run] attempts period finding for exactly one base; when the
    period is missing or odd it returns the failure record 'Period not
    suitable', and when the period is even with [a^(r/2) = -1 (mod N)] it
    returns the failure record 'Factorization failed'.  No further base is
    tried. *)
Theorem shor_single_attempt (N a : Z) :
  0 < N -> N mod 2 <> 0 -> N <= 21 -> Z.gcd a N = 1 ->
  let out := Shor.run N (Some a) in
  let failure r msg :=
    {| Shor.factors := None; Shor.period := Some r; Shor.base := None;
       Shor.method := None; Shor.error := Some msg |} in
  snd out = [Shor.PeriodFinding a N] /\
  Shor.bases_tried out = 1%nat /\
  ~ retries_with_new_base N a /\
  (Shor._quantum_period_finding a N = None ->
   fst out = failure None "Period not suitable") /\
  (forall r, Shor._quantum_period_finding a N = Some r ->
             r mod 2 <> 0 ->
             fst out = failure (Some r) "Period not suitable") /\
  (forall r, Shor._quantum_period_finding a N = Some r ->
             r mod 2 = 0 -> (a ^ (r / 2) + 1) mod N = 0 ->
             fst out = failure (Some r) "Factorization failed").
Proof.
  intros Hpos Hodd Hsmall Hcop out failure.
  assert (Hrun : out =
    (let r := Shor._quantum_period_finding a N in
     let history := [Shor.PeriodFinding a N] in
     match r with
     | None => (failure None "Period not suitable", history)
     | Some r =>
         if negb (r mod 2 =? 0)
         then (failure (Some r) "Period not suitable", history)
         else
           let factor1 := Z.gcd (a ^ (r / 2) - 1) N in
           let factor2 := Z.gcd (a ^ (r / 2) + 1) N in
           if negb (factor1 =? 1) && negb (factor1 =? N) then
             ({| Shor.factors := Some [factor1; N / factor1];
                 Shor.period := Some (Some r); Shor.base := Some a;
                 Shor.method := Some "quantum"; Shor.error := None |},
              history)
           else if negb (factor2 =? 1) && negb (factor2 =? N) then
             ({| Shor.factors := Some [factor2; N / factor2];
                 Shor.period := Some (Some r); Shor.base := Some a;
                 Shor.method := Some "quantum"; Shor.error := None |},
              history)
           else (failure (Some r) "Factorization failed", history)
     end)).
  { unfold out, Shor.run.
    destruct (Z.eqb_spec (N mod 2) 0) as [? | _]; [contradiction |].
    destruct (Z.gtb_spec N 21) as [? | _]; [lia |].
    rewrite Hcop. reflexivity. }
  assert (Hhist : snd out = [Shor.PeriodFinding a N]).
  { rewrite Hrun. cbv zeta.
    destruct (Shor._quantum_period_finding a N) as [r |]; [| reflexivity].
    destruct (negb (r mod 2 =? 0)); [reflexivity |].
    destruct (negb (Z.gcd (a ^ (r / 2) - 1) N =? 1)
              && negb (Z.gcd (a ^ (r / 2) - 1) N =? N)); [reflexivity |].
    destruct (negb (Z.gcd (a ^ (r / 2) + 1) N =? 1)
              && negb (Z.gcd (a ^ (r / 2) + 1) N =? N)); reflexivity. }
  split; [exact Hhist |].
  split; [unfold Shor.bases_tried; rewrite Hhist; reflexivity |].
  split.
  { unfold retries_with_new_base, Shor.bases_tried. fold out.
    rewrite Hhist. simpl. lia. }
  split; [| split].
  - intros E. rewrite Hrun, E. reflexivity.
  - intros r E Hr. rewrite Hrun, E. cbv beta iota zeta.
    destruct (Z.eqb_spec (r mod 2) 0) as [? | _]; [contradiction |].
    reflexivity.
  - intros r E Hr Hminus. rewrite Hrun, E. cbv beta iota zeta.
    rewrite Hr. cbn [Z.eqb negb].
    destruct (gcd_pred_of_minus_one (a ^ (r / 2)) N Hpos Hodd Hminus)
      as [H1 H2].
    rewrite H1, H2, (Z.eqb_refl N). cbn [Z.eqb Pos.eqb negb andb].
    rewrite andb_false_r. reflexivity.
Qed.

Lemma shor_single_attempt_witness :
  fst (Shor.run 15 (Some 14))
  = {| Shor.factors := None; Shor.period := Some (Some 2);
       Shor.base := None; Shor.method := None;
       Shor.error := Some "Factorization failed" |}
  /\ Shor.bases_tried (Shor.run 15 (Some 14)) = 1%nat.
Proof.
  destruct (shor_single_attempt 15 14)
    as (_ & Htried & _ & _ & _ & Hminus).
  - lia.
  - discriminate.
  - lia.
  - reflexivity.
  - split; [| exact Htried].
    apply (Hminus 2); reflexivity.
Defined.

(** C3 as stated fails: base 14 for [N = 15] has period 2 with
    [14^1 = -1 (mod 15)], base 4 for [N = 21] has the odd period 3, and in
    both cases [run] returns its failure record after this one base,
    although base 2 factors 15 and 21. *)
Lemma shor_gives_up_after_first_base :
  Shor._quantum_period_finding 14 15 = Some 2 /\
  unsuitable_period 14 15 2 /\
  Shor.run 15 (Some 14)
  = ({| Shor.factors := None; Shor.period := Some (Some 2);
        Shor.base := None; Shor.method := None;
        Shor.error := Some "Factorization failed" |},
     [Shor.PeriodFinding 14 15]) /\
  ~ retries_with_new_base 15 14 /\
  Shor._quantum_period_finding 4 21 = Some 3 /\
  unsuitable_period 4 21 3 /\
  Shor.run 21 (Some 4)
  = ({| Shor.factors := None; Shor.period := Some (Some 3);
        Shor.base := None; Shor.method := None;
        Shor.error := Some "Period not suitable" |},
     [Shor.PeriodFinding 4 21]) /\
  ~ retries_with_new_base 21 4 /\
  Shor.factors (fst (Shor.run 15 (Some 2))) = Some [3; 5] /\
  Shor.factors (fst (Shor.run 21 (Some 2))) = Some [7; 3].
Proof.
  unfold retries_with_new_base, unsuitable_period, Shor.bases_tried.
  repeat split; try reflexivity.
  - right. reflexivity.
  - vm_compute. lia.
  - left. discriminate.
  - vm_compute. lia.
Qed.

(** ** Binary64 rounding keeps bounded values finite *)

Section FloatBounds.
Let prec := PyFloat.prec.
Let emax := PyFloat.emax.

Lemma fexp_eq (x : Z) : fexp prec emax x = Z.max (x - 53) (-1074).
Proof. reflexivity. Qed.

Lemma Zdigits2_pos_bounds (p : positive) :
  2 ^ (Zdigits2 (Zpos p) - 1) <= Zpos p < 2 ^ Zdigits2 (Zpos p).
Proof.
  cbn [Zdigits2].
  assert (Hsize : digits2_pos p = Pos.size p)
    by (induction p; simpl; congruence).
  rewrite Hsize.
  pose proof (Pos.size_gt p) as Hgt.
  pose proof (Pos.size_le p) as Hle.
  apply Pos2Z.pos_lt_pos in Hgt. apply Pos2Z.pos_le_pos in Hle.
  rewrite Pos2Z.inj_pow in Hgt, Hle.
  replace (Zpos (Pos.size p)) with (Z.succ (Zpos (Pos.size p) - 1))
    in Hle by lia.
  rewrite Z.pow_succ_r in Hle by lia.
  split; [lia | exact Hgt].
Qed.

Lemma Zdigits2_nonneg (m : Z) : 0 <= Zdigits2 m.
Proof. destruct m; simpl; lia. Qed.

Lemma Zdigits2_lt (m : Z) : 0 <= m -> m < 2 ^ Zdigits2 m.
Proof.
  destruct m as [| p | p]; intros H; [reflexivity | | lia].
  apply Zdigits2_pos_bounds.
Qed.

Lemma Zdigits2_upper (m k : Z) :
  0 <= m -> 0 <= k -> m < 2 ^ k -> Zdigits2 m <= k.
Proof.
  destruct m as [| p | p]; intros Hm Hk Hlt; [exact Hk | | lia].
  pose proof (Zdigits2_pos_bounds p) as [Hlo _].
  assert (H : 2 ^ (Zdigits2 (Zpos p) - 1) < 2 ^ k) by lia.
  apply Z.pow_lt_mono_r_iff in H; lia.
Qed.

Lemma Zdigits2_le_mono (a b : Z) :
  0 <= a <= b -> Zdigits2 a <= Zdigits2 b.
Proof.
  intros H. apply Zdigits2_upper; [lia | apply Zdigits2_nonneg |].
  pose proof (Zdigits2_lt b). lia.
Qed.

Lemma Zdigits2_succ (m : Z) : 0 <= m -> Zdigits2 (m + 1) <= Zdigits2 m + 1.
Proof.
  intros H. pose proof (Zdigits2_nonneg m) as Hd.
  apply Zdigits2_upper; [lia | lia |].
  rewrite Z.pow_add_r, Z.pow_1_r by lia.
  pose proof (Zdigits2_lt m H). lia.
Qed.

Lemma Zdigits2_mul_pow2 (m s : Z) :
  0 <= m -> 0 <= s -> Zdigits2 (m * 2 ^ s) <= Zdigits2 m + s.
Proof.
  intros Hm Hs. pose proof (Zdigits2_nonneg m) as Hd.
  assert (Hp : 0 < 2 ^ s) by (apply Z.pow_pos_nonneg; lia).
  apply Zdigits2_upper; [nia | lia |].
  rewrite Z.pow_add_r by lia.
  pose proof (Zdigits2_lt m Hm). nia.
Qed.

Lemma Zdigits2_mul (a b : Z) :
  0 <= a -> 0 <= b -> Zdigits2 (a * b) <= Zdigits2 a + Zdigits2 b.
Proof.
  intros Ha Hb.
  pose proof (Zdigits2_nonneg a). pose proof (Zdigits2_nonneg b).
  apply Zdigits2_upper; [nia | lia |].
  rewrite Z.pow_add_r by lia.
  pose proof (Zdigits2_lt a Ha). pose proof (Zdigits2_lt b Hb). nia.
Qed.

Lemma Zdigits2_div_pow2 (m k : Z) :
  0 <= m -> 0 <= k ->
  Zdigits2 (m / 2 ^ k) <= Z.max 0 (Zdigits2 m - k).
Proof.
  intros Hm Hk.
  assert (Hp : 0 < 2 ^ k) by (apply Z.pow_pos_nonneg; lia).
  pose proof (Zdigits2_lt m Hm) as Hlt.
  pose proof (Zdigits2_nonneg m) as Hd.
  destruct (Z_le_gt_dec (Zdigits2 m) k) as [Hle | Hgt].
  - assert (Hsmall : m < 2 ^ k).
    { eapply Z.lt_le_trans; [exact Hlt |].
      apply Z.pow_le_mono_r; lia. }
    rewrite Z.div_small by lia. simpl. lia.
  - assert (Hq : m / 2 ^ k < 2 ^ (Zdigits2 m - k)).
    { apply Z.div_lt_upper_bound; [exact Hp |].
      rewrite <- Z.pow_add_r by lia.
      replace (k + (Zdigits2 m - k)) with (Zdigits2 m) by lia.
      exact Hlt. }
    assert (Hq0 : 0 <= m / 2 ^ k) by (apply Z.div_pos; lia).
    assert (Hk' : 0 <= Zdigits2 m - k) by lia.
    pose proof (Zdigits2_upper _ _ Hq0 Hk' Hq). lia.
Qed.

Lemma shr_1_half (mrs : shr_record) :
  0 <= shr_m mrs -> shr_m (shr_1 mrs) = shr_m mrs / 2.
Proof.
  destruct mrs as [m r s]. cbn [shr_m]. intros Hm.
  rewrite <- Z.div2_div.
  destruct m as [| [p | p |] | p]; try reflexivity; lia.
Qed.

Lemma shr_m_iter (p : positive) :
  forall mrs, 0 <= shr_m mrs ->
              shr_m (iter_pos shr_1 p mrs) = shr_m mrs / 2 ^ Zpos p.
Proof.
  induction p as [p IH | p IH |]; intros mrs Hm; cbn [iter_pos].
  - assert (H1 : 0 <= shr_m (shr_1 mrs))
      by (rewrite shr_1_half by exact Hm; apply Z.div_pos; lia).
    assert (Hp : 0 < 2 ^ Zpos p) by (apply Z.pow_pos_nonneg; lia).
    assert (H2 : 0 <= shr_m (iter_pos shr_1 p (shr_1 mrs)))
      by (rewrite IH by exact H1; apply Z.div_pos; lia).
    rewrite IH by exact H2. rewrite IH by exact H1.
    rewrite shr_1_half by exact Hm.
    rewrite !Z.div_div by lia.
    f_equal.
    replace (Zpos p~1) with (1 + (Zpos p + Zpos p)) by lia.
    rewrite !Z.pow_add_r, Z.pow_1_r by lia. lia.
  - assert (Hp : 0 < 2 ^ Zpos p) by (apply Z.pow_pos_nonneg; lia).
    assert (H2 : 0 <= shr_m (iter_pos shr_1 p mrs))
      by (rewrite IH by exact Hm; apply Z.div_pos; lia).
    rewrite IH by exact H2. rewrite IH by exact Hm.
    rewrite Z.div_div by lia.
    f_equal.
    replace (Zpos p~0) with (Zpos p + Zpos p) by lia.
    rewrite Z.pow_add_r by lia. reflexivity.
  - rewrite shr_1_half by exact Hm. reflexivity.
Qed.

Lemma shr_fexp_spec (m e : Z) (l : location) :
  0 <= m ->
  let '(mrs, e') := shr_fexp prec emax m e l in
  e' = Z.max e (fexp prec emax (Zdigits2 m + e)) /\
  shr_m mrs = m / 2 ^ (e' - e).
Proof.
  intros Hm. unfold shr_fexp, shr.
  assert (Hrec : shr_m (shr_record_of_loc m l) = m)
    by (destruct l as [| []]; reflexivity).
  destruct (fexp prec emax (Zdigits2 m + e) - e) as [| p | p] eqn:E.
  - split; [lia |]. rewrite Hrec, Z.sub_diag, Z.pow_0_r, Z.div_1_r.
    reflexivity.
  - split; [lia |]. rewrite shr_m_iter by (rewrite Hrec; exact Hm).
    rewrite Hrec. f_equal. f_equal. lia.
  - split; [lia |]. rewrite Hrec, Z.sub_diag, Z.pow_0_r, Z.div_1_r.
    reflexivity.
Qed.

Lemma round_nearest_even_bounds (m : Z) (l : location) :
  m <= round_nearest_even m l <= m + 1.
Proof.
  destruct l as [| []]; cbn [round_nearest_even];
    try destruct (Z.even m); lia.
Qed.

(** A non-negative significand of magnitude below [2^B], [B <= 971],
    rounds to zero or to a finite number of magnitude below
    [2^(B+1)]: never to an infinity or a NaN. *)
Lemma binary_round_aux_bounded (s : bool) (m e : Z) (l : location)
      (B : Z) :
  0 <= m -> Zdigits2 m + e <= B -> e <= B -> 0 <= B <= 971 ->
  binary_round_aux prec emax s m e l = S754_zero s \/
  exists m' e',
    binary_round_aux prec emax s m e l = S754_finite s m' e' /\
    Zdigits2 (Zpos m') + e' <= B + 1.
Proof.
  intros Hm Hd He HB. unfold binary_round_aux.
  pose proof (shr_fexp_spec m e l Hm) as H1.
  destruct (shr_fexp prec emax m e l) as [mrs1 e1].
  destruct H1 as [He1 Hm1].
  assert (Hle1 : 0 <= e1 - e) by lia.
  assert (Hp1 : 0 < 2 ^ (e1 - e)) by (apply Z.pow_pos_nonneg; lia).
  assert (Hnn1 : 0 <= shr_m mrs1)
    by (rewrite Hm1; apply Z.div_pos; lia).
  pose proof (round_nearest_even_bounds (shr_m mrs1)
                (loc_of_shr_record mrs1)) as Hrne.
  set (m1 := round_nearest_even (shr_m mrs1) (loc_of_shr_record mrs1))
    in *.
  pose proof (shr_fexp_spec m1 e1 loc_Exact ltac:(lia)) as H2.
  destruct (shr_fexp prec emax m1 e1 loc_Exact) as [mrs2 e2].
  destruct H2 as [He2 Hm2].
  assert (Hle2 : 0 <= e2 - e1) by lia.
  assert (Hp2 : 0 < 2 ^ (e2 - e1)) by (apply Z.pow_pos_nonneg; lia).
  assert (Hd1 : Zdigits2 (shr_m mrs1) <= Z.max 0 (Zdigits2 m - (e1 - e)))
    by (rewrite Hm1; apply Zdigits2_div_pow2; lia).
  assert (Hd1' : Zdigits2 m1 <= Zdigits2 (shr_m mrs1) + 1).
  { eapply Z.le_trans; [| apply Zdigits2_succ; exact Hnn1].
    apply Zdigits2_le_mono. lia. }
  assert (Hd2 : Zdigits2 (shr_m mrs2) <= Z.max 0 (Zdigits2 m1 - (e2 - e1)))
    by (rewrite Hm2; apply Zdigits2_div_pow2; lia).
  assert (Hnn2 : 0 <= shr_m mrs2)
    by (rewrite Hm2; apply Z.div_pos; lia).
  rewrite fexp_eq in He1, He2.
  pose proof (Zdigits2_nonneg m) as Hdm.
  destruct (shr_m mrs2) as [| p | p] eqn:E.
  - left. reflexivity.
  - right.
    assert (Hpd : 1 <= Zdigits2 (Zpos p)) by (simpl; lia).
    assert (He2b : e2 <= 971) by lia.
    destruct (Z.leb_spec e2 (emax - prec)) as [_ | Hbad];
      [| unfold emax, prec, PyFloat.emax, PyFloat.prec in Hbad; lia].
    exists p, e2. split; [reflexivity | lia].
  - lia.
Qed.

(** Rounding never exceeds a power of two that bounds the value. *)
Lemma binary_round_aux_cap (s : bool) (m e : Z) (l : location) (B : Z) :
  0 <= m -> Zdigits2 m + e <= B -> e <= B -> -1074 <= B <= 971 ->
  binary_round_aux prec emax s m e l = S754_zero s \/
  exists m' e',
    binary_round_aux prec emax s m e l = S754_finite s m' e' /\
    e' <= B /\ Zpos m' <= 2 ^ (B - e').
Proof.
  intros Hm Hd He HB. unfold binary_round_aux.
  pose proof (shr_fexp_spec m e l Hm) as H1.
  destruct (shr_fexp prec emax m e l) as [mrs1 e1].
  destruct H1 as [He1 Hm1].
  rewrite fexp_eq in He1.
  pose proof (Zdigits2_nonneg m) as Hdm.
  assert (Hle1 : 0 <= e1 - e) by lia.
  assert (He1B : e1 <= B) by lia.
  assert (Hp1 : 0 < 2 ^ (e1 - e)) by (apply Z.pow_pos_nonneg; lia).
  assert (Hmlt : m < 2 ^ (B - e)).
  { eapply Z.lt_le_trans; [apply Zdigits2_lt; exact Hm |].
    apply Z.pow_le_mono_r; lia. }
  assert (Hsplit : 2 ^ (B - e) = 2 ^ (e1 - e) * 2 ^ (B - e1))
    by (rewrite <- Z.pow_add_r by lia; f_equal; lia).
  assert (Hnn1 : 0 <= shr_m mrs1)
    by (rewrite Hm1; apply Z.div_pos; lia).
  assert (Hm1lt : shr_m mrs1 < 2 ^ (B - e1)).
  { rewrite Hm1. apply Z.div_lt_upper_bound; [exact Hp1 |].
    rewrite <- Hsplit. exact Hmlt. }
  pose proof (round_nearest_even_bounds (shr_m mrs1)
                (loc_of_shr_record mrs1)) as Hrne.
  set (m1 := round_nearest_even (shr_m mrs1) (loc_of_shr_record mrs1)) in *.
  pose proof (shr_fexp_spec m1 e1 loc_Exact ltac:(lia)) as H2.
  destruct (shr_fexp prec emax m1 e1 loc_Exact) as [mrs2 e2].
  destruct H2 as [He2 Hm2]. rewrite fexp_eq in He2.
  assert (Hp : 0 < 2 ^ (B - e1)) by (apply Z.pow_pos_nonneg; lia).
  assert (Hd1 : Zdigits2 m1 <= B - e1 + 1).
  { apply Zdigits2_upper; [lia | lia |].
    rewrite Z.pow_add_r, Z.pow_1_r by lia. lia. }
  assert (He2B : e2 <= B) by lia.
  assert (Hle2 : 0 <= e2 - e1) by lia.
  assert (Hp2 : 0 < 2 ^ (e2 - e1)) by (apply Z.pow_pos_nonneg; lia).
  assert (Hsplit2 : 2 ^ (B - e1) = 2 ^ (e2 - e1) * 2 ^ (B - e2))
    by (rewrite <- Z.pow_add_r by lia; f_equal; lia).
  assert (Hm2le : shr_m mrs2 <= 2 ^ (B - e2)).
  { rewrite Hm2. apply Z.div_le_upper_bound; [exact Hp2 |].
    rewrite <- Hsplit2. lia. }
  assert (Hnn2 : 0 <= shr_m mrs2)
    by (rewrite Hm2; apply Z.div_pos; lia).
  destruct (shr_m mrs2) as [| p | p] eqn:E.
  - left. reflexivity.
  - right.
    destruct (Z.leb_spec e2 (emax - prec)) as [_ | Hbad];
      [| unfold emax, prec, PyFloat.emax, PyFloat.prec in Hbad; lia].
    exists p, e2. split; [reflexivity | split; assumption].
  - lia.
Qed.

(** With at least 53 digits below [2^B] kept in the significand, rounding
    adds at most [2^(B-53)]. *)
Lemma binary_round_aux_error (s : bool) (m e : Z) (l : location) (B : Z) :
  0 <= m -> Zdigits2 m + e <= B -> e <= B - 53 -> -1021 <= B <= 971 ->
  binary_round_aux prec emax s m e l = S754_zero s \/
  exists m' e',
    binary_round_aux prec emax s m e l = S754_finite s m' e' /\
    e <= e' /\ Zpos m' * 2 ^ (e' - e) <= m + 2 ^ (B - 53 - e).
Proof.
  intros Hm Hd He HB. unfold binary_round_aux.
  pose proof (shr_fexp_spec m e l Hm) as H1.
  destruct (shr_fexp prec emax m e l) as [mrs1 e1].
  destruct H1 as [He1 Hm1].
  rewrite fexp_eq in He1.
  pose proof (Zdigits2_nonneg m) as Hdm.
  assert (Hle1 : 0 <= e1 - e) by lia.
  assert (He1B : e1 <= B - 53) by lia.
  assert (Hp1 : 0 < 2 ^ (e1 - e)) by (apply Z.pow_pos_nonneg; lia).
  assert (Hnn1 : 0 <= shr_m mrs1)
    by (rewrite Hm1; apply Z.div_pos; lia).
  assert (Hfloor1 : shr_m mrs1 * 2 ^ (e1 - e) <= m).
  { rewrite Hm1. rewrite Z.mul_comm. apply Z.mul_div_le. exact Hp1. }
  pose proof (round_nearest_even_bounds (shr_m mrs1)
                (loc_of_shr_record mrs1)) as Hrne.
  set (m1 := round_nearest_even (shr_m mrs1) (loc_of_shr_record mrs1)) in *.
  assert (Hmono : 2 ^ (e1 - e) <= 2 ^ (B - 53 - e))
    by (apply Z.pow_le_mono_r; lia).
  assert (Hm1b : m1 * 2 ^ (e1 - e) <= m + 2 ^ (B - 53 - e)) by nia.
  pose proof (shr_fexp_spec m1 e1 loc_Exact ltac:(lia)) as H2.
  destruct (shr_fexp prec emax m1 e1 loc_Exact) as [mrs2 e2].
  destruct H2 as [He2 Hm2]. rewrite fexp_eq in He2.
  assert (Hle2 : 0 <= e2 - e1) by lia.
  assert (Hp2 : 0 < 2 ^ (e2 - e1)) by (apply Z.pow_pos_nonneg; lia).
  assert (Hfloor2 : shr_m mrs2 * 2 ^ (e2 - e1) <= m1).
  { rewrite Hm2. rewrite Z.mul_comm. apply Z.mul_div_le. exact Hp2. }
  assert (Hsplit : 2 ^ (e2 - e) = 2 ^ (e2 - e1) * 2 ^ (e1 - e))
    by (rewrite <- Z.pow_add_r by lia; f_equal; lia).
  assert (Hnn2 : 0 <= shr_m mrs2)
    by (rewrite Hm2; apply Z.div_pos; lia).
  assert (Hfinal : shr_m mrs2 * 2 ^ (e2 - e) <= m + 2 ^ (B - 53 - e)).
  { rewrite Hsplit. nia. }
  (* the exponent of the result *)
  assert (Hmlt : m < 2 ^ (B - e)).
  { eapply Z.lt_le_trans; [apply Zdigits2_lt; exact Hm |].
    apply Z.pow_le_mono_r; lia. }
  assert (Hd1 : Zdigits2 m1 + e1 <= B + 1).
  { assert (Hs1 : 2 ^ (B - e) = 2 ^ (e1 - e) * 2 ^ (B - e1))
      by (rewrite <- Z.pow_add_r by lia; f_equal; lia).
    assert (Hm1lt : shr_m mrs1 < 2 ^ (B - e1)).
    { rewrite Hm1. apply Z.div_lt_upper_bound; [exact Hp1 |].
      rewrite <- Hs1. exact Hmlt. }
    assert (Zdigits2 m1 <= B - e1 + 1); [| lia].
    apply Zdigits2_upper; [lia | lia |].
    rewrite Z.pow_add_r, Z.pow_1_r by lia. lia. }
  destruct (shr_m mrs2) as [| p | p] eqn:E.
  - left. reflexivity.
  - right.
    destruct (Z.leb_spec e2 (emax - prec)) as [_ | Hbad];
      [| unfold emax, prec, PyFloat.emax, PyFloat.prec in Hbad; lia].
    exists p, e2. split; [reflexivity |]. split; [lia | exact Hfinal].
  - lia.
Qed.
Lemma SFdiv_core_int_bounds (pa pb : positive) :
  let '(q, e', _) := SFdiv_core_binary prec emax (Zpos pa) 0 (Zpos pb) 0 in
  0 <= q /\ Zdigits2 q + e' <= Zdigits2 (Zpos pa) /\ e' <= 0.
Proof.
  unfold SFdiv_core_binary.
  set (e' := Z.min (fexp prec emax
                      (Zdigits2 (Zpos pa) + 0 - (Zdigits2 (Zpos pb) + 0)))
                   (0 - 0)).
  assert (He' : e' <= 0) by (unfold e'; lia).
  set (m' := match 0 - 0 - e' with
             | Z0 => Zpos pa
             | Zpos _ => Z.shiftl (Zpos pa) (0 - 0 - e')
             | Zneg _ => 0
             end).
  assert (Hm' : m' = Zpos pa * 2 ^ (- e')).
  { unfold m'. destruct (0 - 0 - e') as [| s | s] eqn:E; [| | lia].
    - replace (- e') with 0 by lia. lia.
    - rewrite Z.shiftl_mul_pow2 by lia. f_equal. f_equal. lia. }
  assert (Hpow : 0 < 2 ^ (- e')) by (apply Z.pow_pos_nonneg; lia).
  destruct (Z.div_eucl m' (Zpos pb)) as [q r] eqn:E.
  assert (Hq : q = m' / Zpos pb) by (unfold Z.div; rewrite E; reflexivity).
  assert (Hq0 : 0 <= q) by (rewrite Hq; apply Z.div_pos; nia).
  assert (Hqle : q <= m').
  { rewrite Hq. apply Z.div_le_upper_bound; [lia | nia]. }
  split; [exact Hq0 |]. split; [| exact He'].
  pose proof (Zdigits2_le_mono q m' ltac:(lia)) as H1.
  pose proof (Zdigits2_mul_pow2 (Zpos pa) (- e') ltac:(lia) ltac:(lia))
    as H2.
  rewrite <- Hm' in H2. lia.
Qed.

Lemma int_truediv_bounded (a b B : Z) :
  0 <= a -> 0 < b -> Zdigits2 a <= B -> 0 <= B <= 971 ->
  exists q, PyFloat.int_truediv a b = Returned q /\
            nonneg_below (B + 1) q.
Proof.
  intros Ha Hb Hd HB. unfold PyFloat.int_truediv.
  destruct (Z.eqb_spec b 0) as [? | _]; [lia |].
  destruct b as [| pb | pb]; try lia.
  destruct a as [| pa | pa]; try lia.
  - exists (S754_zero false). split; [reflexivity | left; reflexivity].
  - cbn [PyFloat.exact_of_int SFdiv xorb].
    pose proof (SFdiv_core_int_bounds pa pb) as Hcore.
    fold prec emax.
    destruct (SFdiv_core_binary prec emax (Zpos pa) 0 (Zpos pb) 0)
      as [[q e'] l].
    destruct Hcore as (Hq0 & Hqd & He').
    destruct (binary_round_aux_bounded false q e' l B)
      as [E | (m & e & E & Hme)]; try lia.
    + rewrite E. eexists. split; [reflexivity | left; reflexivity].
    + rewrite E. eexists. split; [reflexivity |].
      right. exists m, e. split; [reflexivity | exact Hme].
Qed.

Lemma scaled_below_one (m e e' : Z) :
  1 <= m -> e <= e' -> e <= 0 -> m * 2 ^ (e' - e) < 2 ^ (- e) ->
  Zdigits2 m + e' <= 0.
Proof.
  intros Hm Hee He Hlt.
  assert (Hp : 0 < 2 ^ (e' - e)) by (apply Z.pow_pos_nonneg; lia).
  assert (Hneg : e' < 0).
  { assert (H : 2 ^ (e' - e) < 2 ^ (- e)) by nia.
    apply Z.pow_lt_mono_r_iff in H; lia. }
  assert (Hsplit : 2 ^ (- e) = 2 ^ (- e') * 2 ^ (e' - e))
    by (rewrite <- Z.pow_add_r by lia; f_equal; lia).
  rewrite Hsplit in Hlt.
  apply Z.mul_lt_mono_pos_r in Hlt; [| exact Hp].
  pose proof (Zdigits2_upper m (- e') ltac:(lia) ltac:(lia) Hlt). lia.
Qed.

Lemma SFdiv_core_below_one (pa pb : positive) :
  (pa < pb)%positive ->
  let '(q, e, _) := SFdiv_core_binary prec emax (Zpos pa) 0 (Zpos pb) 0 in
  0 <= q /\ e <= -53 /\ q * Zpos pb <= Zpos pa * 2 ^ (- e).
Proof.
  intros Hlt. unfold SFdiv_core_binary.
  pose proof (Zdigits2_le_mono (Zpos pa) (Zpos pb) ltac:(lia)) as Hdig.
  set (e := Z.min (fexp prec emax
                     (Zdigits2 (Zpos pa) + 0 - (Zdigits2 (Zpos pb) + 0)))
                  (0 - 0)).
  assert (He : e <= -53) by (unfold e; rewrite fexp_eq; lia).
  set (m' := match 0 - 0 - e with
             | Z0 => Zpos pa
             | Zpos _ => Z.shiftl (Zpos pa) (0 - 0 - e)
             | Zneg _ => 0
             end).
  assert (Hm' : m' = Zpos pa * 2 ^ (- e)).
  { unfold m'. destruct (0 - 0 - e) as [| s | s] eqn:E; [lia | | lia].
    rewrite Z.shiftl_mul_pow2 by lia. f_equal. f_equal. lia. }
  assert (Hpow : 0 < 2 ^ (- e)) by (apply Z.pow_pos_nonneg; lia).
  destruct (Z.div_eucl m' (Zpos pb)) as [q r] eqn:E.
  assert (Hq : q = m' / Zpos pb) by (unfold Z.div; rewrite E; reflexivity).
  split; [rewrite Hq; apply Z.div_pos; nia |]. split; [exact He |].
  rewrite Hq, <- Hm', Z.mul_comm. apply Z.mul_div_le. lia.
Qed.

(** A quotient of two positive integers [a < b], [a < 2^52], rounds to a
    number below one. *)
Lemma int_truediv_below_one (a b : Z) :
  0 < a < 2 ^ 52 -> a < b ->
  exists q, PyFloat.int_truediv a b = Returned q /\ nonneg_below 0 q.
Proof.
  intros Ha Hab. unfold PyFloat.int_truediv.
  destruct (Z.eqb_spec b 0) as [? | _]; [lia |].
  destruct a as [| pa | pa]; try lia. destruct b as [| pb | pb]; try lia.
  cbn [PyFloat.exact_of_int SFdiv xorb]. fold prec emax.
  pose proof (SFdiv_core_below_one pa pb ltac:(lia)) as Hcore.
  destruct (SFdiv_core_binary prec emax (Zpos pa) 0 (Zpos pb) 0)
    as [[m e] l].
  destruct Hcore as (Hm0 & He & Hmb).
  assert (Hpow : 2 ^ (- e) = 2 ^ 53 * 2 ^ (- 53 - e))
    by (rewrite <- Z.pow_add_r by lia; f_equal; lia).
  assert (HP : 0 < 2 ^ (- 53 - e)) by (apply Z.pow_pos_nonneg; lia).
  set (P := 2 ^ (- 53 - e)) in *.
  assert (Hroom : m + P < 2 ^ 53 * P).
  { rewrite Hpow in Hmb.
    destruct (Z_lt_ge_dec (m + P) (2 ^ 53 * P)) as [? | Hge];
      [assumption | exfalso].
    assert (H1 : (2 ^ 53 - 1) * P * (Zpos pa + 1) <= m * Zpos pb) by nia.
    assert (H2 : Zpos pa * (2 ^ 53 * P)
                 < (2 ^ 53 - 1) * P * (Zpos pa + 1)) by nia.
    lia. }
  assert (Hmlt : m < 2 ^ (- e)) by (rewrite Hpow; lia).
  pose proof (Zdigits2_upper m (- e) Hm0 ltac:(lia) Hmlt) as Hdig.
  destruct (binary_round_aux_error false m e l 0)
    as [E | (mq & eq & E & Hee & Hbound)]; try lia.
  - rewrite E. eexists. split; [reflexivity | left; reflexivity].
  - rewrite E. eexists. split; [reflexivity |].
    right. exists mq, eq. split; [reflexivity |].
    apply (scaled_below_one (Zpos mq) e eq); try lia.
    rewrite Hpow. replace (0 - 53 - e) with (- 53 - e) in Hbound by lia.
    fold P in Hbound. lia.
Qed.

Lemma SFsqrt_core_halves (m : positive) (e B : Z) :
  Zdigits2 (Zpos m) + e <= B ->
  let '(q, e', _) := SFsqrt_core_binary prec emax (Zpos m) e in
  0 <= q /\ 2 * (Zdigits2 q + e') <= B + 1 /\ 2 * e' <= B - 1.
Proof.
  intros Hd. unfold SFsqrt_core_binary.
  pose proof (Zdigits2_pos_bounds m) as [_ Hlt].
  assert (Hd1 : 1 <= Zdigits2 (Zpos m)) by (simpl; lia).
  set (d := Zdigits2 (Zpos m)) in *.
  set (e' := Z.min (fexp prec emax (Z.div2 (d + e + 1))) (Z.div2 e)).
  assert (He' : 2 * e' <= e).
  { unfold e'. rewrite (Z.div2_div e).
    pose proof (Z.le_min_r (fexp prec emax (Z.div2 (d + e + 1))) (e / 2)).
    Z.div_mod_to_equations. lia. }
  set (s := e - 2 * e').
  set (m' := match s with
             | Z0 => Zpos m
             | Zpos _ => Z.shiftl (Zpos m) s
             | Zneg _ => 0
             end).
  assert (Hm' : m' = Zpos m * 2 ^ s).
  { unfold m'. destruct s as [| p | p] eqn:E; [| | unfold s in E; lia].
    - lia.
    - rewrite Z.shiftl_mul_pow2 by lia. reflexivity. }
  assert (Hs : 0 <= s) by (unfold s; lia).
  assert (Hpow : 0 < 2 ^ s) by (apply Z.pow_pos_nonneg; lia).
  pose proof (Z.sqrtrem_sqrt m') as Hsq.
  destruct (Z.sqrtrem m') as [q r]. cbn [fst] in Hsq. subst q.
  pose proof (Z.sqrt_spec m' ltac:(nia)) as Hspec. cbv zeta in Hspec.
  pose proof (Z.sqrt_nonneg m') as Hq0.
  set (h := (d + s + 1) / 2).
  assert (Hh : d + s <= 2 * h /\ 2 * h <= d + s + 1)
    by (unfold h; Z.div_mod_to_equations; lia).
  assert (Hh0 : 0 <= h) by lia.
  assert (Hm'lt : m' < 2 ^ h * 2 ^ h).
  { rewrite <- Z.pow_add_r by lia.
    eapply Z.lt_le_trans with (2 ^ (d + s)).
    - rewrite Hm', Z.pow_add_r by lia. nia.
    - apply Z.pow_le_mono_r; lia. }
  assert (Hph : 0 < 2 ^ h) by (apply Z.pow_pos_nonneg; lia).
  assert (Hqlt : Z.sqrt m' < 2 ^ h) by nia.
  pose proof (Zdigits2_upper _ _ Hq0 Hh0 Hqlt) as Hdq.
  split; [exact Hq0 |]. unfold s in Hh. split; lia.
Qed.

Lemma math_sqrt_bounded (x : PyFloat.float) (B : Z) :
  nonneg_below B x -> 0 <= B <= 970 ->
  exists y, PyFloat.math_sqrt x = Returned y /\ nonneg_below (B + 2) y.
Proof.
  intros [-> | (m & e & -> & Hme)] HB.
  - exists (S754_zero false). split; [reflexivity | left; reflexivity].
  - cbn [PyFloat.math_sqrt SFsqrt]. fold prec emax.
    pose proof (SFsqrt_core_halves m e B Hme) as Hcore.
    destruct (SFsqrt_core_binary prec emax (Zpos m) e) as [[q e'] l].
    destruct Hcore as (Hq0 & Hqd & He').
    destruct (binary_round_aux_bounded false q e' l (B + 1))
      as [E | (m' & e2 & E & Hme')]; try lia.
    + rewrite E. eexists. split; [reflexivity | left; reflexivity].
    + rewrite E. eexists. split; [reflexivity |].
      right. exists m', e2. split; [reflexivity | lia].
Qed.

(** The square root of a number below one rounds to at most one. *)
Lemma math_sqrt_at_most_one (x : PyFloat.float) :
  nonneg_below 0 x ->
  exists y, PyFloat.math_sqrt x = Returned y /\
            (y = S754_zero false \/
             exists m e, y = S754_finite false m e /\ e <= 0 /\
                         Zpos m <= 2 ^ (- e)).
Proof.
  intros [-> | (m & e & -> & Hme)].
  - exists (S754_zero false). split; [reflexivity | left; reflexivity].
  - cbn [PyFloat.math_sqrt SFsqrt]. fold prec emax.
    pose proof (SFsqrt_core_halves m e 0 Hme) as Hcore.
    destruct (SFsqrt_core_binary prec emax (Zpos m) e) as [[q e'] l].
    destruct Hcore as (Hq0 & Hqd & He').
    destruct (binary_round_aux_cap false q e' l 0)
      as [E | (m' & e2 & E & He2 & Hcap)]; try lia.
    + rewrite E. eexists. split; [reflexivity | left; reflexivity].
    + rewrite E. eexists. split; [reflexivity |].
      right. exists m', e2. repeat split; [exact He2 | exact Hcap].
Qed.

(** [pi/4] times a number that is at most one rounds to a number below
    one. *)
Lemma quarter_pi_mul_below_one (y : PyFloat.float) :
  (y = S754_zero false \/
   exists m e, y = S754_finite false m e /\ e <= 0 /\ Zpos m <= 2 ^ (- e)) ->
  nonneg_below 0
    (PyFloat.float_mul (S754_finite false 7074237752028440 (-53)) y).
Proof.
  intros [-> | (m & e & -> & He & Hm)].
  - left. reflexivity.
  - unfold PyFloat.float_mul. cbn [SFmul xorb]. fold prec emax.
    change (Zpos (7074237752028440 * m)) with (7074237752028440 * Zpos m).
    assert (HP : 0 < 2 ^ (- e)) by (apply Z.pow_pos_nonneg; lia).
    assert (Hpow : 2 ^ (53 - e) = 2 ^ 53 * 2 ^ (- e))
      by (rewrite <- Z.pow_add_r by lia; f_equal; lia).
    assert (Hprod : 7074237752028440 * Zpos m < 2 ^ (53 - e))
      by (rewrite Hpow; nia).
    pose proof (Zdigits2_upper (7074237752028440 * Zpos m) (53 - e)
                  ltac:(lia) ltac:(lia) Hprod) as Hdig.
    destruct (binary_round_aux_error false (7074237752028440 * Zpos m)
                (-53 + e) loc_Exact 0)
      as [E | (mp & ep & E & Hee & Hbound)]; try lia.
    + rewrite E. left. reflexivity.
    + rewrite E. right. exists mp, ep. split; [reflexivity |].
      apply (scaled_below_one (Zpos mp) (-53 + e) ep); try lia.
      replace (0 - 53 - (-53 + e)) with (- e) in Hbound by lia.
      replace (- (-53 + e)) with (53 - e) by lia.
      rewrite Hpow. nia.
Qed.

Lemma math_floor_below_one (x : PyFloat.float) :
  nonneg_below 0 x -> PyFloat.math_floor x = Returned 0.
Proof.
  intros [-> | (m & e & -> & Hme)]; [reflexivity |].
  cbn [PyFloat.math_floor cond_Zopp]. f_equal.
  assert (Hd1 : 1 <= Zdigits2 (Zpos m)) by (simpl; lia).
  rewrite Z.shiftl_div_pow2 by lia.
  apply Z.div_small. split; [lia |].
  eapply Z.lt_le_trans; [apply Zdigits2_lt; lia |].
  apply Z.pow_le_mono_r; lia.
Qed.

Lemma float_mul_bounded (x y : PyFloat.float) (mx : positive)
      (ex Bx By : Z) :
  x = S754_finite false mx ex -> Zdigits2 (Zpos mx) + ex <= Bx ->
  nonneg_below By y -> 0 <= Bx + By <= 971 ->
  nonneg_below (Bx + By + 1) (PyFloat.float_mul x y).
Proof.
  intros -> Hx [-> | (my & ey & -> & Hy)] HB.
  - left. reflexivity.
  - unfold PyFloat.float_mul. cbn [SFmul xorb]. fold prec emax.
    pose proof (Zdigits2_mul (Zpos mx) (Zpos my) ltac:(lia) ltac:(lia))
      as Hmul.
    assert (H1 : 1 <= Zdigits2 (Zpos mx)) by (simpl; lia).
    assert (H2 : 1 <= Zdigits2 (Zpos my)) by (simpl; lia).
    change (Zpos mx * Zpos my) with (Zpos (mx * my)) in Hmul.
    destruct (binary_round_aux_bounded false (Zpos (mx * my)) (ex + ey)
                loc_Exact (Bx + By))
      as [E | (m' & e2 & E & Hme')]; try lia.
    + rewrite E. left. reflexivity.
    + rewrite E. right. exists m', e2. split; [reflexivity | lia].
Qed.

Lemma math_floor_bounded (x : PyFloat.float) (B : Z) :
  nonneg_below B x ->
  exists k, PyFloat.math_floor x = Returned k /\ 0 <= k.
Proof.
  intros [-> | (m & e & -> & _)].
  - exists 0. split; [reflexivity | lia].
  - eexists. split; [reflexivity |].
    cbn [cond_Zopp]. apply Z.shiftl_nonneg. lia.
Qed.
End FloatBounds.

(** ** The iteration count is always defined *)

Lemma quarter_pi_value :
  PyFloat.float_of_int 4 = Returned (S754_finite false 4503599627370496 (-50))
  /\ PyFloat.float_truediv PyFloat.math_pi
       (S754_finite false 4503599627370496 (-50))
     = Returned (S754_finite false 7074237752028440 (-53)).
Proof. split; vm_compute; reflexivity. Qed.

(** For a size below [2^11] and a positive number of marked items the
    binary64 evaluation of [floor(pi/4 * sqrt(size / marked))] raises
    nothing and yields a non-negative integer. *)
Lemma grover_iterations_total (size marked : Z) :
  0 < size < 2 ^ 11 -> 0 < marked ->
  exists k, grover_iterations size marked = Returned k /\ 0 <= k.
Proof.
  intros Hsize Hmarked. unfold grover_iterations.
  destruct quarter_pi_value as [E4 Epi]. rewrite E4. cbn [bind].
  rewrite Epi. cbn [bind].
  assert (Hd : Zdigits2 size <= 11)
    by (apply Zdigits2_upper; lia).
  destruct (int_truediv_bounded size marked 11) as (q & Eq & Hq); try lia.
  rewrite Eq. cbn [bind].
  destruct (math_sqrt_bounded q 12 Hq) as (root & Er & Hr); [lia |].
  rewrite Er. cbn [bind].
  eapply math_floor_bounded.
  eapply (float_mul_bounded _ root 7074237752028440 (-53) 0 14);
    [reflexivity | simpl; lia | exact Hr | lia].
Qed.

(** With more marked items than the space has elements the count is 0. *)
Lemma grover_iterations_zero (size marked : Z) :
  0 < size < 2 ^ 11 -> size < marked ->
  grover_iterations size marked = Returned 0.
Proof.
  intros Hsize Hmarked. unfold grover_iterations.
  destruct quarter_pi_value as [E4 Epi]. rewrite E4. cbn [bind].
  rewrite Epi. cbn [bind].
  destruct (int_truediv_below_one size marked) as (q & Eq & Hq);
    [lia | exact Hmarked |].
  rewrite Eq. cbn [bind].
  destruct (math_sqrt_at_most_one q Hq) as (root & Er & Hr).
  rewrite Er. cbn [bind].
  apply math_floor_below_one. apply quarter_pi_mul_below_one. exact Hr.
Qed.

Lemma iterations_exact_table :
  forallb (fun n => forallb (iterations_exact (2 ^ n)) (py_range 1 (2 ^ n + 1)))
          (py_range 0 11) = true.
Proof. vm_compute. reflexivity. Qed.

Lemma in_py_range (lo hi x : Z) : lo <= x < hi -> In x (py_range lo hi).
Proof.
  intros H. unfold py_range. apply in_map_iff.
  exists (Z.to_nat (x - lo)). split; [lia |].
  apply in_seq. lia.
Qed.

Lemma in_py_range_inv (lo hi x : Z) : In x (py_range lo hi) -> lo <= x < hi.
Proof.
  unfold py_range. rewrite in_map_iff. intros (k & <- & Hk).
  apply in_seq in Hk. lia.
Qed.

(** The binary64 iteration count is the floor of the real-valued formula,
    for every positive number of marked items. *)
Lemma grover_iterations_exact (n marked : Z) :
  0 <= n <= 10 -> 1 <= marked ->
  iterations_exact (2 ^ n) marked = true.
Proof.
  intros Hn Hm.
  destruct (Z_le_gt_dec marked (2 ^ n)) as [Hle | Hgt].
  - pose proof iterations_exact_table as T.
    rewrite forallb_forall in T.
    specialize (T n (in_py_range 0 11 n ltac:(lia))).
    rewrite forallb_forall in T.
    apply T. apply in_py_range. lia.
  - assert (Hsize : 0 < 2 ^ n < 2 ^ 11).
    { split; [apply Z.pow_pos_nonneg; lia |].
      apply Z.pow_lt_mono_r; lia. }
    unfold iterations_exact.
    rewrite grover_iterations_zero by lia.
    unfold is_exact_floor. cbv zeta.
    change (10 ^ 15) with 1000000000000000.
    rewrite !andb_true_iff, !Z.leb_le, Z.ltb_lt. lia.
Qed.

(** ** The power-of-two test of the search *)

Lemma land_pred_pow2 (k : Z) : 0 <= k -> Z.land (2 ^ k) (2 ^ k - 1) = 0.
Proof.
  intros Hk. replace (2 ^ k - 1) with (Z.ones k)
    by (rewrite Z.ones_equiv; lia).
  rewrite Z.land_ones by exact Hk.
  apply Z.mod_same. apply Z.pow_nonzero; lia.
Qed.

(** [N != 0 and N & (N - 1) == 0] holds exactly for the powers of two. *)
Lemma power_of_two_test (N : Z) :
  (N =? 0) || negb (Z.land N (N - 1) =? 0) = false <-> is_power_of_two N.
Proof.
  rewrite orb_false_iff, negb_false_iff, Z.eqb_neq, Z.eqb_eq.
  split.
  - intros [Hnz Hland].
    destruct (Z.lt_trichotomy N 0) as [Hneg | [? | Hpos]]; [| lia |].
    + assert (H : Z.land N (N - 1) < 0) by (apply Z.land_neg; lia). lia.
    + pose proof (Z.log2_spec N Hpos) as [Hlo Hhi].
      pose proof (Z.log2_nonneg N) as Hk.
      exists (Z.log2 N). split; [exact Hk |].
      destruct (Z.eq_dec N (2 ^ Z.log2 N)) as [E | Hne]; [exact E |].
      exfalso.
      assert (Hlog : Z.log2 (N - 1) = Z.log2 N)
        by (apply Z.log2_unique; lia).
      assert (Hb1 : Z.testbit N (Z.log2 N) = true)
        by (apply Z.bit_log2; exact Hpos).
      assert (Hb2 : Z.testbit (N - 1) (Z.log2 N) = true)
        by (rewrite <- Hlog; apply Z.bit_log2; lia).
      assert (Hb : Z.testbit (Z.land N (N - 1)) (Z.log2 N) = true)
        by (rewrite Z.land_spec, Hb1, Hb2; reflexivity).
      rewrite Hland, Z.bits_0 in Hb. discriminate.
  - intros (k & Hk & ->). split.
    + apply Z.pow_nonzero; lia.
    + apply land_pred_pow2. exact Hk.
Qed.

(** C2, as the code has it: when [search_space_size] is not a power of
    two, [run] returns the error result 'Search space must be a power of
    2' at once, having submitted no job to the backend. *)
Theorem grover_rejects_non_power_of_two
        (backend_run : QuantumCircuit -> Z -> counts)
        (marked_items : list Z) (search_space_size : Z) :
  ~ is_power_of_two search_space_size ->
  Grover.run backend_run marked_items search_space_size
  = (Returned (Grover.Error "Search space must be a power of 2"), []).
Proof.
  intros Hnot. unfold Grover.run.
  destruct ((search_space_size =? 0)
            || negb (Z.land search_space_size (search_space_size - 1) =? 0))
    eqn:E; [reflexivity |].
  exfalso. apply Hnot. apply power_of_two_test. exact E.
Qed.

Lemma not_power_of_two_12 : ~ is_power_of_two 12.
Proof.
  intros H. apply power_of_two_test in H. vm_compute in H. discriminate.
Qed.

Lemma grover_rejects_non_power_of_two_witness :
  Grover.run (fun _ shots => [("0101", shots)]) [5] 12
  = (Returned (Grover.Error "Search space must be a power of 2"), []).
Proof.
  apply (grover_rejects_non_power_of_two
           (fun _ shots => [("0101", shots)]) [5] 12).
  exact not_power_of_two_12.
Defined.

(** C2 as stated fails: an empty [marked_items] raises
    [ZeroDivisionError] instead of returning an error result, and a marked
    index outside [0, search_space_size) is not rejected: the search runs
    on the backend and returns an ordinary result. *)
Lemma grover_marked_items_not_validated :
  let backend_run := fun (_ : QuantumCircuit) (shots : Z) =>
                       [("0000", shots)] in
  is_power_of_two 16 /\
  Grover.run backend_run [] 16 = (Raised ZeroDivisionError, []) /\
  match Grover.run backend_run [16] 16 with
  | (Returned (Grover.Result r), [(_, 1000)]) =>
      Grover.marked_items r = [16] /\ Grover.iterations r = 3
  | _ => False
  end /\
  match Grover.run backend_run [-1] 16 with
  | (Returned (Grover.Result r), [(_, 1000)]) =>
      Grover.marked_items r = [-1]
  | _ => False
  end.
Proof.
  split; [exists 4; split; [lia | reflexivity] |].
  split; [vm_compute; reflexivity |].
  split; vm_compute; repeat split; reflexivity.
Qed.

(** ** Reading a histogram *)

Lemma int_digits2_total (s : string) :
  forall acc,
    0 <= acc ->
    forallb (fun c => Ascii.eqb c "0" || Ascii.eqb c "1")
            (list_ascii_of_string s) = true ->
    exists v, int_digits2 acc s = Returned v /\ 0 <= v.
Proof.
  induction s as [| c s IH]; intros acc Hacc Hbits.
  - exists acc. split; [reflexivity | exact Hacc].
  - cbn [list_ascii_of_string forallb] in Hbits.
    apply andb_true_iff in Hbits. destruct Hbits as [Hc Hs].
    cbn [int_digits2].
    destruct (Ascii.eqb c "0"); [apply IH; [lia | exact Hs] |].
    destruct (Ascii.eqb c "1"); [apply IH; [lia | exact Hs] |].
    discriminate.
Qed.

Lemma int_base2_total (s : string) :
  is_bitstring s = true -> exists v, int_base2 s = Returned v /\ 0 <= v.
Proof.
  destruct s as [| c s]; [discriminate |].
  intros H. unfold int_base2. apply int_digits2_total; [lia | exact H].
Qed.

Lemma histogram_ok_inv (shots : Z) (c : counts) :
  histogram_ok shots c = true ->
  forallb (fun kv : string * Z => is_bitstring (fst kv) && (0 <=? snd kv)) c
  = true /\ total_count c = shots.
Proof.
  unfold histogram_ok. rewrite andb_true_iff, Z.eqb_eq. tauto.
Qed.

Lemma analyze_total (marked_items : list Z) (items : counts) :
  forall found_items success_count,
    forallb (fun kv : string * Z => is_bitstring (fst kv) && (0 <=? snd kv))
            items = true ->
    exists found' count',
      Grover.analyze items marked_items found_items success_count
      = Returned (found', count') /\
      success_count <= count' <= success_count + total_count items.
Proof.
  induction items as [| [bitstring count] rest IH];
    intros found_items success_count Hok.
  - exists found_items, success_count. split; [reflexivity | simpl; lia].
  - cbn [forallb fst snd] in Hok.
    apply andb_true_iff in Hok. destruct Hok as [Hkv Hrest].
    apply andb_true_iff in Hkv. destruct Hkv as [Hbits Hcount].
    apply Z.leb_le in Hcount.
    destruct (int_base2_total bitstring Hbits) as (v & Ev & _).
    cbn [Grover.analyze]. rewrite Ev. cbn [bind total_count].
    destruct (existsb (Z.eqb v) marked_items).
    + destruct (IH (found_items ++ [v]) (success_count + count) Hrest)
        as (f & c & E & Hc).
      exists f, c. split; [exact E | lia].
    + destruct (IH found_items success_count Hrest) as (f & c & E & Hc).
      exists f, c. split; [exact E | lia].
Qed.

(** ** Building the search circuit *)

Lemma py_range_nil (lo hi : Z) : hi <= lo -> py_range lo hi = [].
Proof.
  intros H. unfold py_range. replace (Z.to_nat (hi - lo)) with 0%nat by lia.
  reflexivity.
Qed.

Lemma py_range_cons (lo hi : Z) :
  lo < hi -> py_range lo hi = lo :: py_range (lo + 1) hi.
Proof.
  intros H. unfold py_range.
  replace (Z.to_nat (hi - lo)) with (S (Z.to_nat (hi - (lo + 1)))) by lia.
  cbn [seq map]. f_equal; [lia |].
  rewrite <- seq_shift, map_map. apply map_ext. intros k. lia.
Qed.

Lemma py_range_split (lo mid hi : Z) :
  lo <= mid <= hi -> py_range lo hi = py_range lo mid ++ py_range mid hi.
Proof.
  intros H. unfold py_range.
  replace (Z.to_nat (hi - lo))
    with (Z.to_nat (mid - lo) + Z.to_nat (hi - mid))%nat by lia.
  rewrite seq_app, map_app. f_equal. cbn [Nat.add].
  rewrite <- (Nat.add_0_l (Z.to_nat (mid - lo))).
  generalize 0%nat.
  induction (Z.to_nat (hi - mid)) as [| n IH]; intros s; [reflexivity |].
  cbn [seq map]. f_equal; [lia |].
  rewrite <- Nat.add_succ_l. apply IH.
Qed.

Lemma py_range_snoc (lo hi : Z) :
  lo <= hi -> py_range lo (hi + 1) = py_range lo hi ++ [hi].
Proof.
  intros H. rewrite (py_range_split lo hi (hi + 1)) by lia. f_equal.
  rewrite py_range_cons by lia. rewrite py_range_nil by lia. reflexivity.
Qed.

Lemma list_ascii_of_string_app (s1 s2 : string) :
  list_ascii_of_string (s1 ++ s2)
  = list_ascii_of_string s1 ++ list_ascii_of_string s2.
Proof.
  induction s1 as [| c s1 IH]; [reflexivity |].
  cbn [append list_ascii_of_string app]. rewrite IH. reflexivity.
Qed.

Lemma list_ascii_of_zeros (k : nat) :
  list_ascii_of_string (zeros k) = repeat "0"%char k.
Proof.
  induction k as [| k IH]; [reflexivity |].
  cbn [zeros list_ascii_of_string repeat]. rewrite IH. reflexivity.
Qed.

Lemma rev_repeat_char (c : ascii) (k : nat) : rev (repeat c k) = repeat c k.
Proof.
  induction k as [| k IH]; [reflexivity |].
  cbn [repeat rev]. rewrite IH.
  clear IH. induction k as [| k IH]; [reflexivity |].
  cbn [repeat app]. rewrite IH. reflexivity.
Qed.

Lemma length_bin_of_pos (p : positive) :
  String.length (bin_of_pos p) = Pos.to_nat (digits2_pos p).
Proof.
  assert (Happ : forall s1 s2,
             String.length (s1 ++ s2)
             = (String.length s1 + String.length s2)%nat).
  { intros s1 s2. induction s1 as [| c s1 IH]; [reflexivity |].
    cbn [append String.length]. rewrite IH. reflexivity. }
  induction p as [p IH | p IH |]; cbn [bin_of_pos digits2_pos];
    [| | reflexivity].
  - rewrite Happ, IH. cbn [String.length]. lia.
  - rewrite Happ, IH. cbn [String.length]. lia.
Qed.

Lemma lsb_chars_zero (k : nat) : lsb_chars k 0 = repeat "0"%char k.
Proof.
  induction k as [| k IH]; [reflexivity |].
  cbn [lsb_chars repeat Z.odd Z.div2]. rewrite IH. reflexivity.
Qed.

Lemma lsb_chars_pos (p : positive) :
  forall k,
    (Pos.to_nat (digits2_pos p) <= k)%nat ->
    rev (list_ascii_of_string (bin_of_pos p))
    ++ repeat "0"%char (k - Pos.to_nat (digits2_pos p))
    = lsb_chars k (Zpos p).
Proof.
  induction p as [p IH | p IH |]; intros k Hk;
    cbn [bin_of_pos digits2_pos] in *.
  - destruct k as [| k]; [lia |].
    rewrite list_ascii_of_string_app, rev_app_distr.
    cbn [list_ascii_of_string rev app lsb_chars Z.odd Z.div2 Pos.div2].
    f_equal. rewrite <- IH by lia. do 2 f_equal. lia.
  - destruct k as [| k]; [lia |].
    rewrite list_ascii_of_string_app, rev_app_distr.
    cbn [list_ascii_of_string rev app lsb_chars Z.odd Z.div2 Pos.div2].
    f_equal. rewrite <- IH by lia. do 2 f_equal. lia.
  - destruct k as [| k]; [lia |].
    cbn [list_ascii_of_string rev app lsb_chars Z.odd Z.div2 Pos.div2].
    f_equal. rewrite lsb_chars_zero. f_equal. lia.
Qed.

Lemma lsb_chars_format (n m : Z) :
  1 <= n -> 0 <= m < 2 ^ n ->
  rev (list_ascii_of_string (format_0b n m)) = lsb_chars (Z.to_nat n) m.
Proof.
  intros Hn Hm. unfold format_0b.
  destruct (Z.ltb_spec m 0) as [? | _]; [lia |].
  cbn [String.length append]. 
  rewrite list_ascii_of_string_app, rev_app_distr, list_ascii_of_zeros,
    rev_repeat_char.
  destruct m as [| p | p]; [| | lia].
  - cbn [String.length list_ascii_of_string rev app].
    rewrite lsb_chars_zero.
    replace (Z.to_nat n) with (S (Z.to_nat (n - 0 - Z.of_nat 1))) by lia.
    reflexivity.
  - pose proof (Zdigits2_upper (Zpos p) n ltac:(lia) ltac:(lia) ltac:(lia))
      as Hd.
    cbn [Zdigits2] in Hd.
    rewrite length_bin_of_pos. rewrite <- lsb_chars_pos by lia.
    do 2 f_equal. lia.
Qed.

Lemma py_range_shift (n : Z) :
  0 <= n -> py_range 0 (n + 1) = 0 :: map Z.succ (py_range 0 n).
Proof.
  intros Hn. rewrite py_range_cons by lia. f_equal.
  unfold py_range. rewrite map_map.
  replace (Z.to_nat (n + 1 - (0 + 1))) with (Z.to_nat (n - 0)) by lia.
  apply map_ext. intros k. lia.
Qed.

Lemma lsb_chars_testbit (k : nat) :
  forall m, 0 <= m ->
    lsb_chars k m = map (bit_char m) (py_range 0 (Z.of_nat k)).
Proof.
  induction k as [| k IH]; intros m Hm; [reflexivity |].
  rewrite Nat2Z.inj_succ. unfold Z.succ at 1.
  rewrite py_range_shift by lia.
  cbn [lsb_chars map].
  replace (bit_char m 0) with (if Z.odd m then "1"%char else "0"%char)
    by (unfold bit_char; rewrite Z.bit0_odd; reflexivity).
  f_equal.
  rewrite IH by (apply Z.div2_nonneg; exact Hm).
  rewrite map_map. apply map_ext_in. intros i Hi.
  apply in_py_range_inv in Hi.
  unfold bit_char. rewrite Z.div2_div, Z.div2_bits by lia. reflexivity.
Qed.

Lemma combine_map_self {A B : Type} (f : A -> B) (l : list A) :
  combine l (map f l) = map (fun x => (x, f x)) l.
Proof.
  induction l as [| x l IH]; [reflexivity |].
  cbn [map combine]. rewrite IH. reflexivity.
Qed.

Lemma qubit_in_range (n i : Z) : 0 <= i < n -> qubit n i = Returned i.
Proof.
  intros H. unfold qubit.
  destruct (Z.leb_spec 0 i); [| lia]. destruct (Z.ltb_spec i n); [| lia].
  reflexivity.
Qed.

Lemma h_all_returned (n : Z) :
  1 <= n -> h_all n = Returned (map G_h (py_range 0 n)).
Proof.
  intros H. unfold h_all. rewrite (py_range_cons 0 n) by lia. reflexivity.
Qed.

Lemma x_all_returned (n : Z) :
  1 <= n -> x_all n = Returned (map G_x (py_range 0 n)).
Proof.
  intros H. unfold x_all. rewrite (py_range_cons 0 n) by lia. reflexivity.
Qed.

Lemma h_all_empty (n : Z) : n <= 0 -> h_all n = Raised CircuitError.
Proof.
  intros H. unfold h_all. rewrite py_range_nil by lia. reflexivity.
Qed.

Lemma multi_controlled_z_returned (n : Z) :
  1 <= n -> exists gs, multi_controlled_z n = Returned gs.
Proof.
  intros H. unfold multi_controlled_z.
  destruct (Z.eqb_spec n 1) as [-> | H1]; [eexists; reflexivity |].
  destruct (Z.eqb_spec n 2) as [-> | H2]; [eexists; reflexivity |].
  rewrite qubit_in_range by lia. cbn [bind]. eexists. reflexivity.
Qed.

(** The X layer of the oracle: for a marked index [0 <= m < 2^n] every
    index it touches lies in the register, and it is one X gate on each
    qubit [i < n] at which [m] has a zero bit. *)
Lemma x_on_zero_bits_format (n m : Z) :
  1 <= n -> 0 <= m < 2 ^ n ->
  x_on_zero_bits n (format_0b n m) = Returned (map G_x (zero_bits n m)).
Proof.
  intros Hn Hm. unfold x_on_zero_bits.
  rewrite lsb_chars_format by assumption.
  rewrite lsb_chars_testbit by lia.
  rewrite Z2Nat.id by lia.
  unfold enumerate, len. rewrite length_map.
  assert (Hlen : Z.of_nat (List.length (py_range 0 n)) = n).
  { unfold py_range. rewrite length_map, length_seq. lia. }
  rewrite Hlen, combine_map_self. unfold zero_bits. clear Hlen.
  assert (Hin : forall i, In i (py_range 0 n) -> 0 <= i < n)
    by (intros i Hi; apply in_py_range_inv in Hi; exact Hi).
  induction (py_range 0 n) as [| i l IH]; [reflexivity |].
  cbn [map for_each filter fst snd].
  rewrite IH by (intros j Hj; apply Hin; right; exact Hj).
  unfold bit_char. destruct (Z.testbit m i); cbn [negb Ascii.eqb Bool.eqb].
  - reflexivity.
  - rewrite qubit_in_range by (apply Hin; left; reflexivity).
    reflexivity.
Qed.

Lemma marking_oracle_returned (n : Z) (marked_items : list Z) :
  1 <= n -> (forall m, In m marked_items -> 0 <= m < 2 ^ n) ->
  exists gs, marking_oracle marked_items n = Returned gs.
Proof.
  intros Hn Hm. unfold marking_oracle. cbv zeta.
  induction marked_items as [| m marked_items IH]; [eexists; reflexivity |].
  destruct IH as [gs Egs]; [intros m' Hm'; apply Hm; right; exact Hm' |].
  destruct (multi_controlled_z_returned n Hn) as [mcz Emcz].
  cbn [for_each]. rewrite Egs.
  rewrite (x_on_zero_bits_format n m) by (try apply Hm; try left; auto).
  rewrite Emcz. cbn [bind]. eexists. reflexivity.
Qed.

Lemma diffusion_returned (n : Z) :
  1 <= n -> exists gs, _diffusion n = Returned gs.
Proof.
  intros Hn. unfold _diffusion.
  destruct (multi_controlled_z_returned n Hn) as [mcz Emcz].
  rewrite h_all_returned, x_all_returned by exact Hn. cbn [bind].
  rewrite Emcz. cbn [bind]. eexists. reflexivity.
Qed.

Lemma repeat_gates_returned (k : Z) (body : py_result (list gate)) :
  (exists gs, body = Returned gs) ->
  exists gs, repeat_gates k body = Returned gs.
Proof.
  intros [gs ->]. unfold repeat_gates.
  destruct (Z.to_nat k); eexists; reflexivity.
Qed.

(** For at least one qubit and marked items that are indices of the
    search space the circuit is built without an exception. *)
Lemma search_circuit_returned (n k : Z) (marked_items : list Z) :
  1 <= n -> (forall m, In m marked_items -> 0 <= m < 2 ^ n) ->
  exists qc,
    search_circuit marking_oracle marked_items n k = Returned qc /\
    num_qubits qc = n /\ num_clbits qc = n.
Proof.
  intros Hn Hm. unfold search_circuit.
  rewrite h_all_returned by exact Hn. cbn [bind].
  destruct (repeat_gates_returned k
              (o <- marking_oracle marked_items n ;;
               d <- _diffusion n ;; Returned (o ++ d))) as [gs Egs].
  { destruct (marking_oracle_returned n marked_items Hn Hm) as [o Eo].
    destruct (diffusion_returned n Hn) as [d Ed].
    rewrite Eo. cbn [bind]. rewrite Ed. cbn [bind]. eexists. reflexivity. }
  rewrite Egs. cbn [bind]. eexists. split; [reflexivity |].
  split; reflexivity.
Qed.

(** Without qubits [qc.h(qr)] raises before anything else is built. *)
Lemma search_circuit_no_qubits
      (oracle : list Z -> Z -> py_result (list gate))
      (marked_items : list Z) (n k : Z) :
  n <= 0 -> search_circuit oracle marked_items n k = Raised CircuitError.
Proof.
  intros Hn. unfold search_circuit. rewrite h_all_empty by exact Hn.
  reflexivity.
Qed.

(** ** Unstructured search *)

Lemma histogram_backend_ok :
  backend_ok (fun _ shots => [("0101", shots)]).
Proof.
  intros qc shots Hshots. unfold histogram_ok.
  cbn [forallb fst snd total_count is_bitstring].
  rewrite Z.add_0_r, Z.eqb_refl.
  destruct (Z.leb_spec 0 shots); [reflexivity | lia].
Qed.

(** C1, as the code has it: the binary64 evaluation of
    [floor(pi/4 * sqrt(size / len(marked)))] is defined and equals the
    floor of the real-valued formula for every non-empty [marked_items]
    and [size = 2^n], [n <= 10]; when moreover [n >= 1] and the marked
    items are indices of the search space, [run] builds its circuit,
    submits one job and returns a result whose 'iterations' field is that
    number; for [marked_items = [5]], [search_space_size = 16] it is 3. *)
Theorem grover_iterations_reported
        (backend_run : QuantumCircuit -> Z -> counts) :
  backend_ok backend_run ->
  (forall (marked_items : list Z) n,
     marked_items <> [] -> 0 <= n <= 10 ->
     exists k,
       grover_iterations (2 ^ n) (len marked_items) = Returned k /\
       0 <= k /\
       is_exact_floor (2 ^ n) (len marked_items) k = true) /\
  (forall marked_items n,
     marked_items <> [] -> 1 <= n <= 10 ->
     (forall m, In m marked_items -> 0 <= m < 2 ^ n) ->
     exists k r qc,
       grover_iterations (2 ^ n) (len marked_items) = Returned k /\
       Grover.run backend_run marked_items (2 ^ n)
       = (Returned (Grover.Result r), [(qc, 1000)]) /\
       Grover.iterations r = k /\
       Grover.marked_items r = marked_items /\
       Grover.circuit r = qc /\
       num_qubits qc = n) /\
  (exists r qc,
     Grover.run backend_run [5] 16
     = (Returned (Grover.Result r), [(qc, 1000)]) /\
     Grover.iterations r = 3).
Proof.
  intros Hbackend.
  assert (Count : forall (marked_items : list Z) n,
     marked_items <> [] -> 0 <= n <= 10 ->
     exists k,
       grover_iterations (2 ^ n) (len marked_items) = Returned k /\
       0 <= k /\
       is_exact_floor (2 ^ n) (len marked_items) k = true).
  { intros marked_items n Hne Hn.
    assert (Hlen : 0 < len marked_items)
      by (destruct marked_items; [congruence | unfold len; simpl; lia]).
    assert (Hsize : 0 < 2 ^ n < 2 ^ 11).
    { split; [apply Z.pow_pos_nonneg; lia |].
      apply Z.pow_lt_mono_r; lia. }
    destruct (grover_iterations_total (2 ^ n) (len marked_items) Hsize Hlen)
      as (k & Ek & Hk).
    exists k. split; [exact Ek |]. split; [exact Hk |].
    pose proof (grover_iterations_exact n (len marked_items)
                  Hn ltac:(lia)) as Hexact.
    unfold iterations_exact in Hexact. rewrite Ek in Hexact. exact Hexact. }
  assert (General : forall marked_items n,
     marked_items <> [] -> 1 <= n <= 10 ->
     (forall m, In m marked_items -> 0 <= m < 2 ^ n) ->
     exists k r qc,
       grover_iterations (2 ^ n) (len marked_items) = Returned k /\
       Grover.run backend_run marked_items (2 ^ n)
       = (Returned (Grover.Result r), [(qc, 1000)]) /\
       Grover.iterations r = k /\
       Grover.marked_items r = marked_items /\
       Grover.circuit r = qc /\
       num_qubits qc = n).
  { intros marked_items n Hne Hn Hrange.
    destruct (Count marked_items n Hne ltac:(lia)) as (k & Ek & Hk & _).
    destruct (search_circuit_returned n k marked_items ltac:(lia) Hrange)
      as (qc & Eqc & Hqubits & _).
    unfold Grover.run.
    assert (Htest : (2 ^ n =? 0) || negb (Z.land (2 ^ n) (2 ^ n - 1) =? 0)
                    = false)
      by (apply power_of_two_test; exists n; split; [lia | reflexivity]).
    rewrite Htest. unfold PyFloat.int_log2.
    rewrite Z.log2_pow2 by lia.
    destruct (Z.gtb_spec n 10) as [? | _]; [lia |].
    rewrite Ek. cbn [bind]. unfold Grover._oracle. rewrite Eqc. cbn [bind].
    destruct (histogram_ok_inv 1000 (backend_run qc 1000)
                (Hbackend qc 1000 ltac:(lia))) as [Hkeys Htotal].
    destruct (analyze_total marked_items (backend_run qc 1000) [] 0 Hkeys)
      as (found & sc & Ea & Hsc).
    rewrite Ea. cbn [bind].
    destruct (int_truediv_bounded sc 1000 10) as (rate & Erate & _);
      [lia | lia | apply Zdigits2_upper; lia | lia |].
    rewrite Erate. cbn [bind].
    eexists k, _, qc. split; [reflexivity |]. split; [reflexivity |].
    cbn [Grover.iterations Grover.marked_items Grover.circuit].
    repeat split; try reflexivity. exact Hqubits. }
  split; [exact Count |]. split; [exact General |].
  destruct (General [5] 4 ltac:(discriminate) ltac:(lia))
    as (k & r & qc & Ek & Erun & Hit & _).
  { intros m [<- | []]. lia. }
  exists r, qc. split; [exact Erun |].
  rewrite Hit.
  assert (E3 : grover_iterations (2 ^ 4) (len [5]) = Returned 3)
    by (vm_compute; reflexivity).
  congruence.
Qed.

Lemma grover_iterations_reported_witness :
  exists k r qc,
    grover_iterations (2 ^ 4) (len [5]) = Returned k /\
    Grover.run (fun _ shots => [("0101", shots)]) [5] (2 ^ 4)
    = (Returned (Grover.Result r), [(qc, 1000)]) /\
    Grover.iterations r = k.
Proof.
  destruct (proj1 (proj2 (grover_iterations_reported
                            (fun _ shots => [("0101", shots)])
                            histogram_backend_ok)) [5] 4)
    as (k & r & qc & H1 & H2 & H3 & _).
  - discriminate.
  - lia.
  - intros m [<- | []]. lia.
  - exists k, r, qc. split; [exact H1 | split; [exact H2 | exact H3]].
Defined.

(** C1 as stated fails: for the power of two 1 the register has no qubit
    and [qc.h(qr)] raises [CircuitError]; for the marked item 32 in a
    space of 16 the oracle reaches [qr[4]] on a register of 4 qubits and
    raises [IndexError].  In both cases the count was computed (0 and 3),
    no job is submitted and no result is returned. *)
Lemma grover_no_result_without_circuit :
  let backend_run := fun (_ : QuantumCircuit) (shots : Z) =>
                       [("0000", shots)] in
  is_power_of_two 1 /\ is_power_of_two 16 /\
  grover_iterations 1 (len [0]) = Returned 0 /\
  Grover.run backend_run [0] 1 = (Raised CircuitError, []) /\
  grover_iterations 16 (len [32]) = Returned 3 /\
  format_0b 4 32 = "100000" /\
  Grover.run backend_run [32] 16 = (Raised IndexError, []).
Proof.
  split; [exists 0; split; [lia | reflexivity] |].
  split; [exists 4; split; [lia | reflexivity] |].
  repeat split; vm_compute; reflexivity.
Qed.

(** ** Function-type determination *)

Lemma dict_get_not_mem (c : counts) (key : string) (default : Z) :
  dict_mem c key = false -> dict_get c key default = default.
Proof.
  induction c as [| [k v] c IH]; [reflexivity |].
  cbn [dict_mem dict_get]. destruct (String.eqb k key); [discriminate |].
  exact IH.
Qed.

Lemma count_test_iff (c : counts) (key : string) :
  dict_mem c key && (dict_get c key 0 >? 900) = true
  <-> 900 < dict_get c key 0.
Proof.
  rewrite andb_true_iff, Z.gtb_ltb, Z.ltb_lt. split; [tauto |].
  intros H. split; [| exact H].
  destruct (dict_mem c key) eqn:E; [reflexivity |].
  rewrite dict_get_not_mem in H by exact E. lia.
Qed.

Lemma share_above_iff (x : Z) :
  (900 # 1024 < inject_Z x / inject_Z DeutschJozsa.shots)%Q <-> 900 < x.
Proof.
  unfold Qlt, Qdiv, Qmult, Qinv, inject_Z, DeutschJozsa.shots.
  cbn [Qnum Qden]. simpl. lia.
Qed.

Lemma share_088_iff (x : Z) :
  x <> 901 ->
  ((88 # 100 < inject_Z x / inject_Z DeutschJozsa.shots)%Q <-> 900 < x).
Proof.
  intros Hx.
  unfold Qlt, Qdiv, Qmult, Qinv, inject_Z, DeutschJozsa.shots.
  cbn [Qnum Qden]. simpl. lia.
Qed.

Lemma dj_oracle_returned (random_lt_half : bool) (n : Z)
      (function_type : string) :
  0 <= n ->
  function_type = "constant" \/ function_type = "balanced" ->
  exists oracle,
    DeutschJozsa._oracle random_lt_half n function_type = Returned oracle.
Proof.
  intros Hn Hft. unfold DeutschJozsa._oracle.
  destruct Hft as [-> | ->]; cbn [String.eqb Ascii.eqb Bool.eqb].
  - destruct random_lt_half; [| eexists; reflexivity].
    rewrite qubit_in_range by lia. eexists. reflexivity.
  - assert (Hin : forall i, In i (py_range 0 n) -> 0 <= i < n)
      by (intros i Hi; apply in_py_range_inv in Hi; exact Hi).
    induction (py_range 0 n) as [| i l IH]; [eexists; reflexivity |].
    destruct IH as [gs Egs]; [intros j Hj; apply Hin; right; exact Hj |].
    cbn [for_each]. rewrite Egs.
    specialize (Hin i (or_introl eq_refl)).
    rewrite !qubit_in_range by lia. cbn [bind]. eexists. reflexivity.
Qed.




(** The rule of the code, a count above 900, and a share above 0.88 part
    only at the count 901, which takes a histogram with both the all-zero
    outcome and others. *)
Example dj_thresholds_differ_at_901 :
  let backend_run := fun (_ : QuantumCircuit) (_ : Z) =>
                       [("000", 901); ("111", 123)] in
  histogram_ok 1024 [("000", 901); ("111", 123)] = true /\
  match DeutschJozsa.run backend_run true 3 "constant" with
  | (Returned (DeutschJozsa.Result r), _) =>
      DeutschJozsa.detected_type r = "constant" /\
      ~ (88 # 100 < all_zero_share 3 (DeutschJozsa.measurements r))%Q
  | _ => False
  end.
Proof.
  split; [reflexivity |].
  cbv zeta. vm_compute. split; [reflexivity |].
  intros H. discriminate H.
Qed.

(** ** Extremum search *)

Section ScanFrom.
Variable better : Z -> Z -> bool.
Variable R : Z -> Z -> Prop.
Hypothesis better_spec : forall x t, better x t = false <-> R t x.
Hypothesis R_total : forall x y, R x y \/ R y x.
Hypothesis R_trans : forall x y z, R x y -> R y z -> R x z.

Lemma scan_from_best (rest : list Z) :
  forall best seen,
    In best seen -> (forall x, In x seen -> R best x) ->
    let t := QuantumMinMax.scan_from better best rest in
    In t (seen ++ rest) /\ forall x, In x (seen ++ rest) -> R t x.
Proof.
  induction rest as [| y rest IH]; intros best seen Hin Hbest; cbn zeta.
  - rewrite app_nil_r. split; assumption.
  - cbn [QuantumMinMax.scan_from].
    replace (seen ++ y :: rest) with ((seen ++ [y]) ++ rest)
      by (rewrite <- app_assoc; reflexivity).
    destruct (better y best) eqn:E.
    + apply IH.
      * apply in_or_app. right. left. reflexivity.
      * assert (Hn : ~ R best y)
          by (intros K; apply better_spec in K; congruence).
        assert (Hyb : R y best)
          by (destruct (R_total y best); [assumption | contradiction]).
        intros x Hx. apply in_app_or in Hx. destruct Hx as [Hx | [<- | []]].
        -- eapply R_trans; [exact Hyb | apply Hbest; exact Hx].
        -- destruct (R_total y y); assumption.
    + apply IH.
      * apply in_or_app. left. exact Hin.
      * intros x Hx. apply in_app_or in Hx. destruct Hx as [Hx | [<- | []]].
        -- apply Hbest. exact Hx.
        -- apply better_spec. exact E.
Qed.
End ScanFrom.

Lemma py_min_max_extremum (find_min : bool) (data : list Z) :
  data <> [] ->
  exists t,
    (if find_min then QuantumMinMax.py_min data
     else QuantumMinMax.py_max data) = Returned t /\
    is_extremum find_min data t.
Proof.
  destruct data as [| d0 rest]; [congruence | intros _].
  assert (Hinit : In d0 [d0]) by (left; reflexivity).
  destruct find_min; cbn [QuantumMinMax.py_min QuantumMinMax.py_max];
    eexists; (split; [reflexivity |]).
  - apply (scan_from_best Z.ltb Z.le) with (seen := [d0]).
    + intros x t. rewrite Z.ltb_ge. reflexivity.
    + intros x y. lia.
    + intros x y z. lia.
    + exact Hinit.
    + intros x [<- | []]. lia.
  - apply (scan_from_best Z.gtb Z.ge) with (seen := [d0]).
    + intros x t. rewrite Z.gtb_ltb, Z.ltb_ge. lia.
    + intros x y. lia.
    + intros x y z. lia.
    + exact Hinit.
    + intros x [<- | []]. lia.
Qed.

Lemma in_combine_seq {A : Type} (f : nat -> Z) (l : list A) :
  forall start i v,
    In (i, v) (combine (map f (seq start (List.length l))) l) <->
    exists j, i = f (start + j)%nat /\ nth_error l j = Some v.
Proof.
  induction l as [| x l IH]; intros start i v; cbn [List.length seq map combine].
  - split; [intros [] | intros ([| j] & _ & H); discriminate].
  - cbn [In]. rewrite IH. split.
    + intros [E | (j & Hi & Hj)].
      * inversion E; subst. exists 0%nat. rewrite Nat.add_0_r. auto.
      * exists (S j). rewrite Nat.add_succ_r. auto.
    + intros ([| j] & Hi & Hj).
      * left. rewrite Nat.add_0_r in Hi. cbn in Hj. congruence.
      * right. exists j. rewrite Nat.add_succ_r in Hi. auto.
Qed.

Lemma in_enumerate {A : Type} (l : list A) (i : Z) (v : A) :
  In (i, v) (enumerate l) <->
  0 <= i /\ nth_error l (Z.to_nat i) = Some v.
Proof.
  unfold enumerate, py_range, len.
  replace (Z.to_nat (Z.of_nat (List.length l) - 0)) with (List.length l)
    by lia.
  rewrite in_combine_seq. split.
  - intros (j & -> & Hj). split; [lia |].
    replace (Z.to_nat (0 + Z.of_nat (0 + j))) with j by lia. exact Hj.
  - intros [Hi Hv]. exists (Z.to_nat i). split; [lia | exact Hv].
Qed.

(** [target_indices] holds exactly the positions of [target_value]. *)
Lemma in_indices_of (data : list Z) (target_value i : Z) :
  In i (QuantumMinMax.indices_of data target_value) <->
  0 <= i /\ nth_error data (Z.to_nat i) = Some target_value.
Proof.
  unfold QuantumMinMax.indices_of. rewrite in_map_iff. split.
  - intros ([j v] & <- & Hf). apply filter_In in Hf.
    destruct Hf as [Hin Hv]. cbn [fst snd] in *.
    apply Z.eqb_eq in Hv. subst v. apply in_enumerate. exact Hin.
  - intros H. exists (i, target_value). split; [reflexivity |].
    apply filter_In. split; [apply in_enumerate; exact H |].
    apply Z.eqb_refl.
Qed.

Lemma len_indices_of (data : list Z) (target_value : Z) :
  In target_value data ->
  0 < len (QuantumMinMax.indices_of data target_value) <= len data.
Proof.
  intros Hin. split.
  - apply In_nth_error in Hin. destruct Hin as [j Hj].
    assert (H : In (Z.of_nat j)
                   (QuantumMinMax.indices_of data target_value)).
    { apply in_indices_of. split; [lia |].
      rewrite Nat2Z.id. exact Hj. }
    unfold len.
    destruct (QuantumMinMax.indices_of data target_value);
      [contradiction | simpl; lia].
  - unfold QuantumMinMax.indices_of, enumerate, len.
    rewrite length_map.
    pose proof (filter_length_le
                  (fun iv : Z * Z => snd iv =? target_value)
                  (combine (py_range 0 (len data)) data)) as H.
    rewrite length_combine in H. unfold len in H. lia.
Qed.

Lemma power_of_2_next (n : Z) :
  0 < n -> is_next_power_of_two n (QuantumMinMax.power_of_2 n).
Proof.
  intros Hn. unfold QuantumMinMax.power_of_2, PyFloat.ceil_log2.
  pose proof (Z.log2_up_nonneg n) as Hk.
  split; [exists (Z.log2_up n); split; [exact Hk | reflexivity] |].
  split; [apply Z.log2_log2_up_spec; exact Hn |].
  intros q (j & Hj & ->) Hle.
  apply Z.pow_le_mono_r; [lia |].
  apply Z.log2_up_le_pow2; assumption.
Qed.

Lemma padded_data_padding (data : list Z) (find_min : bool) :
  data <> [] ->
  is_padding find_min data (QuantumMinMax.padded_data data find_min).
Proof.
  intros Hne.
  assert (Hn : 0 < len data)
    by (destruct data; [congruence | unfold len; simpl; lia]).
  destruct (power_of_2_next (len data) Hn) as (Hp & Hle & Hmin).
  unfold is_padding, QuantumMinMax.padded_data.
  split.
  - eexists. destruct find_min; reflexivity.
  - replace (len (map PyInt data ++
                  repeat (PyFloatNum (if find_min then PyFloat.inf
                                      else PyFloat.neg_inf))
                         (Z.to_nat (QuantumMinMax.power_of_2 (len data)
                                    - len data))))
      with (QuantumMinMax.power_of_2 (len data)).
    + split; [exact Hp | split; [exact Hle | exact Hmin]].
    + unfold len in *. rewrite length_app, length_map, repeat_length. lia.
Qed.

Lemma max_count_from_in (rest : counts) :
  forall best, In (max_count_from best rest) (best :: rest).
Proof.
  induction rest as [| [k v] rest IH]; intros best; cbn [max_count_from].
  - left. reflexivity.
  - destruct (v >? snd best).
    + right. apply IH.
    + destruct (IH best) as [E | Hin]; [left; exact E | right; right; exact Hin].
Qed.

Lemma max_count_state_in (c : counts) :
  c <> [] -> exists kv, max_count_state c = Returned kv /\ In kv c.
Proof.
  destruct c as [| kv rest]; [congruence | intros _].
  eexists. split; [reflexivity | apply max_count_from_in].
Qed.

Lemma dict_get_bounds (c : counts) (key : string) :
  forallb (fun kv : string * Z => is_bitstring (fst kv) && (0 <=? snd kv)) c
  = true ->
  0 <= dict_get c key 0 <= total_count c.
Proof.
  induction c as [| [k v] c IH]; intros Hok; cbn [dict_get total_count].
  - lia.
  - cbn [forallb fst snd] in Hok.
    apply andb_true_iff in Hok. destruct Hok as [Hkv Hrest].
    apply andb_true_iff in Hkv. destruct Hkv as [_ Hv].
    apply Z.leb_le in Hv. specialize (IH Hrest).
    destruct (String.eqb k key); lia.
Qed.

Lemma total_count_nonneg (c : counts) :
  forallb (fun kv : string * Z => is_bitstring (fst kv) && (0 <=? snd kv)) c
  = true -> 0 <= total_count c.
Proof. intros H. pose proof (dict_get_bounds c "" H). lia. Qed.

Lemma fold_left_add_bounds {A : Type} (f : A -> Z) (M : Z) (l : list A) :
  (forall x, 0 <= f x <= M) ->
  forall a, a <= fold_left Z.add (map f l) a <= a + M * len l.
Proof.
  intros Hf. induction l as [| x l IH]; intros a; cbn [map fold_left].
  - unfold len. simpl. lia.
  - specialize (IH (a + f x)). specialize (Hf x).
    unfold len in *. cbn [List.length]. lia.
Qed.

Lemma histogram_nonempty (shots : Z) (c : counts) :
  0 < shots -> histogram_ok shots c = true -> c <> [].
Proof.
  intros Hs Hok. apply histogram_ok_inv in Hok. destruct Hok as [_ Ht].
  intros ->. simpl in Ht. lia.
Qed.

Lemma histogram_key_bitstring (c : counts) (kv : string * Z) :
  forallb (fun kv : string * Z => is_bitstring (fst kv) && (0 <=? snd kv)) c
  = true ->
  In kv c -> is_bitstring (fst kv) = true /\ 0 <= snd kv.
Proof.
  intros Hok Hin. rewrite forallb_forall in Hok.
  specialize (Hok kv Hin). apply andb_true_iff in Hok.
  destruct Hok as [Hb Hv]. apply Z.leb_le in Hv. split; assumption.
Qed.

(** C6, as the code has it: for a [data] of at least two elements whose
    padded length is at most [2^10], [run] pads [data] with [+inf] or [-inf] up to the next power-of-two
    length, reports as [target_value] the minimum (maximum) of [data] as
    found by the linear scan of [min] ([max]), reports as
    [target_indices] exactly the positions of [data] that hold it, and
    sets [success] exactly when [found_index] is a position of [data]
    holding [target_value]; for [7,3,9,1,5,8,2,6] in minimum mode the
    target value is 1 at index 3. *)
Theorem quantum_min_max_targets
        (backend_run : QuantumCircuit -> Z -> counts)
        (data : list Z) (find_min : bool) :
  backend_ok backend_run ->
  2 <= len data ->
  QuantumMinMax.power_of_2 (len data) <= 2 ^ 10 ->
  is_padding find_min data (QuantumMinMax.padded_data data find_min) /\
  exists r qc,
    QuantumMinMax.run backend_run data find_min
    = (Returned (QuantumMinMax.Result r), [(qc, 1000)]) /\
    QuantumMinMax.data r = data /\
    (if find_min then QuantumMinMax.py_min data
     else QuantumMinMax.py_max data)
    = Returned (QuantumMinMax.target_value r) /\
    is_extremum find_min data (QuantumMinMax.target_value r) /\
    QuantumMinMax.target_indices r
    = QuantumMinMax.indices_of data (QuantumMinMax.target_value r) /\
    (forall i, In i (QuantumMinMax.target_indices r) <->
               0 <= i /\
               nth_error data (Z.to_nat i)
               = Some (QuantumMinMax.target_value r)) /\
    (QuantumMinMax.success r = true <->
     0 <= QuantumMinMax.found_index r < len data /\
     nth_error data (Z.to_nat (QuantumMinMax.found_index r))
     = Some (QuantumMinMax.target_value r)) /\
    (data = [7; 3; 9; 1; 5; 8; 2; 6] -> find_min = true ->
     QuantumMinMax.target_value r = 1 /\
     QuantumMinMax.target_indices r = [3]).
Proof.
  intros Hbackend Hlen2 Hpad.
  assert (Hne : data <> []) by (intros ->; unfold len in Hlen2; simpl in Hlen2; lia).
  split; [apply padded_data_padding; exact Hne |].
  assert (Hn : 0 < len data) by lia.
  destruct (power_of_2_next (len data) Hn) as (_ & Hle & _).
  pose proof (Z.log2_up_nonneg (len data)) as Hlog.
  pose proof (Z.log2_up_pos (len data) ltac:(lia)) as Hlog1.
  assert (Hq : Z.log2_up (len data) <= 10).
  { unfold QuantumMinMax.power_of_2, PyFloat.ceil_log2 in Hpad.
    apply Z.pow_le_mono_r_iff in Hpad; lia. }
  destruct (py_min_max_extremum find_min data Hne) as (t & Et & Hext).
  destruct (len_indices_of data t (proj1 Hext)) as [Hidx0 Hidx1].
  assert (Hpos : 0 < QuantumMinMax.power_of_2 (len data) < 2 ^ 11).
  { split; [| lia].
    unfold QuantumMinMax.power_of_2, PyFloat.ceil_log2.
    apply Z.pow_pos_nonneg; lia. }
  destruct (grover_iterations_total
              (QuantumMinMax.power_of_2 (len data))
              (len (QuantumMinMax.indices_of data t)) Hpos Hidx0)
    as (k & Ek & Hk).
  unfold QuantumMinMax.run.
  destruct (Z.eqb_spec (len data) 0) as [? | _]; [lia |].
  rewrite Et.
  assert (Hqubits : PyFloat.int_log2 (QuantumMinMax.power_of_2 (len data))
                    = Z.log2_up (len data)).
  { unfold PyFloat.int_log2, QuantumMinMax.power_of_2, PyFloat.ceil_log2.
    apply Z.log2_pow2. exact Hlog. }
  rewrite Hqubits.
  destruct (Z.gtb_spec (Z.log2_up (len data)) 10) as [? | _]; [lia |].
  rewrite Ek. cbn [bind].
  set (n_qubits := Z.log2_up (len data)) in *.
  set (indices := QuantumMinMax.indices_of data t) in *.
  destruct (search_circuit_returned n_qubits k indices ltac:(lia))
    as (qc & Eqc & _).
  { intros i Hi. apply in_indices_of in Hi. destruct Hi as [Hi0 Hnth].
    assert (Hlt : (Z.to_nat i < List.length data)%nat)
      by (apply nth_error_Some; congruence).
    unfold QuantumMinMax.power_of_2, PyFloat.ceil_log2 in Hle.
    fold n_qubits in Hle. unfold len in Hle. lia. }
  unfold QuantumMinMax._min_max_oracle. rewrite Eqc. cbn [bind].
  set (c := backend_run qc 1000).
  pose proof (Hbackend qc 1000 ltac:(lia)) as Hok. fold c in Hok.
  destruct (histogram_ok_inv 1000 c Hok) as [Hkeys Htotal].
  destruct (max_count_state_in c (histogram_nonempty 1000 c ltac:(lia) Hok))
    as (state & Es & Hin).
  destruct (histogram_key_bitstring c state Hkeys Hin) as [Hbits _].
  destruct (int_base2_total (fst state) Hbits) as (fi & Efi & Hfi).
  rewrite Es. cbn [bind]. rewrite Efi. cbn [bind].
  set (sc := fold_left Z.add
               (map (fun idx => dict_get c (format_0b n_qubits idx) 0)
                    indices) 0).
  assert (Hsc : 0 <= sc <= 0 + 1000 * len indices).
  { apply (fold_left_add_bounds
             (fun idx => dict_get c (format_0b n_qubits idx) 0) 1000).
    intros idx. pose proof (dict_get_bounds c (format_0b n_qubits idx) Hkeys).
    lia. }
  assert (Hlen : len data <= 2 ^ 10) by lia.
  destruct (int_truediv_bounded sc 1000 20) as (rate & Erate & _);
    [lia | lia | apply Zdigits2_upper; lia | lia |].
  assert (Hsuccess :
            forall v ok,
              (if fi <? len data
               then (Some (nth (Z.to_nat fi) data 0),
                     nth (Z.to_nat fi) data 0 =? t)
               else (None, false)) = (v, ok) ->
              (ok = true <->
               0 <= fi < len data /\ nth_error data (Z.to_nat fi) = Some t)).
  { intros v ok E. destruct (Z.ltb_spec fi (len data)) as [Hlt | Hge].
    - inversion E; subst. rewrite Z.eqb_eq.
      assert (Hnat : (Z.to_nat fi < List.length data)%nat)
        by (unfold len in Hlt; lia).
      rewrite (nth_error_nth' data 0 Hnat). split.
      + intros ->. split; [lia | reflexivity].
      + intros [_ H]. congruence.
    - inversion E; subst. split; [discriminate | lia]. }
  destruct (if fi <? len data
            then (Some (nth (Z.to_nat fi) data 0),
                  nth (Z.to_nat fi) data 0 =? t)
            else (None, false)) as [v ok] eqn:Eok.
  fold sc. rewrite Erate. cbn [bind].
  eexists _, qc. split; [reflexivity |].
  cbn [QuantumMinMax.data QuantumMinMax.target_value
       QuantumMinMax.target_indices QuantumMinMax.success
       QuantumMinMax.found_index].
  split; [reflexivity |]. split; [reflexivity |]. split; [exact Hext |].
  split; [reflexivity |].
  split; [intros i; apply in_indices_of |].
  split; [apply (Hsuccess v ok); reflexivity |].
  intros -> ->. unfold indices.
  assert (E1 : t = 1) by (vm_compute in Et; congruence).
  subst t. split; reflexivity.
Qed.

Lemma quantum_min_max_targets_witness :
  exists r,
    fst (QuantumMinMax.run (fun _ shots => [("0101", shots)])
                           [7; 3; 9; 1; 5; 8; 2; 6] true)
    = Returned (QuantumMinMax.Result r) /\
    QuantumMinMax.target_value r = 1 /\
    QuantumMinMax.target_indices r = [3].
Proof.
  destruct (quantum_min_max_targets
              (fun _ shots => [("0101", shots)])
              [7; 3; 9; 1; 5; 8; 2; 6] true)
    as (_ & r & qc & Erun & _ & _ & _ & _ & _ & _ & Hinst).
  - exact histogram_backend_ok.
  - vm_compute. discriminate.
  - vm_compute. discriminate.
  - exists r. rewrite Erun. split; [reflexivity |].
    apply Hinst; reflexivity.
Defined.

(** C6 as stated fails: a list of one element is not empty and its
    padded length is 1, but then the register has no qubit and
    [qc.h(qr)] raises [CircuitError]: [run] submits no job and returns no
    result, in either mode. *)
Lemma min_max_single_element_raises :
  let backend_run := fun (_ : QuantumCircuit) (shots : Z) =>
                       [("0", shots)] in
  QuantumMinMax.power_of_2 (len [5]) = 1 /\
  QuantumMinMax.run backend_run [5] true = (Raised CircuitError, []) /\
  QuantumMinMax.run backend_run [5] false = (Raised CircuitError, []).
Proof.
  repeat split; vm_compute; reflexivity.
Qed.

(** ** Phase estimation *)

Lemma int_digits2_below (s : string) :
  forall acc a v,
    0 <= a -> 0 <= acc < 2 ^ a ->
    int_digits2 acc s = Returned v ->
    0 <= v < 2 ^ (a + Z.of_nat (String.length s)).
Proof.
  induction s as [| c s IH]; intros acc a v Ha Hacc E.
  - cbn in E. inversion E; subst. cbn [String.length].
    rewrite Z.add_0_r. exact Hacc.
  - cbn [int_digits2] in E. cbn [String.length].
    replace (a + Z.of_nat (S (String.length s)))
      with ((a + 1) + Z.of_nat (String.length s)) by lia.
    assert (Hpow : 2 ^ (a + 1) = 2 * 2 ^ a)
      by (rewrite Z.pow_add_r, Z.pow_1_r by lia; lia).
    destruct (Ascii.eqb c "0");
      [apply (IH (2 * acc)); [lia | lia | exact E] |].
    destruct (Ascii.eqb c "1");
      [apply (IH (2 * acc + 1)); [lia | lia | exact E] |].
    discriminate.
Qed.

Lemma int_base2_below (s : string) (width : nat) (v : Z) :
  (String.length s <= width)%nat ->
  int_base2 s = Returned v -> 0 <= v < 2 ^ Z.of_nat width.
Proof.
  intros Hlen E. destruct s as [| c s]; [discriminate |].
  unfold int_base2 in E.
  pose proof (int_digits2_below (String c s) 0 0 v ltac:(lia) ltac:(lia) E)
    as H.
  rewrite Z.add_0_l in H.
  assert (Hmono : 2 ^ Z.of_nat (String.length (String c s))
                  <= 2 ^ Z.of_nat width)
    by (apply Z.pow_le_mono_r; lia).
  lia.
Qed.

Lemma count_le_total (c : counts) (kv : string * Z) :
  forallb (fun kv : string * Z => is_bitstring (fst kv) && (0 <=? snd kv)) c
  = true ->
  In kv c -> 0 <= snd kv <= total_count c.
Proof.
  induction c as [| [k v] c IH]; intros Hok Hin; [contradiction |].
  cbn [forallb fst snd] in Hok.
  apply andb_true_iff in Hok. destruct Hok as [Hkv Hrest].
  apply andb_true_iff in Hkv. destruct Hkv as [_ Hv].
  apply Z.leb_le in Hv.
  pose proof (total_count_nonneg c Hrest) as Hnn.
  cbn [total_count]. destruct Hin as [<- | Hin].
  - cbn [snd]. lia.
  - specialize (IH Hrest Hin). lia.
Qed.

Lemma float_of_int_pow2 (i : Z) :
  0 <= i <= 10 -> exists f, PyFloat.float_of_int (2 ^ i) = Returned f.
Proof.
  intros Hi.
  assert (H : i = 0 \/ i = 1 \/ i = 2 \/ i = 3 \/ i = 4 \/ i = 5 \/
              i = 6 \/ i = 7 \/ i = 8 \/ i = 9 \/ i = 10) by lia.
  repeat (destruct H as [-> | H]; [eexists; vm_compute; reflexivity |]).
  subst i. eexists. vm_compute. reflexivity.
Qed.

Lemma controlled_u_total (phase : PyFloat.float) (n : Z)
      (qubits : list Z) :
  (forall i, In i qubits -> 0 <= i <= 10 /\ i < n) ->
  exists gs, PhaseEstimation.controlled_u phase n qubits = Returned gs.
Proof.
  induction qubits as [| i rest IH]; intros Hq.
  - eexists. reflexivity.
  - destruct IH as [gs Egs]; [intros j Hj; apply Hq; right; exact Hj |].
    destruct (Hq i (or_introl eq_refl)) as [Hi Hin].
    destruct (float_of_int_pow2 i Hi) as [f Ef].
    cbn [PhaseEstimation.controlled_u]. unfold PhaseEstimation.angle.
    assert (E2 : PyFloat.float_of_int 2
                 = Returned (S754_finite false 4503599627370496 (-51)))
      by (vm_compute; reflexivity).
    rewrite E2, Ef. cbn [bind]. rewrite qubit_in_range by lia.
    cbn [bind]. rewrite Egs. cbn [bind].
    eexists. reflexivity.
Qed.

(** [max_count_from] keeps the first entry with the largest count. *)
Lemma max_count_from_first (rest : counts) :
  forall seen best,
    first_most_frequent seen best ->
    first_most_frequent (seen ++ rest) (max_count_from best rest).
Proof.
  induction rest as [| [k v] rest IH]; intros seen best Hbest;
    cbn [max_count_from].
  - rewrite app_nil_r. exact Hbest.
  - replace (seen ++ (k, v) :: rest) with ((seen ++ [(k, v)]) ++ rest)
      by (rewrite <- app_assoc; reflexivity).
    destruct Hbest as (before & after & -> & Hb & Ha).
    destruct (Z.gtb_spec v (snd best)) as [Hgt | Hle]; apply IH.
    + exists (before ++ best :: after), []. split; [reflexivity |].
      split; [| intros e []].
      intros e He. cbn [snd]. apply in_app_or in He.
      destruct He as [He | [<- | He]].
      * specialize (Hb e He). lia.
      * exact Hgt.
      * specialize (Ha e He). lia.
    + exists before, (after ++ [(k, v)]). split.
      * rewrite <- app_assoc. reflexivity.
      * split; [exact Hb |]. intros e He. apply in_app_or in He.
        destruct He as [He | [<- | []]]; [apply Ha; exact He | exact Hle].
Qed.

Lemma max_count_state_first (c : counts) (kv : string * Z) :
  max_count_state c = Returned kv -> first_most_frequent c kv.
Proof.
  destruct c as [| best rest]; [discriminate |].
  cbn [max_count_state]. intros E. inversion E; subst kv.
  apply (max_count_from_first rest [best] best).
  exists [], []. split; [reflexivity |]. split; intros e [].
Qed.

Lemma dict_get_in (c : counts) (key : string) :
  dict_get c key 0 = 0 \/ In (key, dict_get c key 0) c.
Proof.
  induction c as [| [k v] c IH]; [left; reflexivity |].
  cbn [dict_get]. destruct (String.eqb_spec k key) as [-> | Hne].
  - right. left. reflexivity.
  - destruct IH as [E | Hin]; [left; exact E | right; right; exact Hin].
Qed.

(** In a histogram of non-negative counts a dominant outcome is the one
    that [max] selects. *)
Lemma dominant_is_selected (c : counts) (key : string) (kv : string * Z) :
  forallb (fun kv : string * Z => is_bitstring (fst kv) && (0 <=? snd kv)) c
  = true ->
  first_most_frequent c kv -> dominant c key -> fst kv = key.
Proof.
  intros Hok (before & after & Ec & Hb & Ha) Hdom.
  destruct (String.eqb_spec (fst kv) key) as [E | Hne]; [exact E | exfalso].
  assert (Hin : In kv c)
    by (rewrite Ec; apply in_or_app; right; left; reflexivity).
  pose proof (Hdom kv Hin Hne) as Hlt.
  destruct (histogram_key_bitstring c kv Hok Hin) as [_ Hnn].
  destruct (dict_get_in c key) as [E0 | Hkey]; [lia |].
  set (d := dict_get c key 0) in *.
  rewrite Ec in Hkey. apply in_app_or in Hkey.
  destruct Hkey as [Hk | [Hk | Hk]].
  - specialize (Hb _ Hk). cbn [snd] in Hb. lia.
  - rewrite Hk in Hlt. cbn [snd] in Hlt. lia.
  - specialize (Ha _ Hk). cbn [snd] in Ha. lia.
Qed.


Lemma noisy_backend_ok :
  backend_ok (fun _ shots => [("1100", shots / 4);
                              ("0100", shots - shots / 4)]).
Proof.
  intros qc shots Hshots. unfold histogram_ok.
  cbn [forallb fst snd total_count is_bitstring list_ascii_of_string
       Ascii.eqb Bool.eqb orb andb].
  assert (H : 0 <= shots / 4 <= shots)
    by (Z.div_mod_to_equations; lia).
  destruct (Z.leb_spec 0 (shots / 4)); [| lia].
  destruct (Z.leb_spec 0 (shots - shots / 4)); [| lia].
  cbn [andb]. apply Z.eqb_eq. lia.
Qed.


(** ** Trial division *)

Lemma list_product_app (l1 l2 : list Z) :
  list_product (l1 ++ l2) = list_product l1 * list_product l2.
Proof.
  unfold list_product. induction l1 as [| x l1 IH]; cbn [app fold_right].
  - destruct (fold_right Z.mul 1 l2); reflexivity.
  - rewrite IH. ring.
Qed.

Lemma list_product_repeat (x : Z) (k : nat) :
  list_product (repeat x k) = x ^ Z.of_nat k.
Proof.
  unfold list_product. induction k as [| k IH].
  - reflexivity.
  - cbn [repeat fold_right]. rewrite IH, Nat2Z.inj_succ, Z.pow_succ_r by lia.
    reflexivity.
Qed.

Lemma sorted_snoc (l : list Z) (x : Z) :
  Sorted Z.le l -> Forall (fun p => p <= x) l -> Sorted Z.le (l ++ [x]).
Proof.
  induction 1 as [| y l Hs IH Hhd]; intros Hall; cbn [app].
  - repeat constructor.
  - inversion Hall as [| ? ? Hy Hl]; subst.
    constructor; [apply IH; exact Hl |].
    destruct l as [| z l]; cbn [app]; constructor.
    + exact Hy.
    + inversion Hhd; assumption.
Qed.

Lemma sorted_app_repeat (l : list Z) (x : Z) (k : nat) :
  Sorted Z.le l -> Forall (fun p => p <= x) l ->
  Sorted Z.le (l ++ repeat x k) /\ Forall (fun p => p <= x) (l ++ repeat x k).
Proof.
  revert l. induction k as [| k IH]; intros l Hs Hall.
  - cbn [repeat]. rewrite app_nil_r. split; assumption.
  - cbn [repeat].
    replace (l ++ x :: repeat x k) with ((l ++ [x]) ++ repeat x k)
      by (rewrite <- app_assoc; reflexivity).
    apply IH.
    + apply sorted_snoc; assumption.
    + apply Forall_app. split; [exact Hall |].
      constructor; [lia | constructor].
Qed.

Lemma divide_out_spec (i : Z) :
  2 <= i ->
  forall fuel N factors,
    1 <= N -> (Z.to_nat N <= fuel)%nat ->
    exists N' k,
      ClassicalFactorization.divide_out fuel i N factors
      = Some (N', factors ++ repeat i k) /\
      1 <= N' <= N /\ N = N' * i ^ Z.of_nat k /\ N' mod i <> 0 /\
      (k <> 0%nat -> (i | N)).
Proof.
  intros Hi fuel.
  induction fuel as [| fuel IH]; intros N factors HN Hfuel; [lia |].
  cbn [ClassicalFactorization.divide_out].
  destruct (Z.eqb_spec (N mod i) 0) as [Hdiv | Hndiv].
  - assert (Hq : N = i * (N / i)).
    { pose proof (Z.div_mod N i ltac:(lia)). lia. }
    assert (Hq1 : 1 <= N / i < N).
    { split.
      - destruct (Z_lt_le_dec (N / i) 1) as [Hlt | Hge]; [exfalso; nia | lia].
      - apply Z.div_lt; lia. }
    destruct (IH (N / i) (factors ++ [i])) as (N' & k & E & Hb & Hp & Hm & _);
      [lia | lia |].
    exists N', (S k). split.
    { rewrite E. rewrite <- app_assoc. reflexivity. }
    split; [lia |]. split.
    { rewrite Nat2Z.inj_succ, Z.pow_succ_r by lia. rewrite Hq at 1.
      rewrite Hp at 1. ring. }
    split; [exact Hm |].
    intros _. exists (N / i). lia.
  - exists N, 0%nat. cbn [repeat]. rewrite app_nil_r.
    split; [reflexivity |]. split; [lia |]. split; [cbn; lia |].
    split; [exact Hndiv | congruence].
Qed.

Lemma no_divisor_below_prime (i N : Z) :
  2 <= i -> no_divisor_below i N -> (i | N) -> Z.prime i.
Proof.
  intros Hi Hrough Hdiv. split; [lia |].
  intros n Hn Hni. apply (Hrough n); [lia |].
  eapply Z.divide_trans; eassumption.
Qed.

Lemma no_divisor_below_sqrt (i N : Z) :
  2 <= i -> 1 < N -> N < i * i -> no_divisor_below i N ->
  Z.prime N /\ i <= N.
Proof.
  intros Hi HN Hsq Hrough. split.
  - split; [lia |].
    intros n Hn [m Hm].
    destruct (Z_lt_le_dec n i) as [Hlt | Hge].
    + apply (Hrough n); [lia |]. exists m. exact Hm.
    + assert (Hm1 : 1 < m < i).
      { split.
        - destruct (Z_lt_le_dec 1 m) as [H1 | H1]; [exact H1 | exfalso; nia].
        - destruct (Z_lt_le_dec m i) as [H1 | H1]; [exact H1 | exfalso; nia]. }
      apply (Hrough m); [lia |]. exists n. lia.
  - destruct (Z_lt_le_dec N i) as [Hlt | Hge]; [| exact Hge].
    exfalso. apply (Hrough N); [lia |]. apply Z.divide_refl.
Qed.

Lemma odd_loop_exit (i N : Z) (factors : list Z) :
  3 <= i -> 1 <= N -> N < i * i -> no_divisor_below i N ->
  Forall Z.prime factors -> Sorted Z.le factors ->
  Forall (fun p => p <= i) factors ->
  let out := if N >? 1 then factors ++ [N] else factors in
  list_product out = list_product factors * N /\
  Forall Z.prime out /\ Sorted Z.le out.
Proof.
  intros Hi HN Hsq Hrough Hprime Hsorted Hle. cbv zeta.
  destruct (Z.gtb_spec N 1) as [Hgt | Hgt].
  - destruct (no_divisor_below_sqrt i N) as [Hp Hge];
      [lia | lia | lia | assumption |].
    rewrite list_product_app. split.
    { change (list_product [N]) with (N * 1). ring. }
    split.
    + apply Forall_app. split; [exact Hprime |].
      constructor; [exact Hp | constructor].
    + apply sorted_snoc; [exact Hsorted |].
      eapply Forall_impl; [| exact Hle]. cbv beta. intros; lia.
  - split; [replace N with 1 by lia; ring |]. split; assumption.
Qed.

Lemma odd_loop_spec :
  forall fuel i N factors,
    3 <= i -> i mod 2 = 1 -> 1 <= N -> no_divisor_below i N ->
    Forall Z.prime factors -> Sorted Z.le factors ->
    Forall (fun p => p <= i) factors ->
    (Z.to_nat (N - i + 1) <= fuel)%nat ->
    exists N' factors',
      ClassicalFactorization.odd_loop fuel i N factors = Some (N', factors') /\
      let out := if N' >? 1 then factors' ++ [N'] else factors' in
      list_product out = list_product factors * N /\
      Forall Z.prime out /\ Sorted Z.le out.
Proof.
  induction fuel as [| fuel IH];
    intros i N factors Hi Hodd HN Hrough Hprime Hsorted Hle Hfuel.
  - cbn [ClassicalFactorization.odd_loop].
    destruct (Z.leb_spec (i * i) N) as [Hsq | Hsq]; [exfalso; nia |].
    exists N, factors. split; [reflexivity |].
    apply odd_loop_exit with i; assumption.
  - cbn [ClassicalFactorization.odd_loop].
    destruct (Z.leb_spec (i * i) N) as [Hsq | Hsq].
    + destruct (divide_out_spec i ltac:(lia) (Z.to_nat N) N factors)
        as (N' & k & E & Hb & Hp & Hm & Hk); [lia | lia |].
      rewrite E.
      assert (Hik : k <> 0%nat -> Z.prime i).
      { intros Hk0. apply (no_divisor_below_prime i N); [lia | exact Hrough |].
        apply Hk. exact Hk0. }
      assert (HN'N : (N' | N)).
      { exists (i ^ Z.of_nat k). lia. }
      destruct (sorted_app_repeat factors i k Hsorted Hle) as [Hs1 Hl1].
      destruct (IH (i + 2) N' (factors ++ repeat i k))
        as (N2 & f2 & E2 & Hout).
      * lia.
      * rewrite <- Zplus_mod_idemp_l, Hodd. reflexivity.
      * lia.
      * intros d Hd Hdiv.
        assert (Hcases : d < i \/ d = i \/ d = i + 1) by lia.
        destruct Hcases as [Hlt | [-> | ->]].
        -- apply (Hrough d); [lia |]. eapply Z.divide_trans; eassumption.
        -- apply Hm. apply Z.mod_divide; [lia | exact Hdiv].
        -- apply (Hrough 2); [lia |].
           apply Z.divide_trans with (i + 1).
           ++ apply Z.mod_divide; [lia |].
              rewrite <- Zplus_mod_idemp_l, Hodd. reflexivity.
           ++ eapply Z.divide_trans; eassumption.
      * apply Forall_app. split; [exact Hprime |].
        destruct k as [| k]; [constructor |].
        apply Forall_forall. intros x Hx. apply repeat_spec in Hx. subst x.
        apply Hik. discriminate.
      * exact Hs1.
      * eapply Forall_impl; [| exact Hl1]. cbv beta. intros; lia.
      * lia.
      * exists N2, f2. split; [exact E2 |].
        cbv zeta in Hout |- *. destruct Hout as (Hprod & Hpr & Hso).
        split; [| split; assumption].
        rewrite Hprod, list_product_app, list_product_repeat.
        rewrite <- Z.mul_assoc. f_equal. lia.
    + exists N, factors. split; [reflexivity |].
      apply odd_loop_exit with i; assumption.
Qed.

(** Trial division returns the prime factorisation: [classical_factorization]
    ends for every [N]; below 2 it returns the empty list, and from 2 on it
    returns primes in nondecreasing order whose product is [N]. *)
Theorem classical_factorization_prime_factors (N : Z) :
  exists factors,
    ClassicalFactorization.classical_factorization N = Some factors /\
    (N < 2 -> factors = []) /\
    (2 <= N ->
     list_product factors = N /\ Forall Z.prime factors /\
     Sorted Z.le factors).
Proof.
  unfold ClassicalFactorization.classical_factorization.
  destruct (Z.ltb_spec N 2) as [Hlt | Hge].
  - exists []. split; [reflexivity |]. split; [reflexivity | lia].
  - destruct (divide_out_spec 2 ltac:(lia) (Z.to_nat N) N [])
      as (N1 & k & E & Hb & Hp & Hm & _); [lia | lia |].
    rewrite E. cbn [app].
    destruct (odd_loop_spec (Z.to_nat N1) 3 N1 (repeat 2 k))
      as (N2 & f2 & E2 & Hout).
    + lia.
    + reflexivity.
    + lia.
    + intros d Hd Hdiv. replace d with 2 in Hdiv by lia.
      apply Hm. apply Z.mod_divide; [lia | exact Hdiv].
    + apply Forall_forall. intros x Hx. apply repeat_spec in Hx. subst x.
      exact Z.prime_2.
    + apply (sorted_app_repeat [] 2 k); constructor.
    + apply Forall_forall. intros x Hx. apply repeat_spec in Hx. lia.
    + lia.
    + rewrite E2. eexists. split; [reflexivity |].
      split; [lia |]. intros _.
      cbv zeta in Hout. destruct Hout as (Hprod & Hpr & Hso).
      split; [| split; assumption].
      rewrite Hprod, list_product_repeat. lia.
Qed.

Lemma classical_factorization_prime_factors_witness :
  exists factors,
    ClassicalFactorization.classical_factorization 360 = Some factors /\
    (360 < 2 -> factors = []) /\
    (2 <= 360 ->
     list_product factors = 360 /\ Forall Z.prime factors /\
     Sorted Z.le factors).
Proof.
  exact (classical_factorization_prime_factors 360).
Defined.

(** ** Linear search *)

Lemma NoDup_py_range (lo hi : Z) : NoDup (py_range lo hi).
Proof.
  unfold py_range. apply Finite.Injective_map_NoDup; [| apply seq_NoDup].
  intros x y. lia.
Qed.

Lemma filter_none {A : Type} (f : A -> bool) (l : list A) :
  (forall x, In x l -> f x = false) -> filter f l = [].
Proof.
  induction l as [| x l IH]; intros H; [reflexivity |].
  cbn [filter]. rewrite (H x (or_introl eq_refl)).
  apply IH. intros y Hy. apply H. right. exact Hy.
Qed.

Lemma is_marked_In (marked_items : list Z) (i : Z) :
  is_marked marked_items i = true <-> In i marked_items.
Proof.
  unfold is_marked. rewrite existsb_exists. split.
  - intros (x & Hx & E). apply Z.eqb_eq in E. subst x. exact Hx.
  - intros H. exists i. split; [exact H | apply Z.eqb_refl].
Qed.

Lemma marked_below_succ (marked_items : list Z) (c : Z) :
  0 <= c ->
  marked_below marked_items (c + 1)
  = marked_below marked_items c ++
    (if is_marked marked_items c then [c] else []).
Proof.
  intros Hc. unfold marked_below.
  rewrite py_range_snoc by lia. rewrite filter_app. reflexivity.
Qed.

Lemma in_marked_below (marked_items : list Z) (c m : Z) :
  In m (marked_below marked_items c) <-> In m marked_items /\ 0 <= m < c.
Proof.
  unfold marked_below. rewrite filter_In, is_marked_In. split.
  - intros [Hr Hm]. apply in_py_range_inv in Hr. split; [exact Hm | lia].
  - intros [Hm Hr]. split; [apply in_py_range; lia | exact Hm].
Qed.

Lemma NoDup_marked_below (marked_items : list Z) (c : Z) :
  NoDup (marked_below marked_items c).
Proof. apply NoDup_filter, NoDup_py_range. Qed.

(** The loop scans a prefix [0 .. c' - 1] of the range and keeps the
    marked indices it met; it stops early exactly at the first marked index
    that completes the count. *)
Lemma search_loop_spec (marked_items : list Z) (size : Z) :
  forall n c,
    0 <= c -> n = Z.to_nat (size - c) ->
    exists c',
      ClassicalSearch.search_loop (py_range c size) marked_items
        (marked_below marked_items c) c
      = (marked_below marked_items c', c') /\
      c <= c' <= Z.max c size /\
      ((c < c' /\ is_marked marked_items (c' - 1) = true /\
        len (marked_below marked_items c') = len marked_items) \/
       (c' = Z.max c size /\
        forall j, c < j <= size -> is_marked marked_items (j - 1) = true ->
                  len (marked_below marked_items j) <> len marked_items)).
Proof.
  induction n as [| n IH]; intros c Hc Hn.
  - rewrite py_range_nil by lia. exists c. split; [reflexivity |].
    split; [lia |]. right. split; [lia |]. intros j Hj. lia.
  - rewrite py_range_cons by lia. cbn [ClassicalSearch.search_loop].
    fold (is_marked marked_items c).
    pose proof (marked_below_succ marked_items c Hc) as Hsucc.
    destruct (is_marked marked_items c) eqn:Hm.
    + rewrite <- Hsucc.
      destruct (Z.eqb_spec (len (marked_below marked_items (c + 1)))
                           (len marked_items)) as [Heq | Hne].
      * exists (c + 1). split; [reflexivity |]. split; [lia |].
        left. replace (c + 1 - 1) with c by lia.
        split; [lia | split; assumption].
      * destruct (IH (c + 1)) as (c' & E & Hb & Hcase); [lia | lia |].
        exists c'. split; [exact E |]. split; [lia |].
        destruct Hcase as [(H1 & H2 & H3) | (H1 & H2)].
        -- left. split; [lia | split; assumption].
        -- right. split; [lia |]. intros j Hj Hmj.
           destruct (Z.eq_dec j (c + 1)) as [-> | Hjne]; [exact Hne |].
           apply H2; [lia | exact Hmj].
    + rewrite app_nil_r in Hsucc. rewrite <- Hsucc.
      destruct (IH (c + 1)) as (c' & E & Hb & Hcase); [lia | lia |].
      exists c'. split; [exact E |]. split; [lia |].
      destruct Hcase as [(H1 & H2 & H3) | (H1 & H2)].
      * left. split; [lia | split; assumption].
      * right. split; [lia |]. intros j Hj Hmj.
        destruct (Z.eq_dec j (c + 1)) as [-> | Hjne].
        -- replace (c + 1 - 1) with c in Hmj by lia. congruence.
        -- apply H2; [lia | exact Hmj].
Qed.

Lemma average_total (marked_items : list Z) (c size : Z) :
  0 <= c <= Z.max 0 size -> size < 2 ^ 971 ->
  exists average,
    match marked_items with
    | [] => Returned (PyInt c)
    | _ :: _ =>
        q <- PyFloat.int_truediv c (len marked_items) ;;
        Returned (PyFloatNum q)
    end = Returned average /\
    (marked_items = [] -> average = PyInt c) /\
    (marked_items <> [] ->
     exists q, PyFloat.int_truediv c (len marked_items) = Returned q /\
               average = PyFloatNum q).
Proof.
  intros Hc Hsize. destruct marked_items as [| m marked_items].
  - exists (PyInt c). split; [reflexivity |]. split; [reflexivity | congruence].
  - destruct (int_truediv_bounded c (len (m :: marked_items)) 971)
      as (q & E & _).
    + lia.
    + unfold len. cbn [List.length]. lia.
    + apply Zdigits2_upper; lia.
    + lia.
    + rewrite E. exists (PyFloatNum q). split; [reflexivity |].
      split; [discriminate |]. intros _. exists q. split; reflexivity.
Qed.

(** [classical_search] inspects a prefix of [range(search_space_size)] and
    reports the marked indices it met there, in increasing order; it stops
    before the end only on a marked index that completes the count, and
    with no marked items it inspects everything and reports the integer
    number of comparisons as the average. *)
Theorem classical_search_scans_prefix (marked_items : list Z) (size : Z) :
  size < 2 ^ 971 ->
  exists r,
    ClassicalSearch.classical_search marked_items size = Returned r /\
    0 <= ClassicalSearch.comparisons r <= Z.max 0 size /\
    ClassicalSearch.found_items r
    = marked_below marked_items (ClassicalSearch.comparisons r) /\
    (ClassicalSearch.comparisons r < size ->
     In (ClassicalSearch.comparisons r - 1) marked_items /\
     len (ClassicalSearch.found_items r) = len marked_items) /\
    (marked_items = [] ->
     ClassicalSearch.comparisons r = Z.max 0 size /\
     ClassicalSearch.average_comparisons r
     = PyInt (ClassicalSearch.comparisons r)).
Proof.
  intros Hsize. unfold ClassicalSearch.classical_search.
  destruct (search_loop_spec marked_items size (Z.to_nat (size - 0)) 0)
    as (c' & E & Hb & Hcase); [lia | reflexivity |].
  change (marked_below marked_items 0) with (@nil Z) in E.
  cbv zeta. rewrite E.
  destruct (average_total marked_items c' size) as (avg & Ea & Hnil & _);
    [lia | exact Hsize |].
  rewrite Ea. cbn [bind]. eexists. split; [reflexivity |].
  cbn [ClassicalSearch.comparisons ClassicalSearch.found_items
       ClassicalSearch.average_comparisons].
  split; [lia |]. split; [reflexivity |]. split.
  - intros Hlt. destruct Hcase as [(H1 & H2 & H3) | (H1 & _)]; [| lia].
    split; [apply is_marked_In; exact H2 | exact H3].
  - intros ->. split; [| apply Hnil; reflexivity].
    destruct Hcase as [(H1 & H2 & H3) | (H1 & _)]; [| lia].
    discriminate.
Qed.

Lemma classical_search_scans_prefix_witness :
  exists r,
    ClassicalSearch.classical_search [5; 2] 8 = Returned r /\
    0 <= ClassicalSearch.comparisons r <= Z.max 0 8 /\
    ClassicalSearch.found_items r
    = marked_below [5; 2] (ClassicalSearch.comparisons r) /\
    (ClassicalSearch.comparisons r < 8 ->
     In (ClassicalSearch.comparisons r - 1) [5; 2] /\
     len (ClassicalSearch.found_items r) = len [5; 2]) /\
    ([5; 2] = [] ->
     ClassicalSearch.comparisons r = Z.max 0 8 /\
     ClassicalSearch.average_comparisons r
     = PyInt (ClassicalSearch.comparisons r)).
Proof.
  apply (classical_search_scans_prefix [5; 2] 8). reflexivity.
Defined.

Lemma count_reached (marked_items : list Z) :
  marked_items <> [] ->
  forall k,
    len (marked_below marked_items (Z.of_nat k)) = len marked_items ->
    exists j, 0 < j <= Z.of_nat k /\ is_marked marked_items (j - 1) = true /\
              len (marked_below marked_items j) = len marked_items.
Proof.
  intros Hne. induction k as [| k IH]; intros Hlen.
  - exfalso. destruct marked_items; [congruence | discriminate].
  - rewrite Nat2Z.inj_succ in Hlen |- *. unfold Z.succ in Hlen |- *.
    destruct (is_marked marked_items (Z.of_nat k)) eqn:Hm.
    + exists (Z.of_nat k + 1). split; [lia |].
      replace (Z.of_nat k + 1 - 1) with (Z.of_nat k) by lia.
      split; assumption.
    + rewrite marked_below_succ, Hm, app_nil_r in Hlen by lia.
      destruct (IH Hlen) as (j & Hj & H1 & H2).
      exists j. split; [lia | split; assumption].
Qed.

(** When the marked items are distinct indices of the search space,
    [classical_search] finds all of them, reports them in increasing order
    and stops right after the largest one: the number of comparisons is
    the largest marked index plus one. *)
Theorem classical_search_finds_all (marked_items : list Z) (size : Z) :
  marked_items <> [] -> NoDup marked_items ->
  (forall m, In m marked_items -> 0 <= m < size) ->
  size < 2 ^ 971 ->
  exists r q,
    ClassicalSearch.classical_search marked_items size = Returned r /\
    ClassicalSearch.found_items r = marked_below marked_items size /\
    Permutation (ClassicalSearch.found_items r) marked_items /\
    In (ClassicalSearch.comparisons r - 1) marked_items /\
    (forall m, In m marked_items -> m < ClassicalSearch.comparisons r) /\
    PyFloat.int_truediv (ClassicalSearch.comparisons r) (len marked_items)
    = Returned q /\
    ClassicalSearch.average_comparisons r = PyFloatNum q.
Proof.
  intros Hne Hnd Hrange Hsize. unfold ClassicalSearch.classical_search.
  destruct (search_loop_spec marked_items size (Z.to_nat (size - 0)) 0)
    as (c' & E & Hb & Hcase); [lia | reflexivity |].
  change (marked_below marked_items 0) with (@nil Z) in E.
  cbv zeta. rewrite E.
  destruct (average_total marked_items c' size) as (avg & Ea & _ & Hq);
    [lia | exact Hsize |].
  destruct (Hq Hne) as (q & Eq & ->).
  rewrite Ea. cbn [bind]. eexists. exists q. split; [reflexivity |].
  cbn [ClassicalSearch.comparisons ClassicalSearch.found_items
       ClassicalSearch.average_comparisons].
  assert (Hfull : Permutation (marked_below marked_items size) marked_items).
  { apply NoDup_Permutation; [apply NoDup_marked_below | exact Hnd |].
    intros m. rewrite in_marked_below. split; [tauto |].
    intros Hm. split; [exact Hm | apply Hrange; exact Hm]. }
  assert (Hsize0 : 0 < size).
  { destruct marked_items as [| m ?]; [congruence |].
    specialize (Hrange m (or_introl eq_refl)). lia. }
  assert (Hbreak : 0 < c' /\ is_marked marked_items (c' - 1) = true /\
                   len (marked_below marked_items c') = len marked_items).
  { destruct Hcase as [Hbrk | (H1 & H2)]; [exact Hbrk |].
    exfalso.
    destruct (count_reached marked_items Hne (Z.to_nat size))
      as (j & Hj & Hmj & Hlen).
    - rewrite Z2Nat.id by lia. unfold len. f_equal.
      apply Permutation_length. exact Hfull.
    - apply (H2 j); [lia | exact Hmj | exact Hlen]. }
  destruct Hbreak as (Hc0 & Hlast & Hlen).
  assert (Hall : forall m, In m marked_items -> m < c').
  { intros m Hm.
    assert (Hin : In m (marked_below marked_items c')).
    { apply (@NoDup_length_incl Z (marked_below marked_items c')
                                  marked_items).
      - apply NoDup_marked_below.
      - unfold len in Hlen. lia.
      - intros x Hx. apply in_marked_below in Hx. tauto.
      - exact Hm. }
    apply in_marked_below in Hin. lia. }
  assert (Hsame : marked_below marked_items c'
                  = marked_below marked_items size).
  { unfold marked_below. rewrite (py_range_split 0 c' size) by lia.
    rewrite filter_app.
    rewrite (filter_none _ (py_range c' size)), app_nil_r; [reflexivity |].
    intros x Hx. apply in_py_range_inv in Hx.
    destruct (is_marked marked_items x) eqn:Hmx; [| reflexivity].
    apply is_marked_In, Hall in Hmx. lia. }
  split; [exact Hsame |]. split; [rewrite Hsame; exact Hfull |].
  split; [apply is_marked_In; exact Hlast |].
  split; [exact Hall |]. split; [exact Eq | reflexivity].
Qed.

Lemma classical_search_finds_all_witness :
  exists r q,
    ClassicalSearch.classical_search [5; 2] 8 = Returned r /\
    ClassicalSearch.found_items r = marked_below [5; 2] 8 /\
    Permutation (ClassicalSearch.found_items r) [5; 2] /\
    In (ClassicalSearch.comparisons r - 1) [5; 2] /\
    (forall m, In m [5; 2] -> m < ClassicalSearch.comparisons r) /\
    PyFloat.int_truediv (ClassicalSearch.comparisons r) (len [5; 2])
    = Returned q /\
    ClassicalSearch.average_comparisons r = PyFloatNum q.
Proof.
  apply (classical_search_finds_all [5; 2] 8).
  - discriminate.
  - repeat constructor; cbn; lia.
  - intros m [<- | [<- | []]]; lia.
  - reflexivity.
Defined.

(** ** Multiplicative orders exist *)

Lemma coprime_pow_mod_range (a N k : Z) :
  2 <= N -> Z.gcd a N = 1 -> 0 <= k -> 1 <= a ^ k mod N < N.
Proof.
  intros HN Hcop Hk.
  pose proof (Z.mod_pos_bound (a ^ k) N ltac:(lia)) as Hb.
  destruct (Z.eq_dec (a ^ k mod N) 0) as [E | Hne]; [exfalso | lia].
  pose proof (Z.coprime_pow_l a N k Hk Hcop) as Hc. unfold Z.coprime in Hc.
  rewrite <- Z.gcd_mod_l, E in Hc. cbn [Z.gcd] in Hc. lia.
Qed.

Lemma pow_mod_cancel (a N i d : Z) :
  2 <= N -> Z.gcd a N = 1 -> 0 <= i -> 0 <= d ->
  a ^ (i + d) mod N = a ^ i mod N -> a ^ d mod N = 1.
Proof.
  intros HN Hcop Hi Hd E.
  assert (H0 : ((a ^ d - 1) * a ^ i) mod N = 0).
  { replace ((a ^ d - 1) * a ^ i) with (a ^ (i + d) - a ^ i)
      by (rewrite Z.pow_add_r by lia; ring).
    rewrite Zminus_mod, E, Z.sub_diag. apply Z.mod_0_l. lia. }
  apply Z.cong_mul_cancel_r_coprime in H0;
    [| lia | apply Z.coprime_pow_l; assumption].
  replace (a ^ d) with ((a ^ d - 1) + 1) by ring.
  rewrite Zplus_mod, H0. cbn [Z.add]. rewrite Z.mod_mod by lia.
  apply Z.mod_small. lia.
Qed.

(** Among the first [N] powers of a base coprime to [N >= 2] two agree
    modulo [N], so some exponent in [1, N - 1] gives 1. *)
Lemma order_exists (a N : Z) :
  2 <= N -> Z.gcd a N = 1 ->
  exists r, 1 <= r <= N - 1 /\ a ^ r mod N = 1.
Proof.
  intros HN Hcop.
  set (f := fun k : nat => a ^ Z.of_nat k mod N).
  set (l := map f (seq 1 (Z.to_nat N))).
  assert (Hnd : ~ NoDup l).
  { intros Hnd.
    apply NoDup_incl_length with (l' := py_range 1 N) in Hnd.
    - unfold l, py_range in Hnd.
      rewrite !length_map, !length_seq in Hnd. lia.
    - intros x Hx. unfold l in Hx. apply in_map_iff in Hx.
      destruct Hx as (k & <- & _). apply in_py_range.
      apply coprime_pow_mod_range; [assumption | assumption | lia]. }
  apply not_NoDup in Hnd; [| intros x y; unfold Decidable.decidable; lia].
  destruct Hnd as (v & l1 & l2 & l3 & El).
  set (i := List.length l1). set (j := (i + 1 + List.length l2)%nat).
  assert (Hlen : List.length l = Z.to_nat N).
  { unfold l. rewrite length_map, length_seq. reflexivity. }
  assert (Hlen' : (j < Z.to_nat N)%nat).
  { rewrite <- Hlen, El. rewrite !length_app. cbn [List.length].
    rewrite length_app. cbn [List.length]. unfold j, i. lia. }
  assert (Hnth : forall k, (k < Z.to_nat N)%nat -> nth k l 0 = f (1 + k)%nat).
  { intros k Hk. unfold l.
    rewrite (nth_indep _ 0 (f 0%nat))
      by (rewrite length_map, length_seq; exact Hk).
    rewrite map_nth, seq_nth by exact Hk. reflexivity. }
  assert (Hi : nth i l 0 = v).
  { rewrite El. unfold i. rewrite nth_middle. reflexivity. }
  assert (Hj : nth j l 0 = v).
  { rewrite El. unfold j, i.
    rewrite app_nth2 by lia.
    replace (List.length l1 + 1 + List.length l2 - List.length l1)%nat
      with (S (List.length l2)) by lia.
    cbn [nth]. rewrite nth_middle. reflexivity. }
  rewrite Hnth in Hi by (unfold j in Hlen'; lia).
  rewrite Hnth in Hj by exact Hlen'.
  exists (Z.of_nat (j - i)). split; [unfold j in *; lia |].
  apply (pow_mod_cancel a N (Z.of_nat (1 + i))); [assumption | assumption | lia | lia |].
  unfold f in Hi, Hj. rewrite Hi, <- Hj. f_equal. f_equal. unfold j. lia.
Qed.

(** ** The period finders *)

Lemma is_order_unique (a N r r' : Z) :
  is_order a N r -> is_order a N r' -> r = r'.
Proof.
  intros (H1 & H2 & H3) (H1' & H2' & H3').
  destruct (Z.lt_trichotomy r r') as [Hlt | [Heq | Hgt]]; [| exact Heq |].
  - exfalso. apply (H3' r); [lia | exact H2].
  - exfalso. apply (H3 r'); [lia | exact H2'].
Qed.

Lemma classical_period_finding_order (a N : Z) :
  2 <= N -> Z.gcd a N = 1 ->
  exists r, Shor._classical_period_finding a N = Some r /\
            is_order a N r /\ r <= N - 1.
Proof.
  intros HN Hcop.
  unfold Shor._classical_period_finding, Shor._classical_period_finding_iters.
  rewrite Hcop. cbn [Z.eqb Pos.eqb negb].
  destruct (period_loop_spec a N HN (Shor.period_fuel N) (a mod N) 1)
    as (res & k & E & _ & Hnone & Hsome).
  - lia.
  - rewrite Z.pow_1_r. reflexivity.
  - intros r' Hr'. lia.
  - unfold Shor.period_fuel. lia.
  - rewrite E. cbn [fst].
    destruct (order_exists a N HN Hcop) as (r1 & Hr1 & E1).
    destruct res as [r |].
    + exists r. split; [reflexivity |].
      destruct (Hsome r eq_refl) as (_ & Hord). split; [exact Hord |].
      destruct Hord as (_ & _ & Hmin).
      destruct (Z_le_gt_dec r (N - 1)) as [Hle | Hgt]; [exact Hle |].
      exfalso. apply (Hmin r1); [lia | exact E1].
    + exfalso. apply (Hnone eq_refl r1); [lia | exact E1].
Qed.

(** For [N >= 2], [_classical_period_finding] returns [None] exactly when
    [gcd(a, N) != 1]; for a coprime base it returns the multiplicative
    order of [a] modulo [N], which is below [N], so the safety check
    [r > N] of its loop never ends the search. *)
Theorem classical_period_finding_none_iff (a N : Z) :
  2 <= N ->
  (Shor._classical_period_finding a N = None <-> Z.gcd a N <> 1) /\
  (Z.gcd a N = 1 ->
   exists r, Shor._classical_period_finding a N = Some r /\
             is_order a N r /\ r < N).
Proof.
  intros HN. split; [split |].
  - intros Hnone Hcop.
    destruct (classical_period_finding_order a N HN Hcop) as (r & E & _).
    congruence.
  - intros Hncop.
    unfold Shor._classical_period_finding,
      Shor._classical_period_finding_iters.
    destruct (Z.eqb_spec (Z.gcd a N) 1) as [? | _]; [contradiction |].
    reflexivity.
  - intros Hcop.
    destruct (classical_period_finding_order a N HN Hcop)
      as (r & E & Hord & Hr).
    exists r. split; [exact E |]. split; [exact Hord | lia].
Qed.

Lemma classical_period_finding_none_iff_witness :
  (Shor._classical_period_finding 7 15 = None <-> Z.gcd 7 15 <> 1) /\
  (Z.gcd 7 15 = 1 ->
   exists r, Shor._classical_period_finding 7 15 = Some r /\
             is_order 7 15 r /\ r < 15).
Proof.
  apply (classical_period_finding_none_iff 7 15). lia.
Defined.

Lemma find_period_loop_spec (a N : Z) :
  forall fuel r r0,
    1 <= r <= r0 -> is_order a N r0 ->
    (forall r', 1 <= r' < r -> a ^ r' mod N <> 1) ->
    (Z.to_nat (r0 - r) <= fuel)%nat ->
    ShorFactor.find_period_loop fuel a N r = Some r0.
Proof.
  induction fuel as [| fuel IH]; intros r r0 Hr Hord Hmin Hfuel.
  - assert (r = r0) by lia. subst r0.
    cbn [ShorFactor.find_period_loop].
    destruct Hord as (_ & E & _). rewrite E. reflexivity.
  - cbn [ShorFactor.find_period_loop].
    destruct (Z.eqb_spec (a ^ r mod N) 1) as [E | Hne]; cbn [negb].
    + f_equal. destruct Hord as (_ & _ & Hmin0).
      destruct (Z.eq_dec r r0) as [? | Hneq]; [assumption | exfalso].
      apply (Hmin0 r); [lia | exact E].
    + assert (r <> r0).
      { intros ->. destruct Hord as (_ & E & _). contradiction. }
      apply IH; [lia | exact Hord | | lia].
      intros r' Hr'. destruct (Z.eq_dec r' r) as [-> | ?];
        [exact Hne | apply Hmin; lia].
Qed.

Lemma find_period_order (a N : Z) :
  2 <= N -> Z.gcd a N = 1 ->
  exists r, ShorFactor.find_period a N = Some r /\ is_order a N r.
Proof.
  intros HN Hcop.
  destruct (classical_period_finding_order a N HN Hcop)
    as (r & E & Hord & Hr).
  exists r. split; [| exact Hord].
  unfold ShorFactor.find_period.
  apply find_period_loop_spec; [| exact Hord | intros; lia | lia].
  destruct Hord. lia.
Qed.

(** For [N >= 2] and a base coprime to [N], [find_period] ends and returns
    the multiplicative order of [a] modulo [N]: the same value as
    [ShorAlgorithm._classical_period_finding]. *)
Theorem find_period_is_order (a N : Z) :
  2 <= N -> Z.gcd a N = 1 ->
  exists r, ShorFactor.find_period a N = Some r /\ is_order a N r /\
            Shor._classical_period_finding a N = Some r.
Proof.
  intros HN Hcop.
  destruct (find_period_order a N HN Hcop) as (r & E & Hord).
  destruct (classical_period_finding_order a N HN Hcop)
    as (r' & E' & Hord' & _).
  exists r. split; [exact E |]. split; [exact Hord |].
  rewrite E'. f_equal. exact (is_order_unique a N r' r Hord' Hord).
Qed.

Lemma find_period_is_order_witness :
  exists r, ShorFactor.find_period 2 21 = Some r /\ is_order 2 21 r /\
            Shor._classical_period_finding 2 21 = Some r.
Proof.
  apply (find_period_is_order 2 21); [lia | reflexivity].
Defined.

(** ** Euclid's algorithm *)

Lemma gcd_loop_spec :
  forall fuel a b,
    0 <= b -> (b = 0 -> 0 <= a) -> (Z.to_nat b < fuel)%nat ->
    ShorFactor.gcd_loop fuel a b = Some (Z.gcd a b).
Proof.
  induction fuel as [| fuel IH]; intros a b Hb Ha Hfuel; [lia |].
  cbn [ShorFactor.gcd_loop].
  destruct (Z.eqb_spec b 0) as [-> | Hne]; cbn [negb].
  - rewrite Z.gcd_0_r, Z.abs_eq by (apply Ha; reflexivity). reflexivity.
  - pose proof (Z.mod_pos_bound a b ltac:(lia)) as Hm.
    rewrite IH by lia.
    rewrite Z.gcd_mod_r, Z.gcd_comm. reflexivity.
Qed.

Lemma gcd_returns (a b : Z) :
  0 <= b -> (b = 0 -> 0 <= a) ->
  ShorFactor.gcd a b = Some (Z.gcd a b).
Proof.
  intros Hb Ha. unfold ShorFactor.gcd.
  apply gcd_loop_spec; [assumption .. | lia].
Qed.

(** [gcd(a, b)] with [b > 0], or with [b = 0] and [a >= 0], ends and
    returns the greatest common divisor: a non-negative common divisor
    of [a] and [b] that every common divisor divides. *)
Theorem gcd_euclid (a b : Z) :
  0 <= b -> (b = 0 -> 0 <= a) ->
  exists g,
    ShorFactor.gcd a b = Some g /\
    0 <= g /\ (g | a) /\ (g | b) /\
    (forall d, (d | a) -> (d | b) -> (d | g)).
Proof.
  intros Hb Ha. exists (Z.gcd a b).
  split; [apply gcd_returns; assumption |].
  split; [apply Z.gcd_nonneg |].
  split; [apply Z.gcd_divide_l |].
  split; [apply Z.gcd_divide_r |].
  intros d. apply Z.gcd_greatest.
Qed.

Lemma gcd_euclid_witness :
  exists g,
    ShorFactor.gcd 84 36 = Some g /\
    0 <= g /\ (g | 84) /\ (g | 36) /\
    (forall d, (d | 84) -> (d | 36) -> (d | g)).
Proof.
  apply (gcd_euclid 84 36); lia.
Defined.

(** ** Factors from a square root of one *)

Lemma gcd_2_odd (N : Z) : N mod 2 <> 0 -> Z.gcd 2 N = 1.
Proof.
  intros Hodd.
  pose proof (Z.gcd_divide_l 2 N) as Hl.
  pose proof (Z.gcd_divide_r 2 N) as Hr.
  pose proof (Z.gcd_nonneg 2 N) as Hnn.
  set (g := Z.gcd 2 N) in *.
  assert (Hle : g <= 2) by (apply Z.divide_pos_le; [lia | exact Hl]).
  assert (Hg0 : g <> 0).
  { intros E. rewrite E in Hl. apply Z.divide_0_l in Hl. lia. }
  assert (Hg2 : g <> 2).
  { intros E. rewrite E in Hr. apply Hodd.
    apply Z.mod_divide; [lia | exact Hr]. }
  lia.
Qed.

(** For an odd [N > 0] and [x] with [x^2 = 1 (mod N)], the two greatest
    common divisors [gcd(x - 1, N)] and [gcd(x + 1, N)] multiply to [N]. *)
Lemma sqrt_one_factors (x N : Z) :
  0 < N -> N mod 2 <> 0 -> (N | (x - 1) * (x + 1)) ->
  Z.gcd (x - 1) N * Z.gcd (x + 1) N = N.
Proof.
  intros HN Hodd Hsq.
  pose proof (Z.gcd_divide_l (x - 1) N) as Hpl.
  pose proof (Z.gcd_divide_r (x - 1) N) as Hpr.
  pose proof (Z.gcd_divide_l (x + 1) N) as Hql.
  pose proof (Z.gcd_divide_r (x + 1) N) as Hqr.
  pose proof (Z.gcd_nonneg (x - 1) N) as Hp0.
  pose proof (Z.gcd_nonneg (x + 1) N) as Hq0.
  destruct (Z.gcd_bezout (x - 1) N _ eq_refl) as (u & v & Hu).
  destruct (Z.gcd_bezout (x + 1) N _ eq_refl) as (s & t & Hs).
  set (p := Z.gcd (x - 1) N) in *. set (q := Z.gcd (x + 1) N) in *.
  assert (Hcop : Z.gcd q p = 1).
  { pose proof (Z.gcd_divide_l q p) as Hdl.
    pose proof (Z.gcd_divide_r q p) as Hdr.
    pose proof (Z.gcd_nonneg q p) as Hd0.
    set (d := Z.gcd q p) in *.
    assert (Hd2 : (d | 2)).
    { replace 2 with ((x + 1) - (x - 1)) by lia.
      apply Z.divide_sub_r;
        [apply Z.divide_trans with q | apply Z.divide_trans with p];
        assumption. }
    assert (HdN : (d | N)) by (apply Z.divide_trans with p; assumption).
    assert (Hle : d <= 2) by (apply Z.divide_pos_le; [lia | exact Hd2]).
    assert (Hdne0 : d <> 0).
    { intros E. rewrite E in HdN. apply Z.divide_0_l in HdN. lia. }
    assert (Hdne2 : d <> 2).
    { intros E. rewrite E in HdN. apply Hodd.
      apply Z.mod_divide; [lia | exact HdN]. }
    lia. }
  apply Z.divide_antisym_nonneg; [nia | lia | |].
  - destruct Hpr as [k Hk].
    assert (Hqk : (q | k)).
    { apply Z.gauss with p; [| exact Hcop].
      rewrite Z.mul_comm, <- Hk. exact Hqr. }
    destruct Hqk as [k' Hk']. exists k'. rewrite Hk, Hk'. ring.
  - destruct Hsq as [c Hc].
    exists (u * s * c + u * (x - 1) * t + v * s * (x + 1) + v * t * N).
    rewrite <- Hu, <- Hs.
    transitivity (u * s * ((x - 1) * (x + 1))
                  + (u * (x - 1) * t + v * s * (x + 1) + v * t * N) * N);
      [ring | rewrite Hc; ring].
Qed.

Lemma half_power_square (a N r : Z) :
  0 < N -> 1 <= r -> r mod 2 = 0 -> a ^ r mod N = 1 -> 2 <= N ->
  (N | (a ^ (r / 2) - 1) * (a ^ (r / 2) + 1)).
Proof.
  intros HN Hr Heven E H2.
  assert (Hr2 : r = r / 2 + r / 2).
  { pose proof (Z.div_mod r 2 ltac:(lia)). lia. }
  replace ((a ^ (r / 2) - 1) * (a ^ (r / 2) + 1))
    with (a ^ r - 1).
  - apply Z.mod_divide; [lia |].
    rewrite Zminus_mod, E, (Z.mod_small 1 N) by lia. reflexivity.
  - rewrite Hr2 at 1. rewrite Z.pow_add_r by (apply Z.div_pos; lia). ring.
Qed.

Lemma attempt_sound (N a : Z) :
  3 <= N -> N mod 2 <> 0 -> 2 <= a <= N - 1 ->
  proper_factors N (ShorFactor.attempt N a).
Proof.
  intros HN Hodd Ha. unfold ShorFactor.attempt.
  rewrite gcd_returns by lia.
  pose proof (Z.gcd_divide_l a N) as Hgl.
  pose proof (Z.gcd_divide_r a N) as Hgr.
  pose proof (Z.gcd_nonneg a N) as Hg0.
  destruct (Z.gtb_spec (Z.gcd a N) 1) as [Hgt | Hle].
  { cbn [proper_factors]. split; [| exact Hgr].
    apply Z.divide_pos_le in Hgl; lia. }
  assert (Hcop : Z.gcd a N = 1).
  { destruct (Z.eq_dec (Z.gcd a N) 0) as [E | ?]; [| lia].
    rewrite E in Hgr. apply Z.divide_0_l in Hgr. lia. }
  destruct (find_period_order a N ltac:(lia) Hcop) as (r & Er & Hord).
  rewrite Er.
  destruct (Z.eqb_spec (r mod 2) 0) as [Heven | ?]; cbn [negb];
    [| exact I].
  destruct (Z.eqb_spec (a ^ (r / 2) mod N) (N - 1)) as [? | Hx];
    [exact I |].
  rewrite !gcd_returns by lia.
  set (x := a ^ (r / 2) mod N) in *.
  destruct ((Z.gcd (x - 1) N >? 1) && (Z.gcd (x + 1) N >? 1)) eqn:Hpq;
    [| exact I].
  apply andb_true_iff in Hpq. destruct Hpq as [Hp Hq].
  apply Z.gtb_lt in Hp, Hq.
  cbn [proper_factors].
  assert (Hprod : Z.gcd (x - 1) N * Z.gcd (x + 1) N = N).
  { apply sqrt_one_factors; [lia | exact Hodd |].
    destruct Hord as (Hr1 & E1 & _).
    apply Z.mod_divide; [lia |].
    replace ((x - 1) * (x + 1)) with (x * x - 1) by ring.
    unfold x. rewrite Zminus_mod, <- Zmult_mod.
    pose proof (half_power_square a N r ltac:(lia) Hr1 Heven E1 ltac:(lia))
      as Hdiv.
    apply Z.mod_divide in Hdiv; [| lia].
    replace (a ^ (r / 2) * a ^ (r / 2))
      with ((a ^ (r / 2) - 1) * (a ^ (r / 2) + 1) + 1) by ring.
    rewrite <- Zminus_mod.
    replace ((a ^ (r / 2) - 1) * (a ^ (r / 2) + 1) + 1 - 1)
      with ((a ^ (r / 2) - 1) * (a ^ (r / 2) + 1)) by ring.
    exact Hdiv. }
  split; [nia |]. split; [nia | exact Hprod].
Qed.

Lemma retry_loop_sound (N : Z) (draws : list Z) :
  3 <= N -> N mod 2 <> 0 ->
  Forall (fun a => 2 <= a <= N - 1) draws ->
  proper_factors N (ShorFactor.retry_loop N draws).
Proof.
  intros HN Hodd. induction 1 as [| a draws Ha _ IH]; [exact I |].
  cbn [ShorFactor.retry_loop].
  pose proof (attempt_sound N a HN Hodd Ha) as Hatt.
  destruct (ShorFactor.attempt N a) as [res | |]; assumption.
Qed.

(** Whatever [shor_factor] returns for [N >= 3] is a proper factorisation:
    a single factor [g] has [1 < g < N] and divides [N]; a pair [(p, q)]
    has [1 < p, q < N] and [p * q = N].  The loops of [gcd] and
    [find_period] always end. *)
Theorem shor_factor_sound (N : Z) (draws : list Z) :
  3 <= N ->
  Forall (fun a => 2 <= a <= N - 1) draws ->
  proper_factors N (ShorFactor.shor_factor N draws).
Proof.
  intros HN Hdraws. unfold ShorFactor.shor_factor.
  destruct (Z.eqb_spec (N mod 2) 0) as [Heven | Hodd].
  - cbn [proper_factors]. split; [lia |].
    apply Z.mod_divide; [lia | exact Heven].
  - apply retry_loop_sound; assumption.
Qed.

Lemma shor_factor_sound_witness :
  proper_factors 15 (ShorFactor.shor_factor 15 [14; 4]).
Proof.
  apply (shor_factor_sound 15 [14; 4]); [lia |].
  repeat constructor; lia.
Defined.

(** On an odd prime [shor_factor] never returns: every draw has an odd
    period or a half power equal to [-1], so the [while True] loop goes
    on for any number of draws. *)
Theorem shor_factor_prime_never_returns (N : Z) (draws : list Z) :
  Z.prime N -> N mod 2 <> 0 ->
  Forall (fun a => 2 <= a <= N - 1) draws ->
  ShorFactor.shor_factor N draws = ShorFactor.StillLooping.
Proof.
  intros Hprime Hodd Hdraws.
  assert (HN : 3 <= N).
  { pose proof (Z.prime_ge_2 N Hprime).
    destruct (Z.eq_dec N 2) as [-> | ?]; [exfalso; apply Hodd; reflexivity | lia]. }
  unfold ShorFactor.shor_factor.
  destruct (Z.eqb_spec (N mod 2) 0) as [? | _]; [contradiction |].
  induction Hdraws as [| a draws Ha _ IH]; [reflexivity |].
  cbn [ShorFactor.retry_loop].
  pose proof (attempt_sound N a HN Hodd Ha) as Hatt.
  destruct Hprime as [_ Hnodiv].
  destruct (ShorFactor.attempt N a) as [[g | p q] | |];
    cbn [proper_factors] in Hatt.
  - exfalso. destruct Hatt as [Hg Hdiv]. exact (Hnodiv g Hg Hdiv).
  - exfalso. destruct Hatt as (Hp & Hq & Hpq).
    apply (Hnodiv p Hp). exists q. lia.
  - exact IH.
  - contradiction.
Qed.

Lemma shor_factor_prime_never_returns_witness :
  ShorFactor.shor_factor 13 [2; 5; 12] = ShorFactor.StillLooping.
Proof.
  apply (shor_factor_prime_never_returns 13 [2; 5; 12]).
  - split; [lia |]. intros n Hn Hdiv.
    apply Z.mod_divide in Hdiv; [| lia].
    assert (Hc : n = 2 \/ n = 3 \/ n = 4 \/ n = 5 \/ n = 6 \/ n = 7 \/
                 n = 8 \/ n = 9 \/ n = 10 \/ n = 11 \/ n = 12) by lia.
    repeat (destruct Hc as [-> | Hc]; [discriminate Hdiv |]).
    subst n. discriminate Hdiv.
  - discriminate.
  - repeat constructor; lia.
Defined.

(** ** The base chosen by default *)

Lemma find_py_range (f : Z -> bool) :
  forall n lo hi,
    n = Z.to_nat (hi - lo) ->
    match find f (py_range lo hi) with
    | Some a => lo <= a < hi /\ f a = true /\
                forall b, lo <= b < a -> f b = false
    | None => forall b, lo <= b < hi -> f b = false
    end.
Proof.
  induction n as [| n IH]; intros lo hi Hn.
  - rewrite py_range_nil by lia. cbn [find]. intros b Hb. lia.
  - rewrite py_range_cons by lia. cbn [find].
    destruct (f lo) eqn:Hlo.
    + split; [lia |]. split; [exact Hlo |]. intros b Hb. lia.
    + specialize (IH (lo + 1) hi ltac:(lia)).
      destruct (find f (py_range (lo + 1) hi)) as [a |].
      * destruct IH as (Ha & Hfa & Hmin). split; [lia |].
        split; [exact Hfa |]. intros b Hb.
        destruct (Z.eq_dec b lo) as [-> | ?]; [exact Hlo | apply Hmin; lia].
      * intros b Hb.
        destruct (Z.eq_dec b lo) as [-> | ?]; [exact Hlo | apply IH; lia].
Qed.

(** [_find_coprime] returns the smallest [a >= 2] coprime to [N] whenever
    [N >= 3]; this is 2 for every odd [N], and the fallback [return 2] is
    reached only for [N <= 2]. *)
Theorem find_coprime_least (N : Z) :
  (3 <= N ->
   2 <= Shor._find_coprime N < N /\
   Z.gcd (Shor._find_coprime N) N = 1 /\
   forall b, 2 <= b < Shor._find_coprime N -> Z.gcd b N <> 1) /\
  (N <= 2 \/ N mod 2 <> 0 -> Shor._find_coprime N = 2).
Proof.
  pose proof (find_py_range (fun a => Z.gcd a N =? 1)
                (Z.to_nat (N - 2)) 2 N eq_refl) as Hfind.
  unfold Shor._find_coprime.
  destruct (find (fun a => Z.gcd a N =? 1) (py_range 2 N)) as [a |].
  - destruct Hfind as (Ha & Hfa & Hmin). apply Z.eqb_eq in Hfa.
    split.
    + intros _. split; [exact Ha |]. split; [exact Hfa |].
      intros b Hb. apply Z.eqb_neq. apply Hmin. exact Hb.
    + intros [Hle | Hodd]; [lia |].
      destruct (Z.eq_dec a 2) as [? | Hne]; [assumption | exfalso].
      assert (H2 : (Z.gcd 2 N =? 1) = false) by (apply Hmin; lia).
      apply Z.eqb_neq in H2. apply H2. apply gcd_2_odd. exact Hodd.
  - split; [| reflexivity].
    intros HN. exfalso.
    assert (H1 : (Z.gcd (N - 1) N =? 1) = false) by (apply Hfind; lia).
    apply Z.eqb_neq in H1. apply H1.
    apply Z.coprime_Bezout. exists (-1), 1. ring.
Qed.

Lemma find_coprime_least_witness :
  (3 <= 12 ->
   2 <= Shor._find_coprime 12 < 12 /\
   Z.gcd (Shor._find_coprime 12) 12 = 1 /\
   forall b, 2 <= b < Shor._find_coprime 12 -> Z.gcd b 12 <> 1) /\
  (12 <= 2 \/ 12 mod 2 <> 0 -> Shor._find_coprime 12 = 2).
Proof.
  exact (find_coprime_least 12).
Defined.

(** ** What [run] reports *)

Lemma gcd_times_quotient (x N : Z) :
  N <> 0 -> Z.gcd x N * (N / Z.gcd x N) = N.
Proof.
  intros HN.
  pose proof (Z.gcd_divide_r x N) as [k Hk].
  assert (Hg : Z.gcd x N <> 0).
  { intros E. rewrite E in Hk. lia. }
  rewrite Hk at 2. rewrite Z.div_mul by exact Hg. lia.
Qed.

Lemma gcd_proper (x N : Z) :
  0 < N -> Z.gcd x N <> 1 -> Z.gcd x N <> N ->
  1 < Z.gcd x N < N /\ 1 < N / Z.gcd x N < N.
Proof.
  intros HN H1 H2.
  pose proof (gcd_times_quotient x N ltac:(lia)) as Hprod.
  pose proof (Z.gcd_nonneg x N) as H0.
  set (g := Z.gcd x N) in *. set (q := N / g) in *.
  assert (Hg0 : g <> 0) by (intros E; rewrite E in Hprod; lia).
  assert (Hq : 1 < q).
  { destruct (Z_lt_le_dec 1 q) as [? | Hle]; [assumption | exfalso].
    assert (q = 1 \/ q <= 0) by lia. nia. }
  nia.
Qed.

(** Whenever [run] reports factors, they are two numbers whose product is
    [N]; when the method is 'quantum' and [N > 0], both lie strictly
    between 1 and [N]. *)
Theorem shor_run_factors_multiply (N : Z) (a : option Z) (fs : list Z) :
  Shor.factors (fst (Shor.run N a)) = Some fs ->
  exists p q,
    fs = [p; q] /\ p * q = N /\
    (Shor.method (fst (Shor.run N a)) = Some "quantum" -> 0 < N ->
     1 < p < N /\ 1 < q < N).
Proof.
  unfold Shor.run.
  destruct (Z.eqb_spec (N mod 2) 0) as [Heven | Hodd].
  { cbn [fst Shor.factors Shor.method]. intros E. inversion E; subst fs.
    exists 2, (N / 2). split; [reflexivity |].
    split; [| discriminate].
    pose proof (Z.div_mod N 2 ltac:(lia)). lia. }
  assert (HN0 : N <> 0) by (intros ->; apply Hodd; reflexivity).
  destruct (Z.gtb_spec N 21) as [? | Hsmall];
    [cbn [fst Shor.factors]; discriminate |].
  set (a0 := match a with Some a => a | None => Shor._find_coprime N end).
  cbv zeta.
  destruct (Z.eqb_spec (Z.gcd a0 N) 1) as [Hcop | Hncop]; cbn [negb].
  2:{ cbn [fst Shor.factors Shor.method]. intros E. inversion E; subst fs.
      exists (Z.gcd a0 N), (N / Z.gcd a0 N). split; [reflexivity |].
      split; [apply gcd_times_quotient; exact HN0 | discriminate]. }
  destruct (Shor._quantum_period_finding a0 N) as [r |];
    [| cbn [fst Shor.factors]; discriminate].
  destruct (negb (r mod 2 =? 0));
    [cbn [fst Shor.factors]; discriminate |].
  destruct (Z.eqb_spec (Z.gcd (a0 ^ (r / 2) - 1) N) 1) as [E1 | H1];
    destruct (Z.eqb_spec (Z.gcd (a0 ^ (r / 2) - 1) N) N) as [E1' | H1'];
    cbn [negb andb].
  4:{ cbn [fst Shor.factors Shor.method]. intros E. inversion E; subst fs.
      do 2 eexists. split; [reflexivity |].
      split; [apply gcd_times_quotient; exact HN0 |].
      intros _ HN. apply gcd_proper; assumption. }
  all: destruct (Z.eqb_spec (Z.gcd (a0 ^ (r / 2) + 1) N) 1) as [E2 | H2];
    destruct (Z.eqb_spec (Z.gcd (a0 ^ (r / 2) + 1) N) N) as [E2' | H2'];
    cbn [negb andb fst Shor.factors Shor.method]; try discriminate.
  all: intros E; inversion E; subst fs.
  all: do 2 eexists; (split; [reflexivity |]).
  all: split; [apply gcd_times_quotient; exact HN0 |].
  all: intros _ HN; apply gcd_proper; assumption.
Qed.

Lemma shor_run_factors_multiply_witness :
  exists p q,
    [3; 5] = [p; q] /\ p * q = 15 /\
    (Shor.method (fst (Shor.run 15 (Some 7))) = Some "quantum" -> 0 < 15 ->
     1 < p < 15 /\ 1 < q < 15).
Proof.
  apply (shor_run_factors_multiply 15 (Some 7) [3; 5]). reflexivity.
Defined.

(** For an odd [2 <= N <= 21] and a base coprime to [N] whose period [r]
    is even with [a^(r/2) != -1 (mod N)], [run] succeeds, and always
    through its first candidate [gcd(a^(r/2) - 1, N)], which lies strictly
    between 1 and [N]; the second candidate is never needed. *)
Theorem shor_attempt_succeeds (N a r : Z) :
  2 <= N <= 21 -> N mod 2 <> 0 -> Z.gcd a N = 1 ->
  Shor._quantum_period_finding a N = Some r ->
  r mod 2 = 0 -> (a ^ (r / 2) + 1) mod N <> 0 ->
  let factor1 := Z.gcd (a ^ (r / 2) - 1) N in
  Shor.run N (Some a)
  = ({| Shor.factors := Some [factor1; N / factor1];
        Shor.period := Some (Some r); Shor.base := Some a;
        Shor.method := Some "quantum"; Shor.error := None |},
     [Shor.PeriodFinding a N]) /\
  1 < factor1 < N.
Proof.
  intros HN Hodd Hcop Hr Heven Hminus factor1.
  destruct (classical_period_finding_order a N ltac:(lia) Hcop)
    as (r0 & E0 & Hord & _).
  unfold Shor._quantum_period_finding in Hr.
  assert (r0 = r) by congruence. subst r0.
  destruct Hord as (Hr1 & E1 & Hmin).
  pose proof (half_power_square a N r ltac:(lia) Hr1 Heven E1 ltac:(lia))
    as Hsq.
  assert (Hhalf : 1 <= r / 2 < r).
  { pose proof (Z.div_mod r 2 ltac:(lia)). lia. }
  assert (Hf1 : factor1 <> 1).
  { intros E. apply Hminus. apply Z.mod_divide; [lia |].
    apply Z.gauss with (a ^ (r / 2) - 1); [exact Hsq |].
    rewrite Z.gcd_comm. exact E. }
  assert (HfN : factor1 <> N).
  { intros E. apply (Hmin (r / 2) Hhalf).
    assert (Hdiv : (N | a ^ (r / 2) - 1)).
    { rewrite <- E. apply Z.gcd_divide_l. }
    apply Z.mod_divide in Hdiv; [| lia].
    replace (a ^ (r / 2)) with ((a ^ (r / 2) - 1) + 1) by ring.
    rewrite Zplus_mod, Hdiv. cbn [Z.add]. rewrite Z.mod_mod by lia.
    apply Z.mod_small. lia. }
  split.
  - unfold Shor.run.
    destruct (Z.eqb_spec (N mod 2) 0) as [? | _]; [contradiction |].
    destruct (Z.gtb_spec N 21) as [? | _]; [lia |].
    rewrite Hcop. cbn [Z.eqb Pos.eqb negb]. cbv zeta.
    unfold Shor._quantum_period_finding. rewrite E0.
    rewrite Heven. cbn [Z.eqb negb]. fold factor1.
    destruct (Z.eqb_spec factor1 1) as [? | _]; [contradiction |].
    destruct (Z.eqb_spec factor1 N) as [? | _]; [contradiction |].
    reflexivity.
  - apply gcd_proper; [lia | exact Hf1 | exact HfN].
Qed.

Lemma shor_attempt_succeeds_witness :
  let factor1 := Z.gcd (2 ^ (6 / 2) - 1) 21 in
  Shor.run 21 (Some 2)
  = ({| Shor.factors := Some [factor1; 21 / factor1];
        Shor.period := Some (Some 6); Shor.base := Some 2;
        Shor.method := Some "quantum"; Shor.error := None |},
     [Shor.PeriodFinding 2 21]) /\
  1 < factor1 < 21.
Proof.
  apply (shor_attempt_succeeds 21 2 6).
  - lia.
  - discriminate.
  - reflexivity.
  - reflexivity.
  - reflexivity.
  - discriminate.
Defined.

Lemma find_coprime_odd (N : Z) :
  N mod 2 <> 0 -> Shor._find_coprime N = 2.
Proof.
  intros Hodd.
  pose proof (find_py_range (fun a => Z.gcd a N =? 1)
                (Z.to_nat (N - 2)) 2 N eq_refl) as Hfind.
  unfold Shor._find_coprime.
  destruct (find (fun a => Z.gcd a N =? 1) (py_range 2 N)) as [a |];
    [| reflexivity].
  destruct Hfind as (Ha & _ & Hmin).
  destruct (Z.eq_dec a 2) as [? | Hne]; [assumption | exfalso].
  assert (H2 : (Z.gcd 2 N =? 1) = false) by (apply Hmin; lia).
  apply Z.eqb_neq in H2. apply H2. apply gcd_2_odd. exact Hodd.
Qed.

Lemma shor_default_negative (N : Z) :
  N < 0 -> N mod 2 <> 0 ->
  Shor.factors (fst (Shor.run N None)) = None.
Proof.
  intros Hneg Hodd. unfold Shor.run.
  destruct (Z.eqb_spec (N mod 2) 0) as [? | _]; [contradiction |].
  destruct (Z.gtb_spec N 21) as [? | _]; [lia |].
  rewrite (find_coprime_odd N Hodd), (gcd_2_odd N Hodd).
  cbn [Z.eqb Pos.eqb negb]. cbv zeta.
  unfold Shor._quantum_period_finding, Shor._classical_period_finding,
    Shor._classical_period_finding_iters.
  rewrite (gcd_2_odd N Hodd). cbn [Z.eqb Pos.eqb negb].
  unfold Shor.period_fuel. replace (Z.to_nat N) with 0%nat by lia.
  cbn [Shor.period_loop].
  pose proof (Z.mod_neg_bound 2 N Hneg) as Hb.
  destruct (Z.eqb_spec (2 mod N) 1) as [? | _]; [lia |].
  cbn [negb].
  destruct (Z.gtb_spec (1 + 1) N) as [_ | ?]; [| lia].
  reflexivity.
Qed.

(** With the default base, the only odd numbers for which [run] reports
    factors are 15 and 21: every other odd [N] gets a failure record (no
    period for [N <= 1], an unusable period of base 2 for the remaining
    [N <= 21], 'N too large' above 21). *)
Theorem shor_default_base_factors_only_15_21 (N : Z) :
  N mod 2 <> 0 ->
  (Shor.factors (fst (Shor.run N None)) <> None <-> N = 15 \/ N = 21) /\
  (N = 15 -> Shor.factors (fst (Shor.run N None)) = Some [3; 5]) /\
  (N = 21 -> Shor.factors (fst (Shor.run N None)) = Some [7; 3]).
Proof.
  intros Hodd.
  split; [| split; intros ->; reflexivity].
  destruct (Z_lt_le_dec N 0) as [Hneg | Hpos].
  { rewrite (shor_default_negative N Hneg Hodd). split; [congruence | lia]. }
  destruct (Z_lt_le_dec 21 N) as [Hbig | Hsmall].
  { unfold Shor.run.
    destruct (Z.eqb_spec (N mod 2) 0) as [? | _]; [contradiction |].
    destruct (Z.gtb_spec N 21) as [_ | ?]; [| lia].
    cbn [fst Shor.factors]. split; [congruence | lia]. }
  assert (Hcases : N = 1 \/ N = 3 \/ N = 5 \/ N = 7 \/ N = 9 \/ N = 11 \/
                   N = 13 \/ N = 15 \/ N = 17 \/ N = 19 \/ N = 21).
  { clear - Hodd Hpos Hsmall. Z.div_mod_to_equations. lia. }
  repeat (destruct Hcases as [-> | Hcases];
          [first [ match goal with
                   | |- Shor.factors ?t <> None <-> _ =>
                       assert (E : Shor.factors t = None)
                         by (vm_compute; reflexivity);
                       rewrite E; split; [congruence | lia]
                   end
                 | split; [intros _; lia | intros _; vm_compute; discriminate] ] |]).
  subst N. split; [intros _; lia | intros _; vm_compute; discriminate].
Qed.

Lemma shor_default_base_factors_only_15_21_witness :
  (Shor.factors (fst (Shor.run 9 None)) <> None <-> 9 = 15 \/ 9 = 21) /\
  (9 = 15 -> Shor.factors (fst (Shor.run 9 None)) = Some [3; 5]) /\
  (9 = 21 -> Shor.factors (fst (Shor.run 9 None)) = Some [7; 3]).
Proof.
  apply (shor_default_base_factors_only_15_21 9). discriminate.
Defined.

(** ** The oracle and the bits of the marked index *)

(** The oracle for one marked index [0 <= m < 2^n] flips exactly the
    qubits at which [m] has a zero bit (qubit [i] standing for bit [i]),
    applies the multi-controlled Z and flips the same qubits back. *)
Theorem oracle_flips_zero_bits (n m : Z) :
  1 <= n -> 0 <= m < 2 ^ n ->
  (exists mcz,
      multi_controlled_z n = Returned mcz /\
      marking_oracle [m] n
      = Returned (map G_x (zero_bits n m) ++ mcz ++
                  map G_x (zero_bits n m))) /\
  (forall i, In i (zero_bits n m) <-> 0 <= i < n /\ Z.testbit m i = false).
Proof.
  intros Hn Hm. split.
  - destruct (multi_controlled_z_returned n Hn) as [mcz Emcz].
    exists mcz. split; [exact Emcz |].
    unfold marking_oracle. cbn [for_each]. cbv zeta.
    rewrite x_on_zero_bits_format by assumption.
    rewrite Emcz. cbn [bind]. rewrite app_nil_r. reflexivity.
  - intros i. unfold zero_bits. rewrite filter_In, negb_true_iff.
    split.
    + intros [Hi Hb]. apply in_py_range_inv in Hi. split; [lia | exact Hb].
    + intros [Hi Hb]. split; [apply in_py_range; lia | exact Hb].
Qed.

Lemma oracle_flips_zero_bits_witness :
  (exists mcz,
      multi_controlled_z 4 = Returned mcz /\
      marking_oracle [5] 4
      = Returned (map G_x (zero_bits 4 5) ++ mcz ++
                  map G_x (zero_bits 4 5))) /\
  (forall i, In i (zero_bits 4 5) <-> 0 <= i < 4 /\ Z.testbit 5 i = false).
Proof.
  apply (oracle_flips_zero_bits 4 5); lia.
Defined.

(** ** Circuits stay within their registers *)

Lemma in_register_iff (n q : Z) : in_register n q = true <-> 0 <= q < n.
Proof.
  unfold in_register. rewrite andb_true_iff, Z.leb_le, Z.ltb_lt. tauto.
Qed.

Lemma distinct_NoDup (l : list Z) : NoDup l -> distinct l = true.
Proof.
  induction 1 as [| x l Hx _ IH]; [reflexivity |].
  cbn [distinct]. rewrite IH, andb_true_r. apply negb_true_iff.
  destruct (existsb (Z.eqb x) l) eqn:E; [| reflexivity].
  exfalso. apply Hx. apply existsb_exists in E.
  destruct E as (y & Hy & Exy). apply Z.eqb_eq in Exy. subst y. exact Hy.
Qed.

Lemma forallb_in_register_range (n hi : Z) :
  hi <= n -> forallb (in_register n) (py_range 0 hi) = true.
Proof.
  intros H. apply forallb_forall. intros q Hq.
  apply in_py_range_inv in Hq. apply in_register_iff. lia.
Qed.

(** [qr[i]], when it does not raise, is a position of the register. *)
Lemma qubit_returned (n i q : Z) : qubit n i = Returned q -> 0 <= q < n.
Proof.
  unfold qubit.
  destruct (Z.leb_spec 0 i), (Z.ltb_spec i n); cbn [andb];
    try (intros [= <-]; lia);
    destruct (Z.leb_spec (- n) i), (Z.ltb_spec i 0); cbn [andb];
    try discriminate; intros [= <-]; lia.
Qed.

Lemma one_qubit_gate_fits (nq nc q : Z) (g : gate) :
  gate_qubits g = [q] -> gate_clbits g = [] -> 0 <= q < nq ->
  gate_fits nq nc g = true.
Proof.
  intros Hq Hc Hl. unfold gate_fits. rewrite Hq, Hc.
  cbn [forallb distinct existsb negb andb].
  rewrite (proj2 (in_register_iff nq q) Hl). reflexivity.
Qed.

Lemma two_qubit_gate_fits (nq nc c t : Z) (g : gate) :
  gate_qubits g = [c; t] -> gate_clbits g = [] ->
  0 <= c < nq -> 0 <= t < nq -> c <> t ->
  gate_fits nq nc g = true.
Proof.
  intros Hq Hcl Hc Ht Hne. unfold gate_fits. rewrite Hq, Hcl.
  cbn [forallb distinct existsb negb andb orb].
  rewrite (proj2 (in_register_iff nq c) Hc),
    (proj2 (in_register_iff nq t) Ht).
  destruct (Z.eqb_spec c t); [contradiction | reflexivity].
Qed.

Lemma one_qubit_gates_fit (nq nc : Z) (mk : Z -> gate) (l : list Z) :
  (forall q, gate_qubits (mk q) = [q]) ->
  (forall q, gate_clbits (mk q) = []) ->
  (forall q, In q l -> 0 <= q < nq) ->
  forallb (gate_fits nq nc) (map mk l) = true.
Proof.
  intros Hq Hc Hl. apply forallb_forall. intros g Hg.
  apply in_map_iff in Hg. destruct Hg as (q & <- & Hin).
  apply (one_qubit_gate_fits nq nc q); auto.
Qed.

(** A loop whose bodies only append fitting gates appends fitting
    gates. *)
Lemma for_each_fits {A : Type} (nq nc : Z)
      (body : A -> py_result (list gate)) (l : list A) :
  (forall x gs, In x l -> body x = Returned gs ->
                forallb (gate_fits nq nc) gs = true) ->
  forall gs, for_each body l = Returned gs ->
             forallb (gate_fits nq nc) gs = true.
Proof.
  induction l as [| x l IH]; intros Hbody gs E; cbn [for_each] in E.
  - injection E as <-. reflexivity.
  - destruct (body x) as [g |] eqn:Ex; [| discriminate E].
    cbn [bind] in E.
    destruct (for_each body l) as [rest |] eqn:El; [| discriminate E].
    cbn [bind] in E. injection E as <-.
    rewrite forallb_app.
    rewrite (Hbody x g (or_introl eq_refl) Ex).
    rewrite (IH (fun y gs' Hy => Hbody y gs' (or_intror Hy)) rest eq_refl).
    reflexivity.
Qed.

Lemma h_all_fits (nq nc n : Z) (gs : list gate) :
  n <= nq -> h_all n = Returned gs ->
  forallb (gate_fits nq nc) gs = true.
Proof.
  intros H E. unfold h_all in E.
  assert (E' : gs = map G_h (py_range 0 n))
    by (destruct (py_range 0 n); [discriminate E | congruence]).
  subst gs. apply one_qubit_gates_fit; try reflexivity.
  intros q Hq. apply in_py_range_inv in Hq. lia.
Qed.

Lemma x_all_fits (nq nc n : Z) (gs : list gate) :
  n <= nq -> x_all n = Returned gs ->
  forallb (gate_fits nq nc) gs = true.
Proof.
  intros H E. unfold x_all in E.
  assert (E' : gs = map G_x (py_range 0 n))
    by (destruct (py_range 0 n); [discriminate E | congruence]).
  subst gs. apply one_qubit_gates_fit; try reflexivity.
  intros q Hq. apply in_py_range_inv in Hq. lia.
Qed.

Lemma measure_all_fits (nq nc n : Z) :
  n <= nq -> n <= nc -> forallb (gate_fits nq nc) (measure_all n) = true.
Proof.
  intros Hq Hc. apply forallb_forall. intros g Hg.
  unfold measure_all in Hg. apply in_map_iff in Hg.
  destruct Hg as (q & <- & Hin). apply in_py_range_inv in Hin.
  unfold gate_fits. cbn [gate_qubits gate_clbits forallb distinct existsb
                         negb andb].
  rewrite (proj2 (in_register_iff nq q)), (proj2 (in_register_iff nc q))
    by lia.
  reflexivity.
Qed.

Lemma multi_controlled_z_fits (n nc : Z) (gs : list gate) :
  multi_controlled_z n = Returned gs ->
  forallb (gate_fits n nc) gs = true.
Proof.
  unfold multi_controlled_z.
  destruct (Z.eqb_spec n 1) as [-> | H1];
    [intros [= <-]; reflexivity |].
  destruct (Z.eqb_spec n 2) as [-> | H2];
    [intros [= <-]; reflexivity |].
  destruct (qubit n (n - 1)) as [target |] eqn:Et; [| discriminate].
  cbn [bind]. intros [= <-].
  pose proof (qubit_returned _ _ _ Et) as Ht.
  assert (Hh : gate_fits n nc (G_h target) = true)
    by (apply (one_qubit_gate_fits n nc target); auto).
  cbn [forallb]. rewrite Hh. cbn [andb]. rewrite andb_true_r.
  unfold gate_fits. cbn [gate_qubits gate_clbits forallb]. rewrite andb_true_r.
  replace (py_range 0 (n - 1) ++ [n - 1]) with (py_range 0 n)
    by (rewrite <- py_range_snoc by lia; f_equal; lia).
  rewrite forallb_in_register_range by lia.
  rewrite distinct_NoDup by apply NoDup_py_range. reflexivity.
Qed.

Lemma x_on_zero_bits_fits (n nc : Z) (binary : string) (gs : list gate) :
  x_on_zero_bits n binary = Returned gs ->
  forallb (gate_fits n nc) gs = true.
Proof.
  unfold x_on_zero_bits. apply for_each_fits.
  intros [i b] g _. cbn [fst snd].
  destruct (Ascii.eqb b "0"); [| intros [= <-]; reflexivity].
  destruct (qubit n i) as [q |] eqn:Eq; [| discriminate].
  cbn [bind]. intros [= <-]. cbn [forallb]. rewrite andb_true_r.
  apply (one_qubit_gate_fits n nc q); auto.
  exact (qubit_returned _ _ _ Eq).
Qed.

Lemma marking_oracle_fits (n nc : Z) (marked_items : list Z)
      (gs : list gate) :
  marking_oracle marked_items n = Returned gs ->
  forallb (gate_fits n nc) gs = true.
Proof.
  unfold marking_oracle. apply for_each_fits.
  intros m g _. cbv zeta.
  destruct (x_on_zero_bits n (format_0b n m)) as [flip |] eqn:Ef;
    [| discriminate].
  cbn [bind].
  destruct (multi_controlled_z n) as [mcz |] eqn:Em; [| discriminate].
  cbn [bind]. intros [= <-].
  rewrite !forallb_app.
  rewrite (x_on_zero_bits_fits n nc _ _ Ef).
  rewrite (multi_controlled_z_fits n nc _ Em). reflexivity.
Qed.

Lemma diffusion_fits (n nc : Z) (gs : list gate) :
  _diffusion n = Returned gs -> forallb (gate_fits n nc) gs = true.
Proof.
  unfold _diffusion.
  destruct (h_all n) as [h |] eqn:Eh; [| discriminate]. cbn [bind].
  destruct (x_all n) as [x |] eqn:Ex; [| discriminate]. cbn [bind].
  destruct (multi_controlled_z n) as [mcz |] eqn:Em; [| discriminate].
  cbn [bind]. intros [= <-]. rewrite !forallb_app.
  rewrite (h_all_fits n nc n h (Z.le_refl n) Eh).
  rewrite (x_all_fits n nc n x (Z.le_refl n) Ex).
  rewrite (multi_controlled_z_fits n nc _ Em). reflexivity.
Qed.

Lemma repeat_gates_fits (nq nc k : Z) (body : py_result (list gate))
      (gs : list gate) :
  (forall g, body = Returned g -> forallb (gate_fits nq nc) g = true) ->
  repeat_gates k body = Returned gs ->
  forallb (gate_fits nq nc) gs = true.
Proof.
  intros Hbody. unfold repeat_gates.
  destruct (Z.to_nat k) as [| j]; [intros [= <-]; reflexivity |].
  destruct body as [g |]; [| discriminate]. cbn [bind].
  assert (H : forallb (gate_fits nq nc) g = true)
    by (apply Hbody; reflexivity).
  generalize (S j). intros i [= <-].
  induction i as [| i IH]; [reflexivity |].
  cbn [repeat List.concat]. rewrite forallb_app, H, IH. reflexivity.
Qed.

(** Every search circuit that is built, for whatever marked items, has
    [n] qubits and [n] classical bits and consists of fitting gates. *)
Lemma search_circuit_fits (n k : Z) (marked_items : list Z)
      (qc : QuantumCircuit) :
  search_circuit marking_oracle marked_items n k = Returned qc ->
  num_qubits qc = n /\ num_clbits qc = n /\ circuit_fits qc = true.
Proof.
  unfold search_circuit.
  destruct (h_all n) as [h |] eqn:Eh; [| discriminate]. cbn [bind].
  destruct (repeat_gates k _) as [its |] eqn:Ei; [| discriminate].
  cbn [bind]. intros [= <-]. split; [reflexivity |]. split; [reflexivity |].
  unfold circuit_fits. cbn [num_qubits num_clbits gates].
  rewrite !forallb_app.
  rewrite (h_all_fits n n n h (Z.le_refl n) Eh).
  rewrite measure_all_fits by lia.
  assert (Hits : forallb (gate_fits n n) its = true).
  { refine (repeat_gates_fits n n k _ its _ Ei). intros g.
    destruct (marking_oracle marked_items n) as [o |] eqn:Eo;
      [| discriminate].
    cbn [bind].
    destruct (_diffusion n) as [d |] eqn:Ed; [| discriminate].
    cbn [bind]. intros [= <-]. rewrite forallb_app.
    rewrite (marking_oracle_fits n n _ _ Eo), (diffusion_fits n n _ Ed).
    reflexivity. }
  rewrite Hits. reflexivity.
Qed.

(** Whatever its arguments, every job that [GroverAlgorithm.run] submits
    is the single job of 1000 shots on a circuit of
    [int(log2(search_space_size))] qubits and as many classical bits,
    each gate of which acts on distinct qubits of that register and
    measures into these bits; and for marked items that are indices of a
    search space of at least two elements such a job is submitted. *)
Theorem grover_circuit_in_register
        (backend_run : QuantumCircuit -> Z -> counts)
        (marked_items : list Z) (search_space_size : Z) :
  (forall j, In j (snd (Grover.run backend_run marked_items
                                   search_space_size)) ->
     snd (Grover.run backend_run marked_items search_space_size) = [j] /\
     snd j = 1000 /\
     num_qubits (fst j) = PyFloat.int_log2 search_space_size /\
     num_clbits (fst j) = PyFloat.int_log2 search_space_size /\
     circuit_fits (fst j) = true) /\
  (forall n, search_space_size = 2 ^ n -> 1 <= n <= 10 ->
     marked_items <> [] ->
     (forall m, In m marked_items -> 0 <= m < 2 ^ n) ->
     exists qc,
       snd (Grover.run backend_run marked_items search_space_size)
       = [(qc, 1000)]).
Proof.
  split.
  - intros j. unfold Grover.run.
    destruct ((search_space_size =? 0) || _); [intros [] |].
    cbv zeta.
    destruct (PyFloat.int_log2 search_space_size >? 10); [intros [] |].
    destruct (grover_iterations _ _) as [k |]; [| intros []].
    cbn [bind]. unfold Grover._oracle.
    destruct (search_circuit _ _ _ _) as [qc |] eqn:Eqc; [| intros []].
    cbn [bind snd]. intros [<- | []]. cbn [fst snd].
    destruct (search_circuit_fits _ _ _ _ Eqc) as (Hq & Hc & Hfit).
    auto.
  - intros n -> Hn Hne Hm.
    assert (Hlen : 0 < len marked_items)
      by (destruct marked_items; [congruence | unfold len; simpl; lia]).
    assert (Hsize : 0 < 2 ^ n < 2 ^ 11).
    { split; [apply Z.pow_pos_nonneg; lia |].
      apply Z.pow_lt_mono_r; lia. }
    destruct (grover_iterations_total (2 ^ n) (len marked_items) Hsize Hlen)
      as (k & Ek & Hk).
    destruct (search_circuit_returned n k marked_items ltac:(lia) Hm)
      as (qc & Eqc & _).
    unfold Grover.run.
    assert (Htest : (2 ^ n =? 0) || negb (Z.land (2 ^ n) (2 ^ n - 1) =? 0)
                    = false)
      by (apply power_of_two_test; exists n; split; [lia | reflexivity]).
    rewrite Htest. unfold PyFloat.int_log2.
    rewrite Z.log2_pow2 by lia.
    destruct (Z.gtb_spec n 10) as [? | _]; [lia |].
    rewrite Ek. cbv zeta. cbn [bind]. unfold Grover._oracle.
    rewrite Eqc. cbn [bind snd]. exists qc. reflexivity.
Qed.

Lemma grover_circuit_in_register_witness :
  exists qc,
    snd (Grover.run (fun _ shots => [("0101", shots)]) [5; 9] 16)
    = [(qc, 1000)] /\
    num_qubits qc = 4 /\ circuit_fits qc = true.
Proof.
  pose proof (grover_circuit_in_register
                (fun _ shots => [("0101", shots)]) [5; 9] 16) as [Hinv Hex].
  destruct (Hex 4) as [qc Eqc].
  - reflexivity.
  - lia.
  - discriminate.
  - intros m [<- | [<- | []]]; lia.
  - exists qc. split; [exact Eqc |].
    destruct (Hinv (qc, 1000)) as (_ & _ & Hq & _ & Hfit).
    + rewrite Eqc. left. reflexivity.
    + split; [exact Hq | exact Hfit].
Defined.

(** Every job that [QuantumMinMaxAlgorithm.run] submits is the single
    job of 1000 shots on a circuit of [ceil(log2(len(data)))] qubits,
    each gate of which acts on distinct qubits of that register; and
    for every [data] of at least two elements that fits the simulation
    such a job is submitted. *)
Theorem min_max_circuit_in_register
        (backend_run : QuantumCircuit -> Z -> counts)
        (data : list Z) (find_min : bool) :
  (forall j, In j (snd (QuantumMinMax.run backend_run data find_min)) ->
     snd (QuantumMinMax.run backend_run data find_min) = [j] /\
     snd j = 1000 /\
     num_qubits (fst j) = Z.log2_up (len data) /\
     num_clbits (fst j) = Z.log2_up (len data) /\
     circuit_fits (fst j) = true) /\
  (2 <= len data -> QuantumMinMax.power_of_2 (len data) <= 2 ^ 10 ->
   exists qc,
     snd (QuantumMinMax.run backend_run data find_min) = [(qc, 1000)]).
Proof.
  assert (Hqubits : PyFloat.int_log2 (QuantumMinMax.power_of_2 (len data))
                    = Z.log2_up (len data)).
  { unfold PyFloat.int_log2, QuantumMinMax.power_of_2, PyFloat.ceil_log2.
    apply Z.log2_pow2. apply Z.log2_up_nonneg. }
  split.
  - intros j. unfold QuantumMinMax.run.
    destruct (len data =? 0); [intros [] |]. cbv zeta.
    destruct (if find_min then _ else _) as [t |]; [| intros []].
    rewrite Hqubits.
    destruct (Z.log2_up (len data) >? 10); [intros [] |].
    destruct (grover_iterations _ _) as [k |]; [| intros []].
    cbn [bind]. unfold QuantumMinMax._min_max_oracle.
    destruct (search_circuit _ _ _ _) as [qc |] eqn:Eqc; [| intros []].
    cbn [bind snd]. intros [<- | []]. cbn [fst snd].
    destruct (search_circuit_fits _ _ _ _ Eqc) as (Hq & Hc & Hfit).
    auto.
  - intros Hlen Hpad.
    assert (Hne : data <> []) by (intros ->; unfold len in Hlen; simpl in Hlen; lia).
    assert (Hn : 0 < len data) by lia.
    destruct (power_of_2_next (len data) Hn) as (_ & Hle & _).
    pose proof (Z.log2_up_nonneg (len data)) as Hlog.
    assert (Hq : Z.log2_up (len data) <= 10).
    { unfold QuantumMinMax.power_of_2, PyFloat.ceil_log2 in Hpad.
      apply Z.pow_le_mono_r_iff in Hpad; lia. }
    assert (Hq1 : 1 <= Z.log2_up (len data))
      by (pose proof (Z.log2_up_pos (len data)); lia).
    destruct (py_min_max_extremum find_min data Hne) as (t & Et & Hext).
    destruct (len_indices_of data t (proj1 Hext)) as [Hidx0 Hidx1].
    assert (Hpos : 0 < QuantumMinMax.power_of_2 (len data) < 2 ^ 11).
    { split; [| lia].
      unfold QuantumMinMax.power_of_2, PyFloat.ceil_log2.
      apply Z.pow_pos_nonneg; lia. }
    destruct (grover_iterations_total
                (QuantumMinMax.power_of_2 (len data))
                (len (QuantumMinMax.indices_of data t)) Hpos Hidx0)
      as (k & Ek & Hk).
    destruct (search_circuit_returned (Z.log2_up (len data)) k
                (QuantumMinMax.indices_of data t) Hq1) as (qc & Eqc & _).
    { intros i Hi. apply in_indices_of in Hi. destruct Hi as [Hi0 Hnth].
      assert (Hlt : (Z.to_nat i < List.length data)%nat)
        by (apply nth_error_Some; congruence).
      unfold QuantumMinMax.power_of_2, PyFloat.ceil_log2 in Hle.
      unfold len in Hle |- *. lia. }
    unfold QuantumMinMax.run.
    destruct (Z.eqb_spec (len data) 0) as [? | _]; [lia |].
    rewrite Et. cbv zeta. rewrite Hqubits.
    destruct (Z.gtb_spec (Z.log2_up (len data)) 10) as [? | _]; [lia |].
    rewrite Ek. cbn [bind]. unfold QuantumMinMax._min_max_oracle.
    rewrite Eqc. cbn [bind snd]. exists qc. reflexivity.
Qed.

Lemma min_max_circuit_in_register_witness :
  exists qc,
    snd (QuantumMinMax.run (fun _ shots => [("011", shots)])
                           [7; 3; 9; 1; 5] true) = [(qc, 1000)] /\
    num_qubits qc = 3 /\ circuit_fits qc = true.
Proof.
  pose proof (min_max_circuit_in_register
                (fun _ shots => [("011", shots)]) [7; 3; 9; 1; 5] true)
    as [Hinv Hex].
  destruct Hex as [qc Eqc].
  - vm_compute. discriminate.
  - vm_compute. discriminate.
  - exists qc. split; [exact Eqc |].
    destruct (Hinv (qc, 1000)) as (_ & _ & Hq & _ & Hfit).
    + rewrite Eqc. left. reflexivity.
    + split; [exact Hq | exact Hfit].
Defined.

(** ** When the search is simulated *)

Lemma grover_iterations_no_marked (size : Z) :
  grover_iterations size 0 = Raised ZeroDivisionError.
Proof.
  unfold grover_iterations.
  destruct quarter_pi_value as [E4 Epi]. rewrite E4. cbn [bind].
  rewrite Epi. reflexivity.
Qed.



(** ** What the search reports *)

Lemma analyze_spec (marked_items : list Z) (items : counts) :
  forall found_items success_count found' count',
    Grover.analyze items marked_items found_items success_count
    = Returned (found', count') ->
    found' = found_items ++ outcome_values (hits marked_items items) /\
    count' = success_count + total_count (hits marked_items items).
Proof.
  induction items as [| [bitstring count] rest IH];
    intros found_items success_count found' count' E.
  - cbn [Grover.analyze] in E. inversion E; subst.
    unfold hits, outcome_values. cbn [filter flat_map total_count].
    rewrite app_nil_r. split; [reflexivity | ring].
  - cbn [Grover.analyze] in E.
    assert (Hcons : hits marked_items ((bitstring, count) :: rest)
                    = if is_hit marked_items (bitstring, count)
                      then (bitstring, count) :: hits marked_items rest
                      else hits marked_items rest) by reflexivity.
    rewrite Hcons. unfold is_hit. cbn [fst].
    destruct (int_base2 bitstring) as [v | e] eqn:Ev; [| discriminate].
    cbn [bind] in E.
    destruct (existsb (Z.eqb v) marked_items).
    + apply IH in E. destruct E as [-> ->].
      unfold outcome_values. cbn [flat_map fst total_count]. rewrite Ev.
      rewrite <- app_assoc. split; [reflexivity | ring].
    + apply IH in E. exact E.
Qed.

Lemma in_outcome_values_hits (marked_items : list Z) (c : counts) (v : Z) :
  In v (outcome_values (hits marked_items c)) <->
  In v marked_items /\
  exists key count, In (key, count) c /\ int_base2 key = Returned v.
Proof.
  unfold outcome_values, hits. rewrite in_flat_map. split.
  - intros ([key count] & Hin & Hv). apply filter_In in Hin.
    destruct Hin as [Hin Hhit]. unfold is_hit in Hhit. cbn [fst] in *.
    destruct (int_base2 key) as [w | e] eqn:Ew; [| contradiction].
    destruct Hv as [<- | []]. split.
    + apply existsb_exists in Hhit. destruct Hhit as (x & Hx & Ex).
      apply Z.eqb_eq in Ex. subst x. exact Hx.
    + exists key, count. split; assumption.
  - intros (Hm & key & count & Hin & Ev).
    exists (key, count). split.
    + apply filter_In. split; [exact Hin |].
      unfold is_hit. cbn [fst]. rewrite Ev.
      apply existsb_exists. exists v. split; [exact Hm | apply Z.eqb_refl].
    + cbn [fst]. rewrite Ev. left. reflexivity.
Qed.

(** Whenever [GroverAlgorithm.run] returns a result, its [found_items]
    are, without repetition, exactly the marked items that occur as the
    value of a measured bitstring, and its [success_rate] is the total
    count of these bitstrings divided by 1000. *)
Theorem grover_found_items_are_measured_marked
        (backend_run : QuantumCircuit -> Z -> counts)
        (marked_items : list Z) (size : Z)
        (r : Grover.result) (jobs : list job) :
  Grover.run backend_run marked_items size
  = (Returned (Grover.Result r), jobs) ->
  jobs = [(Grover.circuit r, 1000)] /\
  Grover.measurements r = backend_run (Grover.circuit r) 1000 /\
  NoDup (Grover.found_items r) /\
  (forall v, In v (Grover.found_items r) <->
             In v marked_items /\
             exists key count,
               In (key, count) (Grover.measurements r) /\
               int_base2 key = Returned v) /\
  PyFloat.int_truediv
    (total_count (hits marked_items (Grover.measurements r))) 1000
  = Returned (Grover.success_rate r).
Proof.
  unfold Grover.run.
  destruct ((size =? 0) || negb (Z.land size (size - 1) =? 0));
    [discriminate |].
  destruct (PyFloat.int_log2 size >? 10); [discriminate |].
  cbv zeta.
  destruct (grover_iterations size (len marked_items)) as [k | e];
    [| discriminate].
  cbn [bind].
  destruct (search_circuit _ _ _ _) as [qc | e]; [| discriminate].
  cbn [bind].
  destruct (Grover.analyze (backend_run qc 1000) marked_items [] 0)
    as [[found sc] | e] eqn:Ea; [| discriminate].
  cbn [bind].
  destruct (PyFloat.int_truediv sc 1000) as [rate | e] eqn:Erate;
    [| discriminate].
  cbn [bind]. intros E. inversion E; subst r jobs. clear E.
  cbn [Grover.circuit Grover.measurements Grover.found_items
       Grover.success_rate].
  apply analyze_spec in Ea. destruct Ea as [-> ->].
  cbn [app Z.add].
  split; [reflexivity |]. split; [reflexivity |].
  split; [apply NoDup_nodup |]. split.
  - intros v. rewrite nodup_In. apply in_outcome_values_hits.
  - exact Erate.
Qed.

Lemma grover_found_items_are_measured_marked_witness :
  exists r,
    fst (Grover.run (fun _ shots => [("0101", shots)]) [5; 9] 16)
    = Returned (Grover.Result r) /\
    NoDup (Grover.found_items r) /\
    PyFloat.int_truediv
      (total_count (hits [5; 9] (Grover.measurements r))) 1000
    = Returned (Grover.success_rate r).
Proof.
  destruct (Grover.run (fun _ shots => [("0101", shots)]) [5; 9] 16)
    as [[[msg | r] | e] jobs] eqn:E;
    try (vm_compute in E; discriminate E).
  exists r. split; [reflexivity |].
  destruct (grover_found_items_are_measured_marked
              (fun _ shots => [("0101", shots)]) [5; 9] 16 r jobs E)
    as (_ & _ & Hnd & _ & Hrate).
  split; [exact Hnd | exact Hrate].
Defined.

(** ** The two extremum searches agree *)

Lemma classical_result_first_best (data : list Z) (find_min : bool)
      (c : ClassicalMinMax.result) :
  ClassicalMinMax.classical_min_max data find_min = ClassicalMinMax.Result c ->
  first_best (scan_order find_min) data
             (ClassicalMinMax.value c) (ClassicalMinMax.index c).
Proof.
  destruct data as [| d0 rest]; [discriminate |].
  unfold ClassicalMinMax.classical_min_max.
  assert (Hinit : forall R : Z -> Z -> Prop,
             (forall x, R x x) -> first_best R [d0] d0 0%nat).
  { intros R Hrefl. split; [reflexivity | split].
    - intros [| [| j]] x Hj; simpl in Hj; try discriminate.
      inversion Hj; subst. apply Hrefl.
    - intros j x Hj. lia. }
  destruct find_min.
  - destruct (ClassicalMinMax.scan Z.ltb rest 1 d0 0 0)
      as [[t i] k] eqn:E.
    intros Hc. inversion Hc; subst c. clear Hc.
    cbn [ClassicalMinMax.value ClassicalMinMax.index].
    apply (scan_invariant Z.ltb Z.le) with (seen := [d0]) in E.
    + exact (proj1 E).
    + intros x t0. rewrite Z.ltb_ge. reflexivity.
    + intros x y. lia.
    + intros x y z. lia.
    + apply Hinit. intros x. lia.
  - destruct (ClassicalMinMax.scan Z.gtb rest 1 d0 0 0)
      as [[t i] k] eqn:E.
    intros Hc. inversion Hc; subst c. clear Hc.
    cbn [ClassicalMinMax.value ClassicalMinMax.index].
    apply (scan_invariant Z.gtb Z.ge) with (seen := [d0]) in E.
    + exact (proj1 E).
    + intros x t0. rewrite Z.gtb_ltb, Z.ltb_ge. lia.
    + intros x y. lia.
    + intros x y z. lia.
    + apply Hinit. intros x. lia.
Qed.

Lemma quantum_result_targets
      (backend_run : QuantumCircuit -> Z -> counts)
      (data : list Z) (find_min : bool)
      (r : QuantumMinMax.result) (jobs : list job) :
  QuantumMinMax.run backend_run data find_min
  = (Returned (QuantumMinMax.Result r), jobs) ->
  (if find_min then QuantumMinMax.py_min data else QuantumMinMax.py_max data)
  = Returned (QuantumMinMax.target_value r) /\
  QuantumMinMax.target_indices r
  = QuantumMinMax.indices_of data (QuantumMinMax.target_value r).
Proof.
  unfold QuantumMinMax.run.
  destruct (len data =? 0); [discriminate |].
  destruct (if find_min then QuantumMinMax.py_min data
            else QuantumMinMax.py_max data) as [t | e]; [| discriminate].
  destruct (PyFloat.int_log2 (QuantumMinMax.power_of_2 (len data)) >? 10);
    [discriminate |].
  destruct (grover_iterations _ _) as [k | e]; [| discriminate].
  cbn [bind].
  destruct (search_circuit _ _ _ _) as [qc | e]; [| discriminate].
  cbn [bind]. cbv zeta.
  destruct (max_count_state _) as [state | e]; [| discriminate].
  cbn [bind].
  destruct (int_base2 (fst state)) as [fi | e]; [| discriminate].
  cbn [bind].
  destruct (fi <? len data);
    (destruct (PyFloat.int_truediv _ 1000) as [rate | e]; [| discriminate]);
    cbn [bind]; intros E; inversion E; subst r; split; reflexivity.
Qed.

(** Whenever both searches return a result for the same list and mode,
    the quantum [target_value] is the classical [value], and the classical
    [index] is the smallest of the quantum [target_indices]. *)
Theorem min_max_agrees_with_classical
        (backend_run : QuantumCircuit -> Z -> counts)
        (data : list Z) (find_min : bool)
        (r : QuantumMinMax.result) (jobs : list job)
        (c : ClassicalMinMax.result) :
  QuantumMinMax.run backend_run data find_min
  = (Returned (QuantumMinMax.Result r), jobs) ->
  ClassicalMinMax.classical_min_max data find_min
  = ClassicalMinMax.Result c ->
  QuantumMinMax.target_value r = ClassicalMinMax.value c /\
  In (Z.of_nat (ClassicalMinMax.index c)) (QuantumMinMax.target_indices r) /\
  (forall i, In i (QuantumMinMax.target_indices r) ->
             Z.of_nat (ClassicalMinMax.index c) <= i).
Proof.
  intros Hq Hc.
  apply quantum_result_targets in Hq. destruct Hq as [Et Ei].
  apply classical_result_first_best in Hc.
  destruct Hc as (Hnth & Hbest & Hfirst).
  assert (Hne : data <> []).
  { intros ->. destruct (ClassicalMinMax.index c); discriminate. }
  destruct (py_min_max_extremum find_min data Hne) as (t & Et' & Hin & Hext).
  assert (t = QuantumMinMax.target_value r) by congruence. subst t.
  assert (Hval : QuantumMinMax.target_value r = ClassicalMinMax.value c).
  { apply In_nth_error in Hin. destruct Hin as [j Hj].
    pose proof (Hbest j _ Hj) as H1.
    pose proof (Hext _ (nth_error_In _ _ Hnth)) as H2.
    destruct find_min; cbn [scan_order] in H1, H2; lia. }
  split; [exact Hval |]. rewrite Ei. split.
  - apply in_indices_of. split; [lia |]. rewrite Nat2Z.id, Hval. exact Hnth.
  - intros i Hi. apply in_indices_of in Hi. destruct Hi as [Hi0 Hi].
    destruct (Z_le_gt_dec (Z.of_nat (ClassicalMinMax.index c)) i)
      as [? | Hgt]; [assumption | exfalso].
    apply (Hfirst (Z.to_nat i) _ ltac:(lia) Hi). exact Hval.
Qed.

Lemma min_max_agrees_with_classical_witness :
  exists r c,
    fst (QuantumMinMax.run (fun _ shots => [("011", shots)])
                           [7; 3; 9; 1; 5; 1] true)
    = Returned (QuantumMinMax.Result r) /\
    ClassicalMinMax.classical_min_max [7; 3; 9; 1; 5; 1] true
    = ClassicalMinMax.Result c /\
    QuantumMinMax.target_value r = ClassicalMinMax.value c /\
    In (Z.of_nat (ClassicalMinMax.index c)) (QuantumMinMax.target_indices r).
Proof.
  destruct (QuantumMinMax.run (fun _ shots => [("011", shots)])
                              [7; 3; 9; 1; 5; 1] true)
    as [[[msg | r] | e] jobs] eqn:E;
    try (vm_compute in E; discriminate E).
  destruct (ClassicalMinMax.classical_min_max [7; 3; 9; 1; 5; 1] true)
    as [msg | c] eqn:Ec; [vm_compute in Ec; discriminate Ec |].
  exists r, c. split; [reflexivity |]. split; [reflexivity |].
  destruct (min_max_agrees_with_classical
              (fun _ shots => [("011", shots)]) [7; 3; 9; 1; 5; 1] true
              r jobs c E Ec) as (Hv & Hi & _).
  split; [exact Hv | exact Hi].
Defined.

(** ** When the extremum search is simulated *)

(** [QuantumMinMaxAlgorithm.run] submits a job exactly for lists of 2 to
    1024 elements.  The empty list and longer lists get their error
    results without a job; for a list of one element the register is
    empty and [run] raises [CircuitError] at [qc.h(qr)]. *)
Theorem min_max_simulates_iff
        (backend_run : QuantumCircuit -> Z -> counts)
        (data : list Z) (find_min : bool) :
  (snd (QuantumMinMax.run backend_run data find_min) <> [] <->
   2 <= len data <= 1024) /\
  (data = [] ->
   QuantumMinMax.run backend_run data find_min
   = (Returned (QuantumMinMax.Error "Empty data list"), [])) /\
  (len data = 1 ->
   QuantumMinMax.run backend_run data find_min
   = (Raised CircuitError, [])) /\
  (1024 < len data ->
   QuantumMinMax.run backend_run data find_min
   = (Returned (QuantumMinMax.Error "Data size too large for simulation"),
      [])).
Proof.
  destruct data as [| d0 rest].
  { split; [| split; [reflexivity |
                      split; unfold len; simpl; intros; lia]].
    cbn. split; [congruence | unfold len; simpl; lia]. }
  set (data := d0 :: rest).
  assert (Hne : data <> []) by discriminate.
  assert (Hn : 0 < len data) by (unfold len, data; simpl; lia).
  pose proof (Z.log2_up_nonneg (len data)) as Hlog.
  destruct (power_of_2_next (len data) Hn) as (_ & Hle & _).
  destruct (py_min_max_extremum find_min data Hne) as (t & Et & Hext).
  destruct (len_indices_of data t (proj1 Hext)) as [Hidx0 Hidx1].
  assert (Hqubits : PyFloat.int_log2 (QuantumMinMax.power_of_2 (len data))
                    = Z.log2_up (len data)).
  { unfold PyFloat.int_log2, QuantumMinMax.power_of_2, PyFloat.ceil_log2.
    apply Z.log2_pow2. exact Hlog. }
  assert (Hbig : 10 < Z.log2_up (len data) <-> 1024 < len data).
  { change 1024 with (2 ^ 10). symmetry. apply Z.log2_up_lt_pow2; lia. }
  unfold QuantumMinMax.run.
  destruct (Z.eqb_spec (len data) 0) as [? | _]; [lia |].
  rewrite Et. cbv zeta. rewrite Hqubits.
  destruct (Z.gtb_spec (Z.log2_up (len data)) 10) as [Hgt | Hsmall].
  { cbn [snd]. split; [| split; [discriminate |
                                 split; [lia | reflexivity]]].
    split; [congruence | lia]. }
  assert (Hpos : 0 < QuantumMinMax.power_of_2 (len data) < 2 ^ 11).
  { unfold QuantumMinMax.power_of_2, PyFloat.ceil_log2.
    split; [apply Z.pow_pos_nonneg; lia |].
    apply Z.pow_lt_mono_r; lia. }
  destruct (grover_iterations_total
              (QuantumMinMax.power_of_2 (len data))
              (len (QuantumMinMax.indices_of data t)) Hpos Hidx0)
    as (k & Ek & Hk).
  rewrite Ek. cbn [bind]. unfold QuantumMinMax._min_max_oracle.
  destruct (Z.eq_dec (len data) 1) as [E1 | Hne1].
  { rewrite E1. change (Z.log2_up 1) with 0.
    rewrite search_circuit_no_qubits by lia. cbn [bind snd].
    split; [| split; [discriminate | split; [reflexivity | lia]]].
    split; [congruence | lia]. }
  assert (Hq1 : 1 <= Z.log2_up (len data))
    by (pose proof (Z.log2_up_pos (len data)); lia).
  destruct (search_circuit_returned (Z.log2_up (len data)) k
              (QuantumMinMax.indices_of data t) Hq1) as (qc & Eqc & _).
  { intros i Hi. apply in_indices_of in Hi. destruct Hi as [Hi0 Hnth].
    assert (Hlt : (Z.to_nat i < List.length data)%nat)
      by (apply nth_error_Some; congruence).
    unfold QuantumMinMax.power_of_2, PyFloat.ceil_log2 in Hle.
    unfold len in Hle |- *. lia. }
  rewrite Eqc. cbn [bind snd].
  split; [| split; [discriminate | split; lia]].
  split; [lia | discriminate].
Qed.

Lemma min_max_simulates_iff_witness :
  QuantumMinMax.run (fun _ shots => [("011", shots)]) [] true
  = (Returned (QuantumMinMax.Error "Empty data list"), []) /\
  QuantumMinMax.run (fun _ shots => [("011", shots)]) [4] false
  = (Raised CircuitError, []) /\
  snd (QuantumMinMax.run (fun _ shots => [("011", shots)]) [7; 3; 9] true)
  <> [].
Proof.
  split; [| split].
  - apply (min_max_simulates_iff (fun _ shots => [("011", shots)]) [] true).
    reflexivity.
  - apply (min_max_simulates_iff (fun _ shots => [("011", shots)]) [4] false).
    reflexivity.
  - apply (min_max_simulates_iff (fun _ shots => [("011", shots)])
                                 [7; 3; 9] true).
    vm_compute. split; discriminate.
Defined.

(** ** The Deutsch-Jozsa circuit *)

Lemma dj_oracle_fits (random_lt_half : bool) (n nc : Z)
      (function_type : string) (gs : list gate) :
  0 <= n ->
  DeutschJozsa._oracle random_lt_half n function_type = Returned gs ->
  forallb (gate_fits (n + 1) nc) gs = true.
Proof.
  intros Hn. unfold DeutschJozsa._oracle.
  destruct (String.eqb function_type "constant").
  - destruct random_lt_half; [| intros [= <-]; reflexivity].
    rewrite qubit_in_range by lia. cbn [bind]. intros [= <-].
    cbn [forallb]. rewrite andb_true_r.
    apply (one_qubit_gate_fits (n + 1) nc n); auto. lia.
  - destruct (String.eqb function_type "balanced"); [| discriminate].
    apply for_each_fits. intros i g Hi.
    apply in_py_range_inv in Hi.
    rewrite !qubit_in_range by lia. cbn [bind]. intros [= <-].
    cbn [forallb]. rewrite andb_true_r.
    apply (two_qubit_gate_fits (n + 1) nc i n); auto; lia.
Qed.

(** [DeutschJozsaAlgorithm.run] answers more than 10 qubits with an error
    result and an unknown function type with [ValueError]; without an
    input qubit [qc.h(range(0))] raises [CircuitError]; in all three
    cases no job is submitted.  Otherwise it submits one job of 1024
    shots whose circuit has [n + 1] qubits and [n] classical bits, and
    each of its gates acts on distinct positions of these registers. *)
Theorem dj_job_and_circuit
        (backend_run : QuantumCircuit -> Z -> counts)
        (random_lt_half : bool) (n_qubits : nat) (function_type : string) :
  ((10 < n_qubits)%nat ->
   DeutschJozsa.run backend_run random_lt_half n_qubits function_type
   = (Returned (DeutschJozsa.Error "Too many qubits for simulation"), [])) /\
  ((n_qubits <= 10)%nat ->
   function_type <> "constant" -> function_type <> "balanced" ->
   DeutschJozsa.run backend_run random_lt_half n_qubits function_type
   = (Raised ValueError, [])) /\
  (n_qubits = 0%nat ->
   function_type = "constant" \/ function_type = "balanced" ->
   DeutschJozsa.run backend_run random_lt_half n_qubits function_type
   = (Raised CircuitError, [])) /\
  ((1 <= n_qubits <= 10)%nat ->
   function_type = "constant" \/ function_type = "balanced" ->
   exists qc,
     snd (DeutschJozsa.run backend_run random_lt_half n_qubits
                           function_type) = [(qc, 1024)] /\
     num_qubits qc = Z.of_nat n_qubits + 1 /\
     num_clbits qc = Z.of_nat n_qubits /\
     circuit_fits qc = true).
Proof.
  unfold DeutschJozsa.run.
  set (n := Z.of_nat n_qubits).
  assert (Hn0 : 0 <= n) by (unfold n; lia).
  destruct (Z.gtb_spec n 10) as [Hbig | Hsmall].
  { split; [reflexivity |]. repeat split; intros; lia. }
  split; [intros; lia |].
  rewrite qubit_in_range by lia. cbn [bind].
  rewrite h_all_returned by lia. cbn [bind].
  split; [| split].
  - intros _ Hc Hb. unfold DeutschJozsa._oracle.
    apply String.eqb_neq in Hc, Hb. rewrite Hc, Hb. reflexivity.
  - intros E0 Hft.
    destruct (dj_oracle_returned random_lt_half n function_type Hn0 Hft)
      as [oracle Eo].
    rewrite Eo. cbn [bind]. rewrite h_all_empty by lia. reflexivity.
  - intros Hn Hft.
    destruct (dj_oracle_returned random_lt_half n function_type Hn0 Hft)
      as [oracle Eo].
    rewrite Eo. cbn [bind]. rewrite h_all_returned by lia.
    cbn [bind snd]. eexists. split; [reflexivity |].
    split; [reflexivity |]. split; [reflexivity |].
    unfold circuit_fits. cbn [num_qubits num_clbits gates].
    rewrite !forallb_app.
    rewrite (dj_oracle_fits random_lt_half n n function_type oracle Hn0 Eo).
    rewrite (h_all_fits (n + 1) n (n + 1) _ (Z.le_refl _)
               (h_all_returned (n + 1) ltac:(lia))).
    rewrite (h_all_fits (n + 1) n n _ ltac:(lia)
               (h_all_returned n ltac:(lia))).
    rewrite measure_all_fits by lia.
    cbn [forallb].
    rewrite (one_qubit_gate_fits (n + 1) n n (G_x n)) by (auto; lia).
    reflexivity.
Qed.

Lemma dj_job_and_circuit_witness :
  (exists qc,
      snd (DeutschJozsa.run (fun _ shots => [("000", shots)]) true 3
                            "balanced") = [(qc, 1024)] /\
      num_qubits qc = Z.of_nat 3 + 1 /\
      num_clbits qc = Z.of_nat 3 /\
      circuit_fits qc = true) /\
  DeutschJozsa.run (fun _ shots => [("000", shots)]) true 3 "parity"
  = (Raised ValueError, []) /\
  DeutschJozsa.run (fun _ shots => [("000", shots)]) true 0 "balanced"
  = (Raised CircuitError, []).
Proof.
  split; [| split].
  - apply (dj_job_and_circuit (fun _ shots => [("000", shots)]) true 3
                              "balanced").
    + lia.
    + right. reflexivity.
  - apply (dj_job_and_circuit (fun _ shots => [("000", shots)]) true 3
                              "parity").
    + lia.
    + discriminate.
    + discriminate.
  - apply (dj_job_and_circuit (fun _ shots => [("000", shots)]) true 0
                              "balanced").
    + reflexivity.
    + right. reflexivity.
Defined.

(** ** The phase-estimation circuit *)

Lemma controlled_u_fits (phase : PyFloat.float) (n nc : Z)
      (qubits : list Z) :
  forall gs,
    PhaseEstimation.controlled_u phase n qubits = Returned gs ->
    forallb (gate_fits (n + 1) nc) gs = true.
Proof.
  induction qubits as [| i rest IH]; intros gs E.
  - cbn in E. injection E as <-. reflexivity.
  - cbn [PhaseEstimation.controlled_u] in E. cbv zeta in E.
    destruct (PhaseEstimation.angle phase (2 ^ i)) as [a | e];
      [| discriminate].
    cbn [bind] in E.
    destruct (qubit n i) as [control | e] eqn:Ec; [| discriminate].
    cbn [bind] in E.
    destruct (PhaseEstimation.controlled_u phase n rest) as [gs' | e];
      [| discriminate].
    cbn [bind] in E. injection E as <-.
    pose proof (qubit_returned _ _ _ Ec) as Hc.
    cbn [forallb]. rewrite (IH gs' eq_refl), andb_true_r.
    apply (two_qubit_gate_fits (n + 1) nc control n); auto; lia.
Qed.

(** [QuantumPhaseEstimation.run] answers more than 10 counting qubits, and
    a phase below 0 or not below 1, with an error result; without a
    counting qubit [qc.h(qr_count)] raises [CircuitError]; in these cases
    no job is submitted.  Otherwise it submits one job of 2048 shots
    whose circuit has [t + 1] qubits and [t] classical bits, and each of
    its gates acts on distinct positions of these registers. *)
Theorem phase_estimation_job_and_circuit
        (backend_run : QuantumCircuit -> Z -> counts)
        (phase : PyFloat.float) (t : nat) :
  ((10 < t)%nat ->
   PhaseEstimation.run backend_run phase t
   = (Returned (PhaseEstimation.Error "Too many qubits for simulation"),
      [])) /\
  ((t <= 10)%nat ->
   PyFloat.float_lt phase PyFloat.float_0 = true \/
   PyFloat.float_ge phase PyFloat.float_1 = true ->
   PhaseEstimation.run backend_run phase t
   = (Returned (PhaseEstimation.Error "Phase must be in range [0, 1)"),
      [])) /\
  (t = 0%nat ->
   PyFloat.float_lt phase PyFloat.float_0 = false ->
   PyFloat.float_ge phase PyFloat.float_1 = false ->
   PhaseEstimation.run backend_run phase t = (Raised CircuitError, [])) /\
  ((1 <= t <= 10)%nat ->
   PyFloat.float_lt phase PyFloat.float_0 = false ->
   PyFloat.float_ge phase PyFloat.float_1 = false ->
   exists qc,
     snd (PhaseEstimation.run backend_run phase t) = [(qc, 2048)] /\
     num_qubits qc = Z.of_nat t + 1 /\
     num_clbits qc = Z.of_nat t /\
     circuit_fits qc = true).
Proof.
  unfold PhaseEstimation.run. set (n := Z.of_nat t).
  destruct (Z.gtb_spec n 10) as [Hbig | Hsmall].
  { split; [reflexivity |]. repeat split; intros; lia. }
  split; [intros; lia |]. split; [| split].
  - intros _ [H | H]; rewrite H; [| rewrite orb_true_r]; reflexivity.
  - intros E0 Hlo Hhi. rewrite Hlo, Hhi. cbn [orb].
    rewrite h_all_empty by lia. reflexivity.
  - intros Ht Hlo Hhi. rewrite Hlo, Hhi. cbn [orb].
    rewrite h_all_returned by lia. cbn [bind].
    destruct (controlled_u_total phase n (py_range 0 n)) as [cu Ecu].
    { intros i Hi. apply in_py_range_inv in Hi. lia. }
    rewrite Ecu. cbn [bind snd].
    eexists. split; [reflexivity |].
    split; [reflexivity |]. split; [reflexivity |].
    unfold circuit_fits. cbn [num_qubits num_clbits gates].
    rewrite !forallb_app.
    rewrite (h_all_fits (n + 1) n n _ ltac:(lia)
               (h_all_returned n ltac:(lia))).
    rewrite measure_all_fits by lia.
    rewrite (controlled_u_fits phase n n _ cu Ecu).
    cbn [forallb].
    rewrite (one_qubit_gate_fits (n + 1) n n (G_x n)) by (auto; lia).
    unfold gate_fits.
    cbn [gate_qubits gate_clbits forallb distinct existsb negb andb].
    rewrite forallb_in_register_range by lia.
    rewrite distinct_NoDup by apply NoDup_py_range. reflexivity.
Qed.

Lemma phase_estimation_job_and_circuit_witness :
  (exists qc,
      snd (PhaseEstimation.run (fun _ shots => [("0100", shots)])
                               float_quarter 4) = [(qc, 2048)] /\
      num_qubits qc = Z.of_nat 4 + 1 /\
      num_clbits qc = Z.of_nat 4 /\
      circuit_fits qc = true) /\
  PhaseEstimation.run (fun _ shots => [("0100", shots)]) float_quarter 0
  = (Raised CircuitError, []).
Proof.
  split.
  - apply (phase_estimation_job_and_circuit
             (fun _ shots => [("0100", shots)]) float_quarter 4).
    + lia.
    + reflexivity.
    + reflexivity.
  - apply (phase_estimation_job_and_circuit
             (fun _ shots => [("0100", shots)]) float_quarter 0).
    + reflexivity.
    + reflexivity.
    + reflexivity.
Defined.

(** ** The estimate is a phase *)

Lemma quotient_below_one (a n : Z) (q : PyFloat.float) :
  0 <= n <= 10 -> 0 <= a < 2 ^ n ->
  PyFloat.int_truediv a (2 ^ n) = Returned q -> nonneg_below 0 q.
Proof.
  intros Hn Ha E.
  assert (Hpow : 0 < 2 ^ n <= 2 ^ 10).
  { split; [apply Z.pow_pos_nonneg; lia |].
    apply Z.pow_le_mono_r; lia. }
  destruct (Z.eq_dec a 0) as [-> | Hne].
  - unfold PyFloat.int_truediv in E.
    destruct (Z.eqb_spec (2 ^ n) 0) as [? | _]; [lia |].
    destruct (2 ^ n) as [| p | p]; try lia.
    cbn in E. inversion E. left. reflexivity.
  - destruct (int_truediv_below_one a (2 ^ n)) as (q' & E' & Hq');
      [lia | lia |].
    congruence.
Qed.

(** Whenever [QuantumPhaseEstimation.run] returns a result and the
    backend reports outcomes of at most [t] bits, the measured integer is
    below [2^t] and the estimated phase is [+0.0] or a positive binary64
    number below 1. *)
Theorem phase_estimate_in_unit_interval
        (backend_run : QuantumCircuit -> Z -> counts)
        (phase : PyFloat.float) (t : nat)
        (r : PhaseEstimation.result) (jobs : list job) :
  (forall qc shots, keys_fit t (backend_run qc shots) = true) ->
  PhaseEstimation.run backend_run phase t
  = (Returned (PhaseEstimation.Result r), jobs) ->
  0 <= PhaseEstimation.measured_int r < 2 ^ Z.of_nat t /\
  nonneg_below 0 (PhaseEstimation.estimated_phase r).
Proof.
  intros Hfit. unfold PhaseEstimation.run. set (n := Z.of_nat t).
  destruct (Z.gtb_spec n 10) as [? | Hsmall]; [discriminate |].
  destruct (PyFloat.float_lt phase PyFloat.float_0
            || PyFloat.float_ge phase PyFloat.float_1); [discriminate |].
  destruct (h_all n) as [h | e]; [| discriminate]. cbn [bind].
  destruct (PhaseEstimation.controlled_u phase n (py_range 0 n))
    as [cu | e]; [| discriminate].
  cbn [bind]. cbv zeta.
  set (qc := {| num_qubits := n + 1; num_clbits := n; gates := _ |}).
  destruct (max_count_state (backend_run qc PhaseEstimation.shots))
    as [[state count] | e] eqn:Es; [| discriminate].
  cbn [bind fst snd].
  destruct (int_base2 state) as [mi | e] eqn:Emi; [| discriminate].
  cbn [bind].
  destruct (PyFloat.int_truediv mi (2 ^ n)) as [est | e] eqn:Eest;
    [| discriminate].
  cbn [bind].
  destruct (PyFloat.int_truediv 1 (2 ^ n)) as [prec | e]; [| discriminate].
  cbn [bind].
  destruct (PyFloat.int_truediv count PhaseEstimation.shots) as [prob | e];
    [| discriminate].
  cbn [bind]. intros E. inversion E; subst r jobs. clear E.
  cbn [PhaseEstimation.measured_int PhaseEstimation.estimated_phase].
  assert (Hin : In (state, count) (backend_run qc PhaseEstimation.shots)).
  { destruct (backend_run qc PhaseEstimation.shots) as [| kv rest];
      [discriminate |].
    cbn [max_count_state] in Es. inversion Es as [Hmax].
    apply max_count_from_in. }
  assert (Hwidth : (String.length state <= t)%nat).
  { pose proof (Hfit qc PhaseEstimation.shots) as Hf.
    unfold keys_fit in Hf. rewrite forallb_forall in Hf.
    specialize (Hf _ Hin). cbn [fst] in Hf. apply Nat.leb_le in Hf.
    exact Hf. }
  pose proof (int_base2_below state t mi Hwidth Emi) as Hmi. fold n in Hmi.
  split; [exact Hmi |].
  apply (quotient_below_one mi n); [lia | exact Hmi | exact Eest].
Qed.

Lemma phase_estimate_in_unit_interval_witness :
  exists r,
    fst (PhaseEstimation.run (fun _ shots => [("0100", shots)])
                             float_quarter 4)
    = Returned (PhaseEstimation.Result r) /\
    0 <= PhaseEstimation.measured_int r < 2 ^ Z.of_nat 4 /\
    nonneg_below 0 (PhaseEstimation.estimated_phase r).
Proof.
  destruct (PhaseEstimation.run (fun _ shots => [("0100", shots)])
                                float_quarter 4)
    as [[[msg | r] | e] jobs] eqn:E;
    try (vm_compute in E; discriminate E).
  exists r. split; [reflexivity |].
  apply (phase_estimate_in_unit_interval
           (fun _ shots => [("0100", shots)]) float_quarter 4 r jobs).
  - intros qc shots. reflexivity.
  - exact E.
Defined.

(** ** Classical phase estimation *)

Lemma positive_not_above (ma : positive) (ea : Z) (y : PyFloat.float) :
  PyFloat.float_lt PyFloat.float_0 y = true ->
  PyFloat.float_lt (S754_finite false ma ea) y = false ->
  PyFloat.float_ge (S754_finite false ma ea) y = true.
Proof.
  unfold PyFloat.float_lt, PyFloat.float_ge, PyFloat.float_0, SFltb, SFleb.
  destruct y as [s | s | | s m e]; cbn [SFcompare]; try discriminate.
  - destruct s; discriminate.
  - destruct s; [discriminate |]. intros _.
    rewrite (Z.compare_antisym ea e).
    destruct (ea ?= e) eqn:Ee; cbn [CompOpp]; try discriminate;
      try reflexivity.
    pose proof (Pos.compare_cont_antisym ma m Eq) as Hanti.
    cbn [CompOpp] in Hanti. rewrite <- Hanti.
    destruct (Pos.compare_cont Eq ma m); cbn [CompOpp];
      try discriminate; reflexivity.
Qed.

Lemma not_above_0999 (y : PyFloat.float) :
  PyFloat.float_lt PyFloat.float_0 y = true ->
  PyFloat.float_lt ClassicalPhaseEstimation.float_0999 y = false ->
  PyFloat.float_ge ClassicalPhaseEstimation.float_0999 y = true.
Proof.
  apply positive_not_above.
Qed.

(** [classical_phase_estimation] raises [ZeroDivisionError] for
    [n_samples = 0]; for every other sample count, phase and noise it
    returns, and its estimate is clamped: it is the integer 0 or a float
    [y] with [0 < y <= 0.999].  It reports [2 ** n_samples] samples. *)
Theorem classical_phase_estimate_clamped
        (random_normal : PyFloat.float -> PyFloat.float)
        (phase : PyFloat.float) (n_samples : nat) :
  (n_samples = 0%nat ->
   ClassicalPhaseEstimation.classical_phase_estimation
     random_normal phase n_samples = Raised ZeroDivisionError) /\
  (n_samples <> 0%nat ->
   exists r,
     ClassicalPhaseEstimation.classical_phase_estimation
       random_normal phase n_samples = Returned r /\
     clamped (ClassicalPhaseEstimation.estimated_phase r) /\
     ClassicalPhaseEstimation.samples_needed r = 2 ^ Z.of_nat n_samples /\
     PyFloat.int_truediv 1 (Z.of_nat n_samples)
     = Returned (ClassicalPhaseEstimation.precision r)).
Proof.
  split.
  - intros ->. reflexivity.
  - intros Hn.
    unfold ClassicalPhaseEstimation.classical_phase_estimation.
    destruct (int_truediv_bounded 1 (Z.of_nat n_samples) 1)
      as (precision & Ep & _); [lia | lia | cbn; lia | lia |].
    cbv zeta. rewrite Ep. cbn [bind].
    assert (E2 : PyFloat.float_of_int 2
                 = Returned (S754_finite false 4503599627370496 (-51)))
      by (vm_compute; reflexivity).
    rewrite E2. cbn [bind PyFloat.float_truediv].
    eexists. split; [reflexivity |].
    cbn [ClassicalPhaseEstimation.estimated_phase
         ClassicalPhaseEstimation.samples_needed
         ClassicalPhaseEstimation.precision].
    split; [| split; reflexivity].
    set (est := SFadd PyFloat.prec PyFloat.emax phase _).
    destruct (PyFloat.float_lt ClassicalPhaseEstimation.float_0999 est)
      eqn:Hhi.
    + change (PyFloat.float_lt PyFloat.float_0
                ClassicalPhaseEstimation.float_0999) with true.
      cbn [clamped]. split; reflexivity.
    + destruct (PyFloat.float_lt PyFloat.float_0 est) eqn:Hlo.
      * cbn [clamped]. split; [exact Hlo |].
        apply not_above_0999; assumption.
      * reflexivity.
Qed.

Lemma classical_phase_estimate_clamped_witness :
  exists r,
    ClassicalPhaseEstimation.classical_phase_estimation
      (fun scale => scale) float_quarter 100 = Returned r /\
    clamped (ClassicalPhaseEstimation.estimated_phase r).
Proof.
  destruct (proj2 (classical_phase_estimate_clamped
                     (fun scale => scale) float_quarter 100))
    as (r & E & Hc & _).
  - discriminate.
  - exists r. split; [exact E | exact Hc].
Defined.

(** ** Alpha-beta pruning *)

Section NodeInduction.
Variable P : Minimax.node -> Prop.
Hypothesis step :
  forall is_terminal evaluate children,
    Forall P children -> P (Minimax.Node is_terminal evaluate children).

Fixpoint node_induction (n : Minimax.node) : P n :=
  match n with
  | Minimax.Node is_terminal evaluate children =>
      step is_terminal evaluate children
           ((fix all (l : list Minimax.node) : Forall P l :=
               match l with
               | [] => Forall_nil P
               | c :: l' => Forall_cons c (node_induction c) (all l')
               end) children)
  end.
End NodeInduction.

(** The comparison of the values is a total order, with [max] and [min]
    its two-argument maximum and minimum. *)
Module ValueOrder.
Definition t : Type := Minimax.value.
Definition eq : t -> t -> Prop := @Logic.eq Minimax.value.
Definition lt : t -> t -> Prop := value_lt.
Definition le : t -> t -> Prop := value_le.
End ValueOrder.

Module ValueOrderFacts.

#[global] Instance eq_equiv : Equivalence ValueOrder.eq.
Proof.
  unfold ValueOrder.eq. split; congruence.
Qed.

#[global] Instance lt_strorder : StrictOrder ValueOrder.lt.
Proof.
  split.
  - intros x. unfold complement, ValueOrder.lt, value_lt.
    destruct x; cbn; try discriminate. rewrite Z.ltb_irrefl. discriminate.
  - intros x y z. unfold ValueOrder.lt, value_lt.
    destruct x, y, z; cbn; try discriminate; try reflexivity.
    rewrite !Z.ltb_lt. lia.
Qed.

#[global] Instance lt_compat :
  Proper (ValueOrder.eq ==> ValueOrder.eq ==> iff) ValueOrder.lt.
Proof.
  intros x x' Ex y y' Ey. unfold ValueOrder.eq in *. subst. reflexivity.
Qed.

Lemma le_lteq (x y : ValueOrder.t) :
  ValueOrder.le x y <-> ValueOrder.lt x y \/ ValueOrder.eq x y.
Proof.
  unfold ValueOrder.le, ValueOrder.lt, ValueOrder.eq, value_le, value_lt,
    Minimax.le.
  destruct x, y; cbn; split; intros H;
    try (left; reflexivity); try (right; reflexivity); try reflexivity;
    try discriminate;
    try (destruct H as [H | H]; discriminate).
  - apply negb_true_iff, Z.ltb_ge in H.
    destruct (Z.eq_dec z z0) as [-> | Hne]; [right; reflexivity |].
    left. apply Z.ltb_lt. lia.
  - apply negb_true_iff, Z.ltb_ge.
    destruct H as [H | H]; [apply Z.ltb_lt in H; lia |].
    injection H as ->. lia.
Qed.

Lemma lt_total (x y : ValueOrder.t) :
  ValueOrder.lt x y \/ ValueOrder.eq x y \/ ValueOrder.lt y x.
Proof.
  unfold ValueOrder.lt, ValueOrder.eq, value_lt.
  destruct x, y; cbn; auto.
  destruct (Z.lt_total z z0) as [H | [-> | H]].
  - left. apply Z.ltb_lt. exact H.
  - right. left. reflexivity.
  - right. right. apply Z.ltb_lt. exact H.
Qed.

End ValueOrderFacts.

Module ValueOrderTac := OrdersTac.MakeOrderTac ValueOrder ValueOrderFacts.

Lemma lt_false_iff (x y : Minimax.value) :
  Minimax.lt x y = false <-> ~ value_lt x y.
Proof.
  unfold value_lt. destruct (Minimax.lt x y); split; congruence.
Qed.

Lemma le_false_iff (x y : Minimax.value) :
  Minimax.le x y = false <-> ~ value_le x y.
Proof.
  unfold value_le. destruct (Minimax.le x y); split; congruence.
Qed.

Lemma py_max_cases (a b : Minimax.value) :
  (value_lt a b /\ Minimax.py_max a b = b) \/
  (~ value_lt a b /\ Minimax.py_max a b = a).
Proof.
  unfold Minimax.py_max, value_lt. destruct (Minimax.lt a b).
  - left. split; reflexivity.
  - right. split; [discriminate | reflexivity].
Qed.

Lemma py_min_cases (a b : Minimax.value) :
  (value_lt b a /\ Minimax.py_min a b = b) \/
  (~ value_lt b a /\ Minimax.py_min a b = a).
Proof.
  unfold Minimax.py_min, value_lt. destruct (Minimax.lt b a).
  - left. split; reflexivity.
  - right. split; [discriminate | reflexivity].
Qed.

Ltac max_min_cases :=
  repeat match goal with
         | H : context [Minimax.py_max ?a ?b] |- _ =>
             let m := fresh "m" in
             let C := fresh "C" in
             pose proof (py_max_cases a b) as C;
             set (m := Minimax.py_max a b) in *; clearbody m;
             destruct C as [[? ?] | [? ?]]; subst m
         | |- context [Minimax.py_max ?a ?b] =>
             let m := fresh "m" in
             let C := fresh "C" in
             pose proof (py_max_cases a b) as C;
             set (m := Minimax.py_max a b) in *; clearbody m;
             destruct C as [[? ?] | [? ?]]; subst m
         | H : context [Minimax.py_min ?a ?b] |- _ =>
             let m := fresh "m" in
             let C := fresh "C" in
             pose proof (py_min_cases a b) as C;
             set (m := Minimax.py_min a b) in *; clearbody m;
             destruct C as [[? ?] | [? ?]]; subst m
         | |- context [Minimax.py_min ?a ?b] =>
             let m := fresh "m" in
             let C := fresh "C" in
             pose proof (py_min_cases a b) as C;
             set (m := Minimax.py_min a b) in *; clearbody m;
             destruct C as [[? ?] | [? ?]]; subst m
         end.

(** Goals about the order of values are settled by a case analysis on
    each [max] and [min] and the transitivity of the order. *)
Ltac value_order :=
  max_min_cases;
  unfold window_result in *;
  repeat match goal with
         | H : _ /\ _ |- _ => destruct H
         end;
  repeat split; intros;
  change value_lt with ValueOrder.lt in *;
  change value_le with ValueOrder.le in *;
  change (@Logic.eq Minimax.value) with ValueOrder.eq in *;
  ValueOrderTac.order.

Lemma infinities_bound (v : Minimax.value) :
  value_le Minimax.NegInf v /\ value_le v Minimax.PosInf.
Proof.
  destruct v; split; reflexivity.
Qed.

(** The three positions of the value with respect to the window. *)
Lemma window_cases (alpha beta v r : Minimax.value) :
  window_result alpha beta v r ->
  (value_le v alpha /\ value_le v r /\ value_le r alpha) \/
  (value_lt alpha v /\ value_lt v beta /\ r = v) \/
  (value_le beta v /\ value_le beta r /\ value_le r v).
Proof.
  intros (Hin & Hlow & Hhigh).
  destruct (Minimax.lt alpha v) eqn:E1.
  - destruct (Minimax.lt v beta) eqn:E2.
    + right. left. split; [exact E1 |]. split; [exact E2 |].
      apply Hin; assumption.
    + right. right.
      assert (H : value_le beta v)
        by (unfold value_le, Minimax.le; rewrite E2; reflexivity).
      split; [exact H |]. apply Hhigh. exact H.
  - left.
    assert (H : value_le v alpha)
      by (unfold value_le, Minimax.le; rewrite E1; reflexivity).
    split; [exact H |]. apply Hlow. exact H.
Qed.

Lemma fold_max_ge (l : list Minimax.value) :
  forall acc, value_le acc (fold_left Minimax.py_max l acc).
Proof.
  induction l as [| x l IH]; intros acc; cbn [fold_left].
  - value_order.
  - specialize (IH (Minimax.py_max acc x)).
    revert IH. generalize (fold_left Minimax.py_max l (Minimax.py_max acc x)).
    intros m IH. value_order.
Qed.

Lemma fold_min_le (l : list Minimax.value) :
  forall acc, value_le (fold_left Minimax.py_min l acc) acc.
Proof.
  induction l as [| x l IH]; intros acc; cbn [fold_left].
  - value_order.
  - specialize (IH (Minimax.py_min acc x)).
    revert IH. generalize (fold_left Minimax.py_min l (Minimax.py_min acc x)).
    intros m IH. value_order.
Qed.

(** The maximizing loop, entered after the children of largest value
    [seen]: as long as it has not stopped, [max_eval] lies between
    [seen] and the larger of [seen] and the initial [alpha0], and [alpha]
    is the larger of [alpha0] and [max_eval]. *)
Lemma max_loop_window
      (eval_child : Minimax.node -> Minimax.value -> Minimax.value)
      (value_of : Minimax.node -> Minimax.value)
      (alpha0 beta : Minimax.value) (children : list Minimax.node) :
  Forall (fun child =>
            forall alpha, value_lt alpha beta ->
              window_result alpha beta (value_of child)
                            (eval_child child alpha)) children ->
  forall seen max_eval alpha,
    value_lt alpha0 beta ->
    value_le seen max_eval ->
    value_le max_eval (Minimax.py_max alpha0 seen) ->
    alpha = Minimax.py_max alpha0 max_eval ->
    value_lt alpha beta ->
    window_result alpha0 beta
      (fold_left Minimax.py_max (map value_of children) seen)
      (Minimax.max_loop eval_child beta children max_eval alpha).
Proof.
  induction 1 as [| child rest Hchild _ IH];
    intros seen max_eval alpha H0 Hlo Hhi Ealpha Hlt.
  - cbn [map fold_left Minimax.max_loop]. subst alpha. value_order.
  - cbn [map fold_left Minimax.max_loop]. cbv zeta.
    specialize (Hchild alpha Hlt). apply window_cases in Hchild.
    set (v := value_of child) in *.
    set (r := eval_child child alpha) in *.
    clearbody v r.
    destruct (Minimax.le beta (Minimax.py_max alpha r)) eqn:Estop.
    + pose proof (fold_max_ge (map value_of rest) (Minimax.py_max seen v))
        as Hge.
      revert Hge.
      generalize (fold_left Minimax.py_max (map value_of rest)
                            (Minimax.py_max seen v)).
      intros total Hge. clear IH.
      change (value_le beta (Minimax.py_max alpha r)) in Estop.
      subst alpha.
      destruct Hchild as [Hc | [Hc | Hc]]; value_order.
    + apply le_false_iff in Estop.
      apply IH; [exact H0 | | | |]; subst alpha;
        destruct Hchild as [Hc | [Hc | Hc]]; value_order.
Qed.

Lemma min_loop_window
      (eval_child : Minimax.node -> Minimax.value -> Minimax.value)
      (value_of : Minimax.node -> Minimax.value)
      (alpha beta0 : Minimax.value) (children : list Minimax.node) :
  Forall (fun child =>
            forall beta, value_lt alpha beta ->
              window_result alpha beta (value_of child)
                            (eval_child child beta)) children ->
  forall seen min_eval beta,
    value_lt alpha beta0 ->
    value_le min_eval seen ->
    value_le (Minimax.py_min beta0 seen) min_eval ->
    beta = Minimax.py_min beta0 min_eval ->
    value_lt alpha beta ->
    window_result alpha beta0
      (fold_left Minimax.py_min (map value_of children) seen)
      (Minimax.min_loop eval_child alpha children min_eval beta).
Proof.
  induction 1 as [| child rest Hchild _ IH];
    intros seen min_eval beta H0 Hlo Hhi Ebeta Hlt.
  - cbn [map fold_left Minimax.min_loop]. subst beta. value_order.
  - cbn [map fold_left Minimax.min_loop]. cbv zeta.
    specialize (Hchild beta Hlt). apply window_cases in Hchild.
    set (v := value_of child) in *.
    set (r := eval_child child beta) in *.
    clearbody v r.
    destruct (Minimax.le (Minimax.py_min beta r) alpha) eqn:Estop.
    + pose proof (fold_min_le (map value_of rest) (Minimax.py_min seen v))
        as Hge.
      revert Hge.
      generalize (fold_left Minimax.py_min (map value_of rest)
                            (Minimax.py_min seen v)).
      intros total Hge. clear IH.
      change (value_le (Minimax.py_min beta r) alpha) in Estop.
      subst beta.
      destruct Hchild as [Hc | [Hc | Hc]]; value_order.
    + apply le_false_iff in Estop.
      apply IH; [exact H0 | | | |]; subst beta;
        destruct Hchild as [Hc | [Hc | Hc]]; value_order.
Qed.

Lemma alpha_beta_window (n : Minimax.node) :
  forall depth alpha beta maximizing,
    value_lt alpha beta ->
    window_result alpha beta (game_value n depth maximizing)
                  (Minimax.minimax n depth alpha beta maximizing).
Proof.
  induction n as [is_terminal evaluate children IH] using node_induction.
  intros depth alpha beta maximizing Hlt.
  cbn [game_value Minimax.minimax].
  destruct ((depth =? 0) || is_terminal).
  { clear IH. value_order. }
  destruct (infinities_bound alpha) as [Hneg _].
  destruct (infinities_bound beta) as [_ Hpos].
  destruct maximizing.
  - apply (max_loop_window
             (fun child a => Minimax.minimax child (depth - 1) a beta false)
             (fun child => game_value child (depth - 1) false)).
    + apply Forall_forall. intros child Hin a Ha.
      rewrite Forall_forall in IH. apply IH; assumption.
    + exact Hlt.
    + clear IH. value_order.
    + clear IH. value_order.
    + clear IH. value_order.
    + exact Hlt.
  - apply (min_loop_window
             (fun child b => Minimax.minimax child (depth - 1) alpha b true)
             (fun child => game_value child (depth - 1) true)).
    + apply Forall_forall. intros child Hin b Hb.
      rewrite Forall_forall in IH. apply IH; assumption.
    + exact Hlt.
    + clear IH. value_order.
    + clear IH. value_order.
    + clear IH. value_order.
    + exact Hlt.
Qed.



(** ** Marked items outside the search space *)

Lemma digits_log2 (p : positive) :
  Z.of_nat (Pos.to_nat (digits2_pos p)) = Z.log2 (Zpos p) + 1.
Proof.
  pose proof (Zdigits2_pos_bounds p) as [Hlo Hhi].
  cbn [Zdigits2] in Hlo, Hhi.
  rewrite positive_nat_Z.
  assert (H : Z.log2 (Zpos p) = Zpos (digits2_pos p) - 1).
  { apply Z.log2_unique; [lia |].
    replace (Z.succ (Zpos (digits2_pos p) - 1)) with (Zpos (digits2_pos p))
      by lia.
    split; [exact Hlo | exact Hhi]. }
  lia.
Qed.

(** The digits of [format(m, f'0{n}b')], least significant first: the
    bits of [m] up to its leading one, and zeros up to the width. *)
Lemma lsb_chars_format_wide (n : Z) (p : positive) :
  rev (list_ascii_of_string (format_0b n (Zpos p)))
  = map (bit_char (Zpos p))
        (py_range 0 (Z.max n (Z.log2 (Zpos p) + 1))).
Proof.
  unfold format_0b.
  destruct (Z.ltb_spec (Zpos p) 0) as [? | _]; [lia |].
  cbn [String.length append].
  rewrite list_ascii_of_string_app, rev_app_distr, list_ascii_of_zeros,
    rev_repeat_char, length_bin_of_pos.
  pose proof (digits_log2 p) as Hd.
  set (k := Nat.max (Z.to_nat n) (Pos.to_nat (digits2_pos p))).
  replace (Z.to_nat (n - Z.of_nat 0 - Z.of_nat (Pos.to_nat (digits2_pos p))))
    with (k - Pos.to_nat (digits2_pos p))%nat
    by (unfold k; lia).
  rewrite (lsb_chars_pos p k) by (unfold k; lia).
  rewrite lsb_chars_testbit by lia.
  do 2 f_equal. unfold k. lia.
Qed.

(** The loop over the digits, for any list of positions: it raises at the
    first zero bit at or above [n], and otherwise flips the positions
    with a zero bit. *)
Lemma x_loop_spec (n m : Z) (l : list Z) :
  (forall i, In i l -> 0 <= i) ->
  for_each (fun ib : Z * ascii =>
              if Ascii.eqb (snd ib) "0" then
                q <- qubit n (fst ib) ;; Returned [G_x q]
              else Returned [])
           (map (fun i => (i, bit_char m i)) l)
  = if existsb (fun i => negb (Z.testbit m i) && (n <=? i)) l
    then Raised IndexError
    else Returned (map G_x (filter (fun i => negb (Z.testbit m i)) l)).
Proof.
  induction l as [| i l IH]; intros Hl; [reflexivity |].
  cbn [map for_each existsb filter fst snd].
  rewrite IH by (intros j Hj; apply Hl; right; exact Hj).
  pose proof (Hl i (or_introl eq_refl)) as Hi.
  unfold bit_char. destruct (Z.testbit m i); cbn [negb andb orb Ascii.eqb
                                                  Bool.eqb].
  - destruct (existsb _ l); reflexivity.
  - unfold qubit.
    destruct (Z.leb_spec 0 i) as [_ | ?]; [| lia].
    destruct (Z.leb_spec n i) as [Hge | Hlt]; cbn [andb orb].
    + destruct (Z.ltb_spec i n) as [? | _]; [lia |].
      destruct (Z.ltb_spec i 0) as [? | _]; [lia |].
      rewrite andb_false_r. reflexivity.
    + destruct (Z.ltb_spec i n) as [_ | ?]; [| lia].
      cbn [bind]. destruct (existsb _ l); reflexivity.
Qed.

Lemma existsb_zero_outside (n m hi : Z) :
  existsb (fun i => negb (Z.testbit m i) && (n <=? i)) (py_range 0 hi) = true
  <-> exists i, n <= i < hi /\ 0 <= i /\ Z.testbit m i = false.
Proof.
  rewrite existsb_exists. split.
  - intros (i & Hin & Hb). apply in_py_range_inv in Hin.
    apply andb_true_iff in Hb. destruct Hb as [Hb Hn].
    apply negb_true_iff in Hb. apply Z.leb_le in Hn.
    exists i. repeat split; try lia. exact Hb.
  - intros (i & Hi & H0 & Hb). exists i. split.
    + apply in_py_range. lia.
    + rewrite Hb. cbn [negb andb]. apply Z.leb_le. lia.
Qed.

Lemma x_on_zero_bits_positive (n : Z) (p : positive) :
  1 <= n ->
  x_on_zero_bits n (format_0b n (Zpos p))
  = if existsb (fun i => negb (Z.testbit (Zpos p) i) && (n <=? i))
               (py_range 0 (Z.log2 (Zpos p)))
    then Raised IndexError
    else Returned (map G_x (zero_bits n (Zpos p))).
Proof.
  intros Hn. unfold x_on_zero_bits.
  rewrite lsb_chars_format_wide.
  set (m := Zpos p). set (top := Z.log2 m).
  assert (Htop : 0 <= top) by apply Z.log2_nonneg.
  assert (Hbit : Z.testbit m top = true)
    by (apply Z.bit_log2; reflexivity).
  set (hi := Z.max n (top + 1)).
  unfold enumerate, len. rewrite length_map.
  assert (Hlen : Z.of_nat (List.length (py_range 0 hi)) = hi)
    by (unfold py_range; rewrite length_map, length_seq; lia).
  rewrite Hlen, combine_map_self.
  rewrite x_loop_spec
    by (intros i Hi; apply in_py_range_inv in Hi; lia).
  assert (Hsame :
            existsb (fun i => negb (Z.testbit m i) && (n <=? i))
                    (py_range 0 hi)
            = existsb (fun i => negb (Z.testbit m i) && (n <=? i))
                      (py_range 0 top)).
  { apply eq_true_iff_eq. rewrite !existsb_zero_outside. split.
    - intros (i & Hi & H0 & Hb). exists i. repeat split; try lia; [| exact Hb].
      destruct (Z_lt_le_dec i top) as [? | Hge]; [assumption | exfalso].
      assert (Ei : i = top) by (unfold hi in Hi; lia).
      subst i. congruence.
    - intros (i & Hi & H0 & Hb). exists i. repeat split; try lia.
      exact Hb. }
  rewrite Hsame.
  destruct (existsb _ (py_range 0 top)) eqn:E; [reflexivity |].
  do 2 f_equal. unfold zero_bits.
  rewrite (py_range_split 0 n hi) by lia.
  rewrite filter_app.
  rewrite (filter_none _ (py_range n hi)); [apply app_nil_r |].
  intros i Hi. apply in_py_range_inv in Hi. apply negb_false_iff.
  destruct (Z.testbit m i) eqn:Hb; [reflexivity | exfalso].
  destruct (Z.eq_dec i top) as [-> | Hne]; [congruence |].
  assert (Hex : existsb (fun i => negb (Z.testbit m i) && (n <=? i))
                        (py_range 0 top) = true).
  { apply existsb_zero_outside. exists i. repeat split; try lia.
    exact Hb. }
  congruence.
Qed.



(** ** Generated test numbers *)

Lemma in_insert (x y : Z) (l : list Z) :
  In y (DatasetGenerator.insert x l) <-> y = x \/ In y l.
Proof.
  induction l as [| z l IH]; cbn [DatasetGenerator.insert].
  - cbn. intuition congruence.
  - destruct (x <=? z); cbn [In]; [intuition congruence |].
    rewrite IH. intuition congruence.
Qed.

Lemma in_sorted (y : Z) (l : list Z) :
  In y (DatasetGenerator.sorted l) <-> In y l.
Proof.
  unfold DatasetGenerator.sorted.
  induction l as [| x l IH]; cbn [fold_right]; [reflexivity |].
  rewrite in_insert, IH. cbn [In]. intuition congruence.
Qed.

Lemma length_insert (x : Z) (l : list Z) :
  List.length (DatasetGenerator.insert x l) = S (List.length l).
Proof.
  induction l as [| z l IH]; cbn [DatasetGenerator.insert]; [reflexivity |].
  destruct (x <=? z); cbn [List.length]; [reflexivity |].
  rewrite IH. reflexivity.
Qed.

Lemma length_sorted (l : list Z) :
  List.length (DatasetGenerator.sorted l) = List.length l.
Proof.
  unfold DatasetGenerator.sorted.
  induction l as [| x l IH]; cbn [fold_right]; [reflexivity |].
  rewrite length_insert, IH. reflexivity.
Qed.

Lemma insert_increasing (x : Z) (l : list Z) :
  StronglySorted Z.lt l -> ~ In x l ->
  StronglySorted Z.lt (DatasetGenerator.insert x l).
Proof.
  induction 1 as [| z l Hs IH Hall]; intros Hx;
    cbn [DatasetGenerator.insert].
  - repeat constructor.
  - rewrite Forall_forall in Hall.
    destruct (Z.leb_spec x z) as [Hle | Hgt].
    + assert (Hlt : x < z) by (cbn in Hx; lia).
      constructor; [constructor; [exact Hs | apply Forall_forall; exact Hall] |].
      apply Forall_forall. intros y [<- | Hy]; [exact Hlt |].
      specialize (Hall y Hy). lia.
    + constructor.
      * apply IH. intros H. apply Hx. right. exact H.
      * apply Forall_forall. intros y Hy. apply in_insert in Hy.
        destruct Hy as [-> | Hy]; [lia | apply Hall; exact Hy].
Qed.

Lemma sorted_increasing (l : list Z) :
  NoDup l -> StronglySorted Z.lt (DatasetGenerator.sorted l).
Proof.
  unfold DatasetGenerator.sorted.
  induction 1 as [| x l Hx _ IH]; cbn [fold_right]; [constructor |].
  apply insert_increasing; [exact IH |].
  intros H. apply Hx. apply in_sorted. exact H.
Qed.

(** The loop keeps the accepted products of the iterations it ran, each
    once. *)
Lemma shor_loop_spec (sample : nat -> Z * Z) (iterations : nat) :
  forall i composites,
    NoDup composites ->
    let out := DatasetGenerator.shor_loop sample iterations i composites in
    NoDup out /\
    (List.length out <= List.length composites + iterations)%nat /\
    (forall N, In N out <->
               In N composites \/
               exists j, (i <= j < i + iterations)%nat /\
                         N = drawn sample j /\ 10 < N < 100).
Proof.
  induction iterations as [| k IH]; intros i composites Hnd;
    cbn [DatasetGenerator.shor_loop].
  - cbv zeta. split; [exact Hnd |]. split; [lia |].
    intros N. split; [auto |]. intros [H | (j & Hj & _)]; [exact H | lia].
  - cbv zeta. unfold drawn in *.
    destruct (sample i) as [p1 p2] eqn:Es.
    set (M := p1 * p2).
    destruct (negb (existsb (Z.eqb M) composites) && (M <? 100) && (M >? 10))
      eqn:Etest.
    + apply andb_true_iff in Etest. destruct Etest as [Etest Hgt].
      apply andb_true_iff in Etest. destruct Etest as [Hnew Hlt].
      apply negb_true_iff in Hnew. apply Z.ltb_lt in Hlt.
      apply Z.gtb_lt in Hgt.
      assert (Hnotin : ~ In M composites).
      { intros Hin.
        assert (H : existsb (Z.eqb M) composites = true)
          by (apply existsb_exists; exists M; split;
              [exact Hin | apply Z.eqb_refl]).
        congruence. }
      assert (Hnd' : NoDup (composites ++ [M])).
      { apply NoDup_app; [exact Hnd | repeat constructor; intros [] |].
        intros x Hx [<- | []]. exact (Hnotin Hx). }
      destruct (IH (S i) (composites ++ [M]) Hnd') as (H1 & H2 & H3).
      split; [exact H1 |].
      split; [rewrite length_app in H2; cbn [List.length] in H2; lia |].
      intros N. rewrite H3, in_app_iff. cbn [In]. split.
      * intros [[H | [<- | []]] | (j & Hj & HN)].
        -- left. exact H.
        -- right. exists i. split; [lia |]. rewrite Es. cbn [fst snd].
           split; [reflexivity | lia].
        -- right. exists j. split; [lia | exact HN].
      * intros [H | (j & Hj & HN)]; [left; left; exact H |].
        destruct (Nat.eq_dec j i) as [-> | Hne].
        -- left. right. left. rewrite Es in HN. cbn [fst snd] in HN.
           symmetry. exact (proj1 HN).
        -- right. exists j. split; [lia | exact HN].
    + destruct (IH (S i) composites Hnd) as (H1 & H2 & H3).
      split; [exact H1 |]. split; [lia |].
      intros N. rewrite H3. split.
      * intros [H | (j & Hj & HN)]; [left; exact H |].
        right. exists j. split; [lia | exact HN].
      * intros [H | (j & Hj & HN)]; [left; exact H |].
        destruct (Nat.eq_dec j i) as [-> | Hne].
        -- left. rewrite Es in HN. cbn [fst snd] in HN.
           destruct HN as [-> HN]. fold M in HN |- *.
           apply andb_false_iff in Etest.
           destruct Etest as [Etest | Hgt].
           ++ apply andb_false_iff in Etest.
              destruct Etest as [Hold | Hlt].
              ** apply negb_false_iff, existsb_exists in Hold.
                 destruct Hold as (x & Hx & Ex). apply Z.eqb_eq in Ex.
                 subst x. exact Hx.
              ** apply Z.ltb_ge in Hlt. lia.
           ++ rewrite Z.gtb_ltb in Hgt. apply Z.ltb_ge in Hgt. lia.
        -- right. exists j. split; [lia | exact HN].
Qed.

Lemma first_seven_primes (p : Z) :
  In p (firstn 7 DatasetGenerator.primes) ->
  Z.prime p /\ 3 <= p <= 19 /\ p mod 2 = 1.
Proof.
  assert (Hprime : forall q, In q [3; 5; 7; 11; 13; 17; 19] -> Z.prime q).
  { intros q Hq. split; [cbn in Hq; lia |].
    intros n Hn Hdiv. apply Z.mod_divide in Hdiv; [| lia].
    assert (Hcases : In n (py_range 2 19))
      by (apply in_py_range; cbn in Hq; lia).
    cbn in Hq.
    repeat (destruct Hq as [<- | Hq];
            [vm_compute in Hcases;
             repeat (destruct Hcases as [<- | Hcases];
                     [vm_compute in Hdiv; try discriminate; lia |]);
             destruct Hcases |]).
    destruct Hq. }
  intros Hp. split; [apply Hprime; exact Hp |].
  cbn in Hp.
  repeat (destruct Hp as [<- | Hp]; [split; [lia | reflexivity] |]).
  destruct Hp.
Qed.

Lemma products_in_range (p q : Z) :
  In p (firstn 7 DatasetGenerator.primes) ->
  In q (firstn 7 DatasetGenerator.primes) ->
  p <> q -> 10 < p * q < 100 ->
  In (p * q) [15; 21; 33; 35; 39; 51; 55; 57; 65; 77; 85; 91; 95].
Proof.
  intros Hp Hq Hne Hrange. cbn in Hp, Hq.
  repeat match goal with
         | H : _ \/ _ |- _ => destruct H as [<- | H]
         | H : False |- _ => destruct H
         end;
    try congruence; try (cbn in Hrange; lia);
    vm_compute; repeat (first [left; reflexivity | right]).
Qed.

Lemma shor_on_generated (N : Z) :
  In N [15; 21; 33; 35; 39; 51; 55; 57; 65; 77; 85; 91; 95] ->
  (Shor.factors (fst (Shor.run N None)) <> None <-> N = 15 \/ N = 21).
Proof.
  intros HN. cbn in HN.
  repeat match goal with
         | H : _ \/ _ |- _ => destruct H as [<- | H]
         | H : False |- _ => destruct H
         end;
    vm_compute;
    (split;
     [intros H;
      first [left; reflexivity | right; reflexivity
             | exfalso; apply H; reflexivity]
     | intros [E | E]; first [discriminate E | discriminate]]).
Qed.

(** [generate_shor_data] returns, in strictly increasing order, exactly
    the products [p1 * p2] drawn in its [count] iterations that lie
    strictly between 10 and 100; each is an odd product of two different
    primes, and [ShorAlgorithm.run] with its default base reports
    factors for it only when it is 15 or 21. *)
Theorem generate_shor_data_semiprimes
        (sample : nat -> Z * Z) (count : Z) :
  sample_ok sample ->
  let composites := DatasetGenerator.generate_shor_data sample count in
  StronglySorted Z.lt composites /\
  len composites <= Z.max 0 count /\
  (forall N, In N composites <->
             exists i, Z.of_nat i < count /\ N = drawn sample i /\
                       10 < N < 100) /\
  (forall N, In N composites ->
             N mod 2 = 1 /\
             (exists p q, Z.prime p /\ Z.prime q /\ p <> q /\ N = p * q) /\
             (Shor.factors (fst (Shor.run N None)) <> None
              <-> N = 15 \/ N = 21)).
Proof.
  intros Hok. unfold DatasetGenerator.generate_shor_data. cbv zeta.
  destruct (shor_loop_spec sample (Z.to_nat count) 0 [] (NoDup_nil Z))
    as (Hnd & Hlen & Hin).
  set (cs := DatasetGenerator.shor_loop sample (Z.to_nat count) 0 []) in *.
  assert (Hsame : nodup Z.eq_dec cs = cs) by (apply nodup_fixed_point; exact Hnd).
  rewrite Hsame.
  assert (Hslice : DatasetGenerator.slice_to count (DatasetGenerator.sorted cs)
                   = DatasetGenerator.sorted cs).
  { unfold DatasetGenerator.slice_to.
    pose proof (length_sorted cs) as Hl. cbn [List.length] in Hlen.
    destruct (Z.leb_spec 0 count) as [Hc | Hc].
    - apply firstn_all2. lia.
    - replace (Z.to_nat count) with 0%nat in * by lia.
      destruct (DatasetGenerator.sorted cs); [| cbn in Hl; lia].
      apply firstn_nil. }
  rewrite Hslice.
  assert (Hmem : forall N, In N (DatasetGenerator.sorted cs) <->
                           exists i, Z.of_nat i < count /\
                                     N = drawn sample i /\ 10 < N < 100).
  { intros N. rewrite in_sorted, Hin. cbn [In]. split.
    - intros [[] | (j & Hj & HN)]. exists j. split; [lia | exact HN].
    - intros (j & Hj & HN). right. exists j. split; [lia | exact HN]. }
  split; [apply sorted_increasing; exact Hnd |].
  split; [unfold len; rewrite length_sorted; cbn [List.length] in Hlen; lia |].
  split; [exact Hmem |].
  intros N HN. apply Hmem in HN. destruct HN as (i & _ & -> & Hrange).
  destruct (Hok i) as (H1 & H2 & Hne). unfold drawn in *.
  destruct (first_seven_primes _ H1) as (Hp1 & Hb1 & Ho1).
  destruct (first_seven_primes _ H2) as (Hp2 & Hb2 & Ho2).
  set (p := fst (sample i)) in *. set (q := snd (sample i)) in *.
  split; [| split].
  - rewrite Z.mul_mod, Ho1, Ho2 by lia. reflexivity.
  - exists p, q.
    split; [exact Hp1 | split; [exact Hp2 | split; [exact Hne | reflexivity]]].
  - apply shor_on_generated. apply products_in_range; assumption.
Qed.

Lemma generate_shor_data_semiprimes_witness :
  let sample := fun i : nat =>
                  match i with
                  | 0%nat => (7, 3)
                  | 1%nat => (3, 5)
                  | 2%nat => (19, 17)
                  | 3%nat => (5, 3)
                  | _ => (11, 5)
                  end in
  DatasetGenerator.generate_shor_data sample 5 = [15; 21; 55] /\
  StronglySorted Z.lt (DatasetGenerator.generate_shor_data sample 5).
Proof.
  intros sample. split; [reflexivity |].
  apply (generate_shor_data_semiprimes sample 5).
  intros i. destruct i as [| [| [| [| i]]]]; cbn;
    (split; [tauto | split; [tauto | discriminate]]).
Defined.

(** ** Generated search scenarios *)

(** For marked items that are indices of a search space of [2^n]
    elements, [1 <= n <= 10], [GroverAlgorithm.run] returns a result. *)
Lemma grover_run_returns
      (backend_run : QuantumCircuit -> Z -> counts)
      (marked_items : list Z) (n : Z) :
  backend_ok backend_run ->
  marked_items <> [] -> 1 <= n <= 10 ->
  (forall m, In m marked_items -> 0 <= m < 2 ^ n) ->
  exists k r qc,
    grover_iterations (2 ^ n) (len marked_items) = Returned k /\
    is_exact_floor (2 ^ n) (len marked_items) k = true /\
    Grover.run backend_run marked_items (2 ^ n)
    = (Returned (Grover.Result r), [(qc, 1000)]) /\
    Grover.iterations r = k /\
    Grover.marked_items r = marked_items.
Proof.
  intros Hbackend Hne Hn Hrange.
  assert (Hlen : 0 < len marked_items)
    by (destruct marked_items; [congruence | unfold len; simpl; lia]).
  assert (Hsize : 0 < 2 ^ n < 2 ^ 11).
  { split; [apply Z.pow_pos_nonneg; lia |].
    apply Z.pow_lt_mono_r; lia. }
  destruct (grover_iterations_total (2 ^ n) (len marked_items) Hsize Hlen)
    as (k & Ek & Hk).
  pose proof (grover_iterations_exact n (len marked_items)
                ltac:(lia) ltac:(lia)) as Hexact.
  unfold iterations_exact in Hexact. rewrite Ek in Hexact.
  destruct (search_circuit_returned n k marked_items ltac:(lia) Hrange)
    as (qc & Eqc & Hqubits & _).
  unfold Grover.run.
  assert (Htest : (2 ^ n =? 0) || negb (Z.land (2 ^ n) (2 ^ n - 1) =? 0)
                  = false)
    by (apply power_of_two_test; exists n; split; [lia | reflexivity]).
  rewrite Htest. unfold PyFloat.int_log2.
  rewrite Z.log2_pow2 by lia.
  destruct (Z.gtb_spec n 10) as [? | _]; [lia |].
  rewrite Ek. cbn [bind]. unfold Grover._oracle. rewrite Eqc. cbn [bind].
  destruct (histogram_ok_inv 1000 (backend_run qc 1000)
              (Hbackend qc 1000 ltac:(lia))) as [Hkeys Htotal].
  destruct (analyze_total marked_items (backend_run qc 1000) [] 0 Hkeys)
    as (found & sc & Ea & Hsc).
  rewrite Ea. cbn [bind].
  destruct (int_truediv_bounded sc 1000 10) as (rate & Erate & _);
    [lia | lia | apply Zdigits2_upper; lia | lia |].
  rewrite Erate. cbn [bind].
  eexists k, _, qc. split; [reflexivity |]. split; [exact Hexact |].
  split; [reflexivity |]. split; reflexivity.
Qed.

(** [generate_grover_data] returns one scenario per iteration.  In each
    the marked items are 1 to 3 different indices of the search space in
    increasing order and the size is [2^n] with [4 <= n <= 7], so
    [GroverAlgorithm.run] accepts every generated scenario: it returns a
    result, after one job, with at least one Grover iteration. *)
Theorem generate_grover_data_runs
        (backend_run : QuantumCircuit -> Z -> counts)
        (choice randint : nat -> Z) (sample_range : nat -> list Z)
        (num_cases : Z) :
  backend_ok backend_run ->
  cases_ok choice randint sample_range ->
  let test_cases :=
    DatasetGenerator.generate_grover_data choice randint sample_range
                                          num_cases in
  len test_cases = Z.max 0 num_cases /\
  (forall marked_items space_size description,
     In (marked_items, space_size, description) test_cases ->
     StronglySorted Z.lt marked_items /\
     1 <= len marked_items <= 3 /\
     (forall m, In m marked_items -> 0 <= m < space_size) /\
     (exists n, 4 <= n <= 7 /\ space_size = 2 ^ n) /\
     exists r qc,
       Grover.run backend_run marked_items space_size
       = (Returned (Grover.Result r), [(qc, 1000)]) /\
       Grover.marked_items r = marked_items /\
       1 <= Grover.iterations r).
Proof.
  intros Hbackend Hok. cbv zeta.
  unfold DatasetGenerator.generate_grover_data. split.
  - unfold len. rewrite length_map, length_seq. lia.
  - intros marked_items space_size description Hin.
    apply in_map_iff in Hin. destruct Hin as (i & Ecase & _).
    unfold DatasetGenerator.grover_case in Ecase. cbv zeta in Ecase.
    injection Ecase as Emarked Esize _.
    destruct (Hok i) as (Hchoice & Hcount & Hnd & Hlen & Hrange).
    rewrite Esize in Hchoice, Hrange. clear Esize.
    assert (Hlen' : len marked_items = randint i).
    { rewrite <- Emarked, <- Hlen. unfold len. rewrite length_sorted.
      reflexivity. }
    assert (Hrange' : forall m, In m marked_items -> 0 <= m < space_size).
    { intros m Hm. rewrite <- Emarked in Hm.
      apply Hrange. apply (proj1 (in_sorted m (sample_range i))). exact Hm. }
    assert (Hpow : exists n, 4 <= n <= 7 /\ space_size = 2 ^ n).
    { cbn in Hchoice.
      destruct Hchoice as [<- | [<- | [<- | [<- | []]]]];
        [exists 4 | exists 5 | exists 6 | exists 7];
        (split; [lia | reflexivity]). }
    split; [rewrite <- Emarked; apply sorted_increasing; exact Hnd |].
    split; [lia |]. split; [exact Hrange' |]. split; [exact Hpow |].
    destruct Hpow as (n & Hn & ->).
    destruct (grover_run_returns backend_run marked_items n Hbackend)
      as (k & r & qc & Ek & Hexact & Erun & Hit & Hmarked);
      [intros ->; unfold len in Hlen'; cbn in Hlen'; lia | lia
       | exact Hrange' |].
    exists r, qc. split; [exact Erun |]. split; [exact Hmarked |].
    rewrite Hit.
    unfold is_exact_floor in Hexact. cbv zeta in Hexact.
    apply andb_true_iff in Hexact. destruct Hexact as [Hexact Hup].
    apply andb_true_iff in Hexact. destruct Hexact as [Hk0 _].
    apply Z.leb_le in Hk0. apply Z.ltb_lt in Hup.
    destruct (Z.eq_dec k 0) as [-> | Hne]; [exfalso | lia].
    assert (H16 : 16 <= 2 ^ n)
      by (change 16 with (2 ^ 4); apply Z.pow_le_mono_r; lia).
    lia.
Qed.

Lemma generate_grover_data_runs_witness :
  let choice := fun i : nat => if Nat.even i then 16 else 64 in
  let randint := fun i : nat => if Nat.even i then 2 else 1 in
  let sample_range := fun i : nat => if Nat.even i then [9; 5] else [40] in
  DatasetGenerator.generate_grover_data choice randint sample_range 2
  = [([5; 9], 16, "2 items in 16 elements");
     ([40], 64, "1 item in 64 elements")] /\
  exists r qc,
    Grover.run (fun _ shots => [("0101", shots)]) [5; 9] 16
    = (Returned (Grover.Result r), [(qc, 1000)]) /\
    Grover.marked_items r = [5; 9] /\
    1 <= Grover.iterations r.
Proof.
  intros choice randint sample_range.
  split; [reflexivity |].
  apply (generate_grover_data_runs
           (fun _ shots => [("0101", shots)]) choice randint sample_range 2
           histogram_backend_ok)
    with (description := "2 items in 16 elements").
  - intros i. unfold choice, randint, sample_range.
    destruct (Nat.even i).
    + split; [left; reflexivity |]. split; [lia |].
      split; [repeat constructor; cbn; intuition discriminate |].
      split; [reflexivity |].
      intros m [<- | [<- | []]]; lia.
    + split; [right; right; left; reflexivity |]. split; [lia |].
      split; [repeat constructor; cbn; intuition discriminate |].
      split; [reflexivity |].
      intros m [<- | []]; lia.
  - left. reflexivity.
Defined.
